(** * Offline text-to-speech hook (client/src/hooks/useTTS.ts)

    A shallow embedding of the TTS engine of the chat client: the WAV
    encoder, the fallback beep, the oscillator synthesizer, the voice
    table, the IndexedDB audio cache and the [speak]/[stop] orchestration,
    followed by the properties of the specification that can be settled
    on them.

    Conventions.
    - JavaScript numbers that the code only uses as integers (lengths,
      offsets, hashes, timestamps) are [nat] or [Z]; numbers used as real
      quantities (seconds, hertz, gains) are exact rationals [Q]; the
      contents of a [Float32Array] are [number]s, which adds NaN and the
      infinities.  A finite float32 times 0x7FFF is exact in a double, so
      [Q] loses nothing in the encoder.
    - The arithmetic of the synthesizer (duration, frame count, event
      times) is given twice: in exact rationals, for the properties that
      hold whatever the rounding (the ceiling on the rendered length, the
      synthesizer always returning a buffer), and in [Double], with every
      operation rounded to the nearest double, for the properties that
      depend on the rounding (which texts are long enough to be rendered,
      how many frames, when the pitch changes).
    - Strings are [string]s of 8-bit code units.
    - An exception is a [Throw] in the [result] monad; [try]/[catch] is
      [try_catch].
    - What the browser decides (the audio context, offline rendering,
      [Math.sin], [Date.now], whether [play()] rejects) is read from an
      explicit [Platform] record. *)

From Stdlib Require Import ZArith QArith Qround Qabs Qpower Lia Lqa Ascii String.
From stdpp Require Import base list strings gmap pretty.

Local Open Scope nat_scope.

(** ** Exceptions *)

Inductive exn :=
  | RangeError
  | TypeError
  | IndexSizeError
  | NotSupportedError
  | DOMException.

(** [err.message] *)
Definition message (e : exn) : string :=
  match e with
  | RangeError => "RangeError"
  | TypeError => "TypeError"
  | IndexSizeError => "IndexSizeError"
  | NotSupportedError => "NotSupportedError"
  | DOMException => "DOMException"
  end.

Inductive result (A : Type) :=
  | Ok (a : A)
  | Throw (e : exn).
Arguments Ok {A} a.
Arguments Throw {A} e.

#[global] Instance result_ret : MRet result := fun A a => Ok a.
#[global] Instance result_bind : MBind result := fun A B f m =>
  match m with Ok a => f a | Throw e => Throw e end.

(** [try { body } catch (e) { handler }] *)
Definition try_catch {A} (body : result A) (handler : exn -> result A) : result A :=
  match body with Ok a => Ok a | Throw e => handler e end.

(** [for (let i = start; i < start + n; i++) body], threading the
    variables the body assigns. *)
Fixpoint for_loop {St : Type} (n start : nat) (body : nat -> St -> result St) (s : St)
  : result St :=
  match n with
  | O => Ok s
  | S n' => s' ← body start s; for_loop n' (S start) body s'
  end.

(** ** Numbers *)

(** Truncation toward zero, the first step of ToInt16/ToUint32. *)
Definition Qtrunc (q : Q) : Z := Z.quot (Qnum q) (Z.pos (Qden q)).

Inductive number :=
  | NaN
  | Infinity (negative : bool)
  | Num (q : Q).

Definition Math_min (a b : number) : number :=
  match a, b with
  | NaN, _ | _, NaN => NaN
  | Infinity true, _ | _, Infinity true => Infinity true
  | Infinity false, x | x, Infinity false => x
  | Num p, Num q => if Qle_bool p q then Num p else Num q
  end.

Definition Math_max (a b : number) : number :=
  match a, b with
  | NaN, _ | _, NaN => NaN
  | Infinity false, _ | _, Infinity false => Infinity false
  | Infinity true, x | x, Infinity true => x
  | Num p, Num q => if Qle_bool p q then Num q else Num p
  end.

(** [x * k] for a finite non-zero constant [k > 0]. *)
Definition times (x : number) (k : Q) : number :=
  match x with
  | NaN => NaN
  | Infinity s => Infinity s
  | Num q => Num (q * k)
  end.

(** ToInt16 of the specification of the language: NaN and the infinities
    give 0, a finite number is truncated and wrapped into
    [-32768, 32767]. *)
Definition wrapInt16 (z : Z) : Z :=
  let m := (z mod 65536)%Z in
  if (32768 <=? m)%Z then (m - 65536)%Z else m.

Definition ToInt16 (x : number) : Z :=
  match x with
  | Num q => wrapInt16 (Qtrunc q)
  | _ => 0%Z
  end.

(** ** ArrayBuffer and DataView *)

(** An [ArrayBuffer] is its bytes; a write outside the buffer is a
    RangeError. *)
Abbreviation ArrayBuffer := (list Z).

Definition new_ArrayBuffer (byteLength : nat) : ArrayBuffer := replicate byteLength 0%Z.

Definition setUint8 (view : ArrayBuffer) (byteOffset : nat) (value : Z)
  : result ArrayBuffer :=
  if byteOffset + 1 <=? length view
  then Ok (<[byteOffset := (value mod 256)%Z]> view)
  else Throw RangeError.

(** [view.setUint16(byteOffset, value, true)] *)
Definition setUint16 (view : ArrayBuffer) (byteOffset : nat) (value : Z)
  : result ArrayBuffer :=
  if byteOffset + 2 <=? length view
  then Ok (<[byteOffset + 1 := (value / 256 mod 256)%Z]>
           (<[byteOffset := (value mod 256)%Z]> view))
  else Throw RangeError.

(** [view.setUint32(byteOffset, value, true)] *)
Definition setUint32 (view : ArrayBuffer) (byteOffset : nat) (value : Z)
  : result ArrayBuffer :=
  if byteOffset + 4 <=? length view
  then Ok (<[byteOffset + 3 := (value / 16777216 mod 256)%Z]>
           (<[byteOffset + 2 := (value / 65536 mod 256)%Z]>
           (<[byteOffset + 1 := (value / 256 mod 256)%Z]>
           (<[byteOffset := (value mod 256)%Z]> view))))
  else Throw RangeError.

(** [view.setInt16(byteOffset, value, true)]: the two's complement bytes
    of ToInt16(value). *)
Definition setInt16 (view : ArrayBuffer) (byteOffset : nat) (value : number)
  : result ArrayBuffer :=
  setUint16 view byteOffset (ToInt16 value).

(** [view.getInt16(byteOffset, true)], what a reader of the file does. *)
Definition getInt16 (view : ArrayBuffer) (byteOffset : nat) : option Z :=
  lo ← view !! byteOffset;
  hi ← view !! (byteOffset + 1);
  Some (wrapInt16 (lo + 256 * hi)).

Definition charCodeAt (c : ascii) : Z := Z.of_nat (nat_of_ascii c).

Fixpoint writeChars (view : ArrayBuffer) (offset : nat) (cs : list ascii)
  : result ArrayBuffer :=
  match cs with
  | [] => Ok view
  | c :: cs' => view' ← setUint8 view offset (charCodeAt c); writeChars view' (S offset) cs'
  end.

Definition writeString (view : ArrayBuffer) (offset : nat) (s : string)
  : result ArrayBuffer :=
  writeChars view offset (list_ascii_of_string s).

(** ** AudioBuffer *)

Module AudioBuffer.
Record t := mk {
  numberOfChannels : nat;
  length : nat;
  sampleRate : Q;
  channelData : list (list number)
}.

(** [getChannelData(i)] throws IndexSizeError for a channel the buffer
    does not have. *)
Definition getChannelData (b : t) (i : nat) : result (list number) :=
  if i <? numberOfChannels b then
    match channelData b !! i with
    | Some data => Ok data
    | None => Throw IndexSizeError
    end
  else Throw IndexSizeError.
End AudioBuffer.

(** Reading a typed array: an index past the end is [undefined], which
    [Math.min] turns into NaN. *)
Definition index (data : list number) (i : nat) : number :=
  match data !! i with Some x => x | None => NaN end.

(** ** Audio Encoder *)

Definition exportToWavArrayBuffer (audioBuffer : AudioBuffer.t) : result ArrayBuffer :=
  let numOfChan := AudioBuffer.numberOfChannels audioBuffer in
  let length := AudioBuffer.length audioBuffer * numOfChan * 2 in
  let buffer := new_ArrayBuffer (44 + length) in
  let view := buffer in
  view ← writeString view 0 "RIFF";
  view ← setUint32 view 4 (Z.of_nat (36 + length));
  view ← writeString view 8 "WAVE";
  view ← writeString view 12 "fmt ";
  view ← setUint32 view 16 16;
  view ← setUint16 view 20 1;
  view ← setUint16 view 22 (Z.of_nat numOfChan);
  view ← setUint32 view 24 (Qtrunc (AudioBuffer.sampleRate audioBuffer));
  view ← setUint32 view 28
           (Qtrunc (AudioBuffer.sampleRate audioBuffer * inject_Z (Z.of_nat numOfChan) * 2));
  view ← setUint16 view 32 (Z.of_nat (numOfChan * 2));
  view ← setUint16 view 34 16;
  view ← writeString view 36 "data";
  view ← setUint32 view 40 (Z.of_nat length);
  channels ← for_loop numOfChan 0
    (fun i channels =>
       data ← AudioBuffer.getChannelData audioBuffer i; Ok (channels ++ [data])) [];
  '(offset, view) ← for_loop (AudioBuffer.length audioBuffer) 0
    (fun i =>
       for_loop numOfChan 0
         (fun channel '(offset, view) =>
            match channels !! channel with
            | None => Throw TypeError
            | Some data =>
                let sample := Math_max (Num (-1)) (Math_min (Num 1) (index data i)) in
                view ← setInt16 view offset (times sample 32767);
                Ok (offset + 2, view)
            end))
    (44, view);
  Ok view.

(** The file the encoder is meant to produce, written out: the 44-byte
    header and the frames, for comparison with what the [DataView] writes
    leave in the buffer. *)
Definition uint16le (v : Z) : list Z := [v mod 256; v / 256 mod 256]%Z.

Definition uint32le (v : Z) : list Z :=
  [v mod 256; v / 256 mod 256; v / 65536 mod 256; v / 16777216 mod 256]%Z.

Definition wavHeader (fileLength numOfChan sampleRate byteRate blockAlign dataLength : Z)
  : list Z :=
  [82; 73; 70; 70]%Z ++ uint32le fileLength ++
  [87; 65; 86; 69]%Z ++ [102; 109; 116; 32]%Z ++
  uint32le 16 ++ uint16le 1 ++ uint16le numOfChan ++
  uint32le sampleRate ++ uint32le byteRate ++
  uint16le blockAlign ++ uint16le 16 ++
  [100; 97; 116; 97]%Z ++ uint32le dataLength.

(** The header [exportToWavArrayBuffer] writes for a buffer. *)
Definition wavHeaderOf (b : AudioBuffer.t) : list Z :=
  let numOfChan := AudioBuffer.numberOfChannels b in
  let length := AudioBuffer.length b * numOfChan * 2 in
  wavHeader (Z.of_nat (36 + length)) (Z.of_nat numOfChan)
    (Qtrunc (AudioBuffer.sampleRate b))
    (Qtrunc (AudioBuffer.sampleRate b * inject_Z (Z.of_nat numOfChan) * 2))
    (Z.of_nat (numOfChan * 2)) (Z.of_nat length).

Definition clip (x : number) : number := Math_max (Num (-1)) (Math_min (Num 1) x).

Definition quantize (x : number) : Z := ToInt16 (times (clip x) 32767).

Definition sampleAt (channels : list (list number)) (channel i : nat) : number :=
  match channels !! channel with Some data => index data i | None => NaN end.

Definition pcmFrame (channels : list (list number)) (numOfChan i : nat) : list Z :=
  flat_map (fun channel => uint16le (quantize (sampleAt channels channel i)))
           (seq 0 numOfChan).

Definition pcmData (channels : list (list number)) (numOfChan len : nat) : list Z :=
  flat_map (pcmFrame channels numOfChan) (seq 0 len).

(** A well-formed buffer: as many channels as it announces, each with
    [length] samples, none of them NaN. *)
Definition validAudioBuffer (b : AudioBuffer.t) : Prop :=
  length (AudioBuffer.channelData b) = AudioBuffer.numberOfChannels b /\
  Forall (fun data => length data = AudioBuffer.length b /\ Forall (fun x => x <> NaN) data)
         (AudioBuffer.channelData b).

(** A two-channel example: two frames, samples inside and outside
    [-1, 1], one of them infinite. *)
Definition stereoExample : AudioBuffer.t :=
  AudioBuffer.mk 2 2 44100
    [[Num (1 # 2); Num (-3)]; [Num (-1 # 4); Infinity false]].

(** ** Voice table *)

Record TTSVoice := {
  id : string;
  name : string;
  gender : string;
  description : string
}.

Definition HIGH_QUALITY_VOICES : list TTSVoice := [
  {| id := "alloy"; name := "Alloy"; gender := "female";
     description := "A versatile neutral voice with balanced tone" |};
  {| id := "echo"; name := "Echo"; gender := "male";
     description := "A deep and resonant voice with a formal style" |};
  {| id := "fable"; name := "Fable"; gender := "male";
     description := "A narrative voice ideal for storytelling" |};
  {| id := "onyx"; name := "Onyx"; gender := "male";
     description := "A rich, deep voice with authoritative tone" |};
  {| id := "nova"; name := "Nova"; gender := "female";
     description := "A bright, energetic female voice" |};
  {| id := "shimmer"; name := "Shimmer"; gender := "female";
     description := "A warm and expressive voice with emotional range" |}
].

Definition builtinVoiceIds : list string := map id HIGH_QUALITY_VOICES.

Record Formant := {
  frequency : Q;
  gain : Q;
  type : string
}.

Record VoiceCharacteristics := {
  baseFrequency : Q;
  formants : list Formant;
  emphasis : Q;
  breathiness : Q;
  syllableRate : Q
}.

Definition sine (frequency gain : Q) : Formant :=
  {| frequency := frequency; gain := gain; type := "sine" |}.

(** [String.prototype.toLowerCase] on 8-bit code units: A-Z and the
    capital letters of Latin-1 (all of 0xC0-0xDE but the multiplication
    sign) move up by 32. *)
Definition toLowerCaseChar (c : ascii) : ascii :=
  let n := nat_of_ascii c in
  if (65 <=? n) && (n <=? 90) || (192 <=? n) && (n <=? 222) && negb (n =? 215)
  then ascii_of_nat (n + 32) else c.

Fixpoint toLowerCase (s : string) : string :=
  match s with
  | EmptyString => EmptyString
  | String c s' => String (toLowerCaseChar c) (toLowerCase s')
  end.

Definition defaultCharacteristics : VoiceCharacteristics :=
  {| baseFrequency := 160;
     formants := [sine 500 1.0; sine 1500 0.5; sine 2500 0.25];
     emphasis := 1.2;
     breathiness := 0.1;
     syllableRate := 4.0 |}.

Definition getVoiceCharacteristics (voiceId : string) : VoiceCharacteristics :=
  let v := toLowerCase voiceId in
  if (v =? "alloy")%string then
    {| baseFrequency := 175;
       formants := [sine 600 1.0; sine 1400 0.6; sine 2400 0.4];
       emphasis := 1.1; breathiness := 0.15; syllableRate := 4.2 |}
  else if (v =? "echo")%string then
    {| baseFrequency := 120;
       formants := [sine 500 1.0; sine 1500 0.4; sine 2200 0.2];
       emphasis := 1.4; breathiness := 0.05; syllableRate := 3.8 |}
  else if (v =? "fable")%string then
    {| baseFrequency := 140;
       formants := [sine 550 1.0; sine 1600 0.5; sine 2300 0.3];
       emphasis := 1.5; breathiness := 0.1; syllableRate := 4.0 |}
  else if (v =? "onyx")%string then
    {| baseFrequency := 110;
       formants := [sine 450 1.0; sine 1300 0.4; sine 2100 0.15];
       emphasis := 1.6; breathiness := 0.05; syllableRate := 3.5 |}
  else if (v =? "nova")%string then
    {| baseFrequency := 200;
       formants := [sine 650 1.0; sine 1700 0.6; sine 2500 0.4];
       emphasis := 1.3; breathiness := 0.2; syllableRate := 4.4 |}
  else if (v =? "shimmer")%string then
    {| baseFrequency := 220;
       formants := [sine 700 1.0; sine 1800 0.7; sine 2600 0.5];
       emphasis := 1.2; breathiness := 0.25; syllableRate := 4.3 |}
  else defaultCharacteristics.

(** ** Number arithmetic of the synthesizer *)

(** [x * k] and [x / k], [x - k], [Math.ceil x] for a JavaScript number
    [x] and a finite [k]. *)
Definition mulQ (x : number) (k : Q) : number :=
  match x with
  | NaN => NaN
  | Infinity s =>
      if Qeq_bool k 0 then NaN
      else Infinity (if Qle_bool 0 k then s else negb s)
  | Num q => Num (q * k)
  end.

Definition subQ (x : number) (k : Q) : number :=
  match x with Num q => Num (q - k) | _ => x end.

(** Division by a positive [k]. *)
Definition divPos (x : number) (k : Q) : number :=
  match x with Num q => Num (q / k) | _ => x end.

Definition Math_ceil (x : number) : number :=
  match x with Num q => Num (inject_Z (Qceiling q)) | _ => x end.

(** ToUint32, the conversion of an [unsigned long] argument. *)
Definition ToUint32 (x : number) : Z :=
  match x with
  | Num q => (Qtrunc q mod 4294967296)%Z
  | _ => 0%Z
  end.

(** [n / rate] for a finite [n]: dividing by zero gives NaN or an
    infinity. *)
Definition divideBy (n rate : Q) : number :=
  if Qeq_bool rate 0 then
    if Qeq_bool n 0 then NaN else Infinity (negb (Qle_bool 0 n))
  else Num (n / rate).

Definition calculateDuration (text : string) (rate : Q) : number :=
  let characters := inject_Z (Z.of_nat (String.length text)) in
  let words := (characters / 5)%Q in
  divideBy ((words / 150) * 60)%Q rate.

(** ** Web Audio *)

Inductive AutomationEvent :=
  | SetValueAtTime (value : Q) (startTime : Q)
  | LinearRampToValueAtTime (value : Q) (endTime : Q).

Record AudioParam := {
  value : Q;
  events : list AutomationEvent
}.

(** Both scheduling calls throw a RangeError for a time that is negative
    or not finite. *)
Definition setValueAtTime (param : AudioParam) (v : Q) (startTime : number)
  : result AudioParam :=
  match startTime with
  | Num t =>
      if Qle_bool 0 t
      then Ok {| value := value param; events := events param ++ [SetValueAtTime v t] |}
      else Throw RangeError
  | _ => Throw RangeError
  end.

Definition linearRampToValueAtTime (param : AudioParam) (v : Q) (endTime : number)
  : result AudioParam :=
  match endTime with
  | Num t =>
      if Qle_bool 0 t
      then Ok {| value := value param;
                 events := events param ++ [LinearRampToValueAtTime v t] |}
      else Throw RangeError
  | _ => Throw RangeError
  end.

(** An offline context with the one oscillator and the one gain node the
    synthesizer connects to its destination. *)
Record OfflineAudioContext := {
  ctxNumberOfChannels : nat;
  ctxLength : nat;
  ctxSampleRate : Q;
  oscillatorType : string;
  oscillatorFrequency : AudioParam;
  gainNodeGain : AudioParam
}.

(** What the browser decides. *)
Record Platform := {
  (** [new AudioContext()]: the sample rate of the context, or the
      exception of the constructor *)
  audioContext : result Q;
  (** the samples [startRendering] resolves to, channel by channel, or
      its rejection *)
  render : OfflineAudioContext -> result (list (list number));
  Math_sin : Q -> Q;
  Math_PI : Q;
  (** [Date.now()] when the cache is read and when it is written *)
  nowAtGet : Z;
  nowAtPut : Z;
  (** [new Blob]/[URL.createObjectURL] throws *)
  createObjectURLThrows : bool;
  (** the promise of [audio.play()] rejects *)
  playRejects : bool;
  (** the IndexedDB read request, or the write transaction, fails *)
  cacheReadError : bool;
  cacheWriteError : bool
}.

(** [new OfflineAudioContext({numberOfChannels, length, sampleRate})]:
    [length] is an unsigned long; a zero length or a sample rate that is
    not positive is a NotSupportedError. *)
Definition new_OfflineAudioContext (numberOfChannels : nat) (length : number)
    (sampleRate : Q) : result OfflineAudioContext :=
  let len := ToUint32 length in
  if (len =? 0)%Z || Qle_bool sampleRate 0 || (numberOfChannels =? 0)
  then Throw NotSupportedError
  else Ok {| ctxNumberOfChannels := numberOfChannels;
             ctxLength := Z.to_nat len;
             ctxSampleRate := sampleRate;
             oscillatorType := "sine";
             oscillatorFrequency := {| value := 440; events := [] |};
             gainNodeGain := {| value := 1; events := [] |} |}.

(** The rendered buffer has the channels, length and sample rate of its
    context. *)
Definition startRendering (p : Platform) (offlineCtx : OfflineAudioContext)
  : result AudioBuffer.t :=
  data ← render p offlineCtx;
  Ok (AudioBuffer.mk (ctxNumberOfChannels offlineCtx) (ctxLength offlineCtx)
        (ctxSampleRate offlineCtx) data).

(** ** Sentences *)

Definition isSentenceEnd (c : ascii) : bool :=
  let n := nat_of_ascii c in (n =? 46) || (n =? 33) || (n =? 63).

(** [\s] and [trim]: tab, line feed, vertical tab, form feed, carriage
    return, space, no-break space. *)
Definition isWhiteSpace (c : ascii) : bool :=
  let n := nat_of_ascii c in (9 <=? n) && (n <=? 13) || (n =? 32) || (n =? 160).

(** [text.split(/[.!?]+/)]: the pieces between runs of separators. *)
Fixpoint splitRuns (isSep : ascii -> bool) (cs cur : list ascii) (afterSep : bool)
  : list (list ascii) :=
  match cs with
  | [] => [rev cur]
  | c :: cs' =>
      if isSep c then
        if afterSep then splitRuns isSep cs' [] true
        else rev cur :: splitRuns isSep cs' [] true
      else splitRuns isSep cs' (c :: cur) false
  end.

Fixpoint dropWhile {A} (f : A -> bool) (l : list A) : list A :=
  match l with
  | [] => []
  | x :: l' => if f x then dropWhile f l' else l
  end.

Definition trimChars (cs : list ascii) : list ascii :=
  rev (dropWhile isWhiteSpace (rev (dropWhile isWhiteSpace cs))).

Definition sentencesOf (text : string) : list (list ascii) :=
  filter (fun s => 0 < length (trimChars s))
         (splitRuns isSentenceEnd (list_ascii_of_string text) [] false).

(** ** Waveform synthesizer *)

Definition new_ArrayBufferZ (byteLength : Z) : result ArrayBuffer :=
  if (byteLength <? 0)%Z then Throw RangeError
  else Ok (new_ArrayBuffer (Z.to_nat byteLength)).

(** Sample [i] of the beep, before the conversion to 16 bits. *)
Definition beepSample (p : Platform) (sampleRate : Q) (numSamples : Z) (i : nat) : Q :=
  let i := inject_Z (Z.of_nat i) in
  let sample := Math_sin p (i * 440 * Math_PI p * 2 / sampleRate)%Q in
  let amplitude :=
    (if negb (Qle_bool (0.05 * sampleRate) i) then i / (0.05 * sampleRate)
     else if negb (Qle_bool i (inject_Z numSamples - 0.05 * sampleRate))
     then (inject_Z numSamples - i) / (0.05 * sampleRate)
     else 0.8)%Q in
  (sample * amplitude * 32767)%Q.

Definition createFallbackBeep (p : Platform) (sampleRate : Q) : result ArrayBuffer :=
  let duration := 0.5%Q in
  let numSamples := Qfloor (sampleRate * duration) in
  buffer ← new_ArrayBufferZ (44 + numSamples * 2)%Z;
  let view := buffer in
  view ← writeString view 0 "RIFF";
  view ← setUint32 view 4 (36 + numSamples * 2)%Z;
  view ← writeString view 8 "WAVE";
  view ← writeString view 12 "fmt ";
  view ← setUint32 view 16 16;
  view ← setUint16 view 20 1;
  view ← setUint16 view 22 1;
  view ← setUint32 view 24 (Qtrunc sampleRate);
  view ← setUint32 view 28 (Qtrunc (sampleRate * 2));
  view ← setUint16 view 32 2;
  view ← setUint16 view 34 16;
  view ← writeString view 36 "data";
  view ← setUint32 view 40 (numSamples * 2)%Z;
  for_loop (Z.to_nat numSamples) 0
    (fun i view => setInt16 view (44 + i * 2) (Num (beepSample p sampleRate numSamples i)))
    view.

(** Lines 105-163: the contexts, the oscillator, the envelope and the
    pitch of each sentence.  Returns the sample rate and the offline
    context ready to render. *)
Definition setUpRendering (p : Platform) (text voice : string) (rate : Q)
  : result (Q * OfflineAudioContext) :=
  sampleRate ← audioContext p;
  let duration := calculateDuration text rate in
  let frameCount := Math_ceil (mulQ duration sampleRate) in
  let safeFrameCount := Math_min frameCount (Num (10 * sampleRate)%Q) in
  offlineCtx ← new_OfflineAudioContext 1 safeFrameCount sampleRate;
  let voiceCharacteristics := getVoiceCharacteristics voice in
  let frequency :=
    {| value := baseFrequency voiceCharacteristics;
       events := events (oscillatorFrequency offlineCtx) |} in
  let gain := {| value := 0.5; events := events (gainNodeGain offlineCtx) |} in
  gain ← setValueAtTime gain 0 (Num 0);
  gain ← linearRampToValueAtTime gain 0.5 (Num 0.02);
  gain ← setValueAtTime gain 0.5 (subQ duration 0.05);
  gain ← linearRampToValueAtTime gain 0 duration;
  let sentences := sentencesOf text in
  let sentenceDuration :=
    divPos duration (inject_Z (Z.of_nat (Nat.max (length sentences) 1))) in
  '(frequency, timeOffset) ← for_loop (length sentences) 0
    (fun i '(frequency, timeOffset) =>
       let pitchVariation := (1 + (if (i mod 2 =? 0)%nat then 0.05 else - 0.03))%Q in
       frequency ← setValueAtTime frequency
                     (baseFrequency voiceCharacteristics * pitchVariation) timeOffset;
       Ok (frequency,
           match timeOffset, sentenceDuration with
           | Num t, Num d => Num (t + d)%Q
           | _, _ => NaN
           end))
    (frequency, Num 0);
  Ok (sampleRate,
      {| ctxNumberOfChannels := ctxNumberOfChannels offlineCtx;
         ctxLength := ctxLength offlineCtx;
         ctxSampleRate := ctxSampleRate offlineCtx;
         oscillatorType := "sine";
         oscillatorFrequency := frequency;
         gainNodeGain := gain |}).

Definition synthesizeTextToAudio (p : Platform) (text voice : string) (rate : Q)
  : result ArrayBuffer :=
  try_catch
    ('(sampleRate, offlineCtx) ← setUpRendering p text voice rate;
     try_catch
       (renderedBuffer ← startRendering p offlineCtx;
        try_catch
          (audioData ← exportToWavArrayBuffer renderedBuffer; Ok audioData)
          (fun exportErr => createFallbackBeep p sampleRate))
       (fun renderErr => createFallbackBeep p sampleRate))
    (fun err => Ok (new_ArrayBuffer 44)).

(** The beep as a file: the header of a mono file and [numSamples]
    samples. *)
Definition beepFile (p : Platform) (sampleRate : Q) : list Z :=
  let numSamples := Qfloor (sampleRate * 0.5) in
  wavHeader (36 + numSamples * 2) 1 (Qtrunc sampleRate) (Qtrunc (sampleRate * 2)) 2
            (numSamples * 2) ++
  flat_map (fun i => uint16le (ToInt16 (Num (beepSample p sampleRate numSamples i))))
           (seq 0 (Z.to_nat numSamples)).

(** Example platforms: one that renders silence at 8 kHz, one whose
    rendering is rejected, one that renders a buffer without channel
    data, one without an audio context. *)
Definition examplePlatform (audioContext : result Q)
    (render : OfflineAudioContext -> result (list (list number))) : Platform :=
  {| audioContext := audioContext;
     render := render;
     Math_sin := fun _ => 0%Q;
     Math_PI := 3.14159;
     nowAtGet := 1700000000000;
     nowAtPut := 1700000000001;
     createObjectURLThrows := false;
     playRejects := false;
     cacheReadError := false;
     cacheWriteError := false |}.

(** The same platform at another time. *)
Definition atTime (now : Z) (p : Platform) : Platform :=
  {| audioContext := audioContext p;
     render := render p;
     Math_sin := Math_sin p;
     Math_PI := Math_PI p;
     nowAtGet := now;
     nowAtPut := now;
     createObjectURLThrows := createObjectURLThrows p;
     playRejects := playRejects p;
     cacheReadError := cacheReadError p;
     cacheWriteError := cacheWriteError p |}.

Definition silentPlatform : Platform :=
  examplePlatform (Ok 8000%Q) (fun ctx => Ok [replicate (ctxLength ctx) (Num 0%Q)]).

Definition failingRenderer : Platform :=
  examplePlatform (Ok 8000%Q) (fun _ => Throw DOMException).

Definition detachedRenderer : Platform :=
  examplePlatform (Ok 8000%Q) (fun _ => Ok []).

Definition noAudioContext : Platform :=
  examplePlatform (Throw NotSupportedError) (fun _ => Throw DOMException).

(** ** Regular expressions of the markdown clean-up *)

(** The fragment of regular expressions [speak] uses, with the
    backtracking semantics of the language: alternatives and iterations
    are tried in order, a greedy star takes an iteration before trying to
    stop, a lazy one stops before trying an iteration. *)
Inductive regex :=
  | Eps
  | Chr (class : ascii -> bool)
  | Seq (r1 r2 : regex)
  | Alt (r1 r2 : regex)
  | Star (greedy : bool) (r : regex)
  | Group (r : regex).

(** [rmatch r s cap k] matches [r] at the start of [s] and hands the rest
    of the input and the text of the capture group to the continuation. *)
Fixpoint rmatch {R} (r : regex) (s : list ascii) (cap : list ascii)
    (k : list ascii -> list ascii -> option R) : option R :=
  match r with
  | Eps => k s cap
  | Chr class =>
      match s with
      | c :: s' => if class c then k s' cap else None
      | [] => None
      end
  | Seq r1 r2 => rmatch r1 s cap (fun s' cap' => rmatch r2 s' cap' k)
  | Alt r1 r2 =>
      match rmatch r1 s cap k with
      | Some x => Some x
      | None => rmatch r2 s cap k
      end
  | Star greedy r1 =>
      (fix iterate (fuel : nat) (s : list ascii) (cap : list ascii) : option R :=
         match fuel with
         | O => k s cap
         | S fuel' =>
             let again :=
               rmatch r1 s cap
                 (fun s' cap' =>
                    if length s' <? length s then iterate fuel' s' cap' else None) in
             if greedy then
               match again with Some x => Some x | None => k s cap end
             else
               match k s cap with Some x => Some x | None => again end
         end) (length s) s cap
  | Group r1 =>
      rmatch r1 s cap (fun s' _ => k s' (take (length s - length s') s))
  end.

(** [s.replace(/r/g, replacement)], where the replacement may use the
    text of the capture group. *)
Fixpoint replaceFrom (fuel : nat) (r : regex) (replacement : list ascii -> list ascii)
    (s : list ascii) : list ascii :=
  match fuel, s with
  | S fuel', c :: s' =>
      match rmatch r s [] (fun rest cap => Some (rest, cap)) with
      | Some (rest, cap) =>
          if length rest <? length s
          then replacement cap ++ replaceFrom fuel' r replacement rest
          else c :: replaceFrom fuel' r replacement s'
      | None => c :: replaceFrom fuel' r replacement s'
      end
  | _, _ => s
  end.

Definition replaceAll (r : regex) (replacement : list ascii -> list ascii)
    (s : list ascii) : list ascii :=
  replaceFrom (length s) r replacement s.

Definition chr (c : ascii) : regex := Chr (fun x => Ascii.eqb x c).
Definition notChr (c : ascii) : regex := Chr (fun x => negb (Ascii.eqb x c)).
Definition anyChar : regex := Chr (fun _ => true).
(** [.]: anything but a line terminator *)
Definition dot : regex :=
  Chr (fun x => negb (Ascii.eqb x "010" || Ascii.eqb x "013")).
Definition whiteSpace : regex := Chr isWhiteSpace.
Definition digit : regex :=
  Chr (fun x => (48 <=? nat_of_ascii x) && (nat_of_ascii x <=? 57)).
Definition plus (r : regex) : regex := Seq r (Star true r).
Definition opt (r : regex) : regex := Alt r Eps.
Fixpoint lit (cs : list ascii) : regex :=
  match cs with
  | [] => Eps
  | c :: cs' => Seq (chr c) (lit cs')
  end.
Definition str (s : string) : regex := lit (list_ascii_of_string s).

Definition codeBlocks : regex := Seq (str "```") (Seq (Star false anyChar) (str "```")).
Definition inlineCode : regex := Seq (chr "`") (Seq (Star true (notChr "`")) (chr "`")).
Definition images : regex :=
  Seq (str "![") (Seq (Star false dot) (Seq (str "](") (Seq (Star false dot) (chr ")")))).
Definition links : regex :=
  Seq (chr "[") (Seq (Group (plus (notChr "]")))
    (Seq (str "](") (Seq (plus (notChr ")")) (chr ")")))).
(** [#{1,6}\s+] *)
Definition headings : regex :=
  Seq (Seq (chr "#") (opt (Seq (chr "#") (opt (Seq (chr "#") (opt (Seq (chr "#")
         (opt (Seq (chr "#") (opt (chr "#")))))))))))
      (plus whiteSpace).
Definition emphasisMarks : regex :=
  Alt (str "**") (Alt (str "*") (Alt (str "__") (Alt (str "_") (Alt (str "~~") (str "`"))))).
Definition listItems : regex :=
  Seq (chr "010") (Seq (Star true whiteSpace)
    (Seq (Chr (fun x => Ascii.eqb x "-" || Ascii.eqb x "*" || Ascii.eqb x "+"))
         (plus whiteSpace))).
Definition numberedItems : regex :=
  Seq (chr "010") (Seq (Star true whiteSpace)
    (Seq (plus digit) (Seq (chr ".") (plus whiteSpace)))).
(** [\s{2,}] *)
Definition whiteSpaceRun : regex := Seq whiteSpace (plus whiteSpace).

Definition cleanTextChars (text : list ascii) : list ascii :=
  let t := replaceAll codeBlocks (fun _ => []) text in
  let t := replaceAll inlineCode (fun _ => []) t in
  let t := replaceAll images (fun _ => []) t in
  let t := replaceAll links (fun cap => cap) t in
  let t := replaceAll headings (fun _ => []) t in
  let t := replaceAll emphasisMarks (fun _ => []) t in
  let t := replaceAll listItems (fun _ => list_ascii_of_string ". ") t in
  let t := replaceAll numberedItems (fun _ => list_ascii_of_string ". ") t in
  let t := replaceAll whiteSpaceRun (fun _ => list_ascii_of_string " ") t in
  trimChars t.

Definition cleanText (text : string) : string :=
  string_of_list_ascii (cleanTextChars (list_ascii_of_string text)).

(** ** Persistent audio cache *)

Module CacheItem.
Record t := mk {
  key : string;
  timestamp : Z;
  voice : string;
  textLength : nat;
  audioData : ArrayBuffer
}.
End CacheItem.

Module UsageStat.
Record t := mk {
  date : Z;
  voice : string;
  textLength : nat;
  generated : bool
}.
End UsageStat.

(** The two object stores of the database 'ttsAudioCache'. *)
Record IDBDatabase := {
  audioCache : gmap string CacheItem.t;
  ttsStats : list UsageStat.t
}.

(** 14 days, in milliseconds *)
Definition retention : Z := 14 * 24 * 60 * 60 * 1000.

Definition wrapInt32 (z : Z) : Z :=
  let m := (z mod 4294967296)%Z in
  if (2147483648 <=? m)%Z then (m - 4294967296)%Z else m.

Definition generateCacheKey (text voice : string) : string :=
  let hash :=
    fold_left (fun hash c => wrapInt32 (wrapInt32 (hash * 32) - hash + charCodeAt c))
              (list_ascii_of_string text) 0%Z in
  voice +:+ "_" +:+ pretty hash +:+ "_" +:+ String.substring 0 20 text.

(** ** The hook *)

Module TTSOptions.
Record t := mk {
  enabled : bool;
  voice : string;
  rate : Q
}.
End TTSOptions.

Record HTMLAudioElement := {
  src : option ArrayBuffer;
  paused : bool;
  currentTime : Q;
  playbackRate : Q
}.

Record SpeechSynthesisUtterance := {
  utteranceText : string;
  utteranceRate : Q
}.

(** The native engine: whether it is speaking, and the utterances it has
    been given and not finished. *)
Record SpeechSynthesis := {
  speaking : bool;
  utterances : list SpeechSynthesisUtterance
}.

(** What the hook asks of the browser and of its own stages, in order. *)
Inductive Call :=
  | AudioPause
  | AudioSeek (time : Q)
  | AudioPlay (audioData : ArrayBuffer)
  | SynthesisCancel
  | SynthesisSpeak (text : string)
  | CacheGet (cacheKey : string)
  | CachePut (cacheKey : string) (audioData : ArrayBuffer)
  | Synthesize (text voice : string) (rate : Q).

(** The state of the hook: the React state, the refs, and the calls made
    so far. *)
Record TTS := {
  isSpeaking : bool;
  available : bool;
  error : option string;
  isLoading : bool;
  audioRef : option HTMLAudioElement;
  synthesisRef : option SpeechSynthesis;
  cacheDBRef : option IDBDatabase;
  calls : list Call
}.

Definition M (A : Type) : Type := TTS -> result A * TTS.

#[global] Instance M_ret : MRet M := fun A a w => (Ok a, w).
#[global] Instance M_bind : MBind M := fun A B f m w =>
  match m w with
  | (Ok a, w') => f a w'
  | (Throw e, w') => (Throw e, w')
  end.

Definition throw {A} (e : exn) : M A := fun w => (Throw e, w).
Definition liftResult {A} (r : result A) : M A := fun w => (r, w).
Definition gets {A} (f : TTS -> A) : M A := fun w => (Ok (f w), w).
Definition modify (f : TTS -> TTS) : M unit := fun w => (Ok tt, f w).

Definition tryCatch {A} (body : M A) (handler : exn -> M A) : M A := fun w =>
  match body w with
  | (Ok a, w') => (Ok a, w')
  | (Throw e, w') => handler e w'
  end.

Definition tryFinally {A} (body : M A) (finalizer : M unit) : M A := fun w =>
  match body w with
  | (r, w') =>
      match finalizer w' with
      | (Ok _, w'') => (r, w'')
      | (Throw e, w'') => (Throw e, w'')
      end
  end.

Definition setIsSpeaking (b : bool) : M unit :=
  modify (fun w =>
    {| isSpeaking := b; available := available w; error := error w;
       isLoading := isLoading w; audioRef := audioRef w;
       synthesisRef := synthesisRef w; cacheDBRef := cacheDBRef w; calls := calls w |}).

Definition setError (e : option string) : M unit :=
  modify (fun w =>
    {| isSpeaking := isSpeaking w; available := available w; error := e;
       isLoading := isLoading w; audioRef := audioRef w;
       synthesisRef := synthesisRef w; cacheDBRef := cacheDBRef w; calls := calls w |}).

Definition setIsLoading (b : bool) : M unit :=
  modify (fun w =>
    {| isSpeaking := isSpeaking w; available := available w; error := error w;
       isLoading := b; audioRef := audioRef w;
       synthesisRef := synthesisRef w; cacheDBRef := cacheDBRef w; calls := calls w |}).

Definition setAudio (audio : HTMLAudioElement) : M unit :=
  modify (fun w =>
    {| isSpeaking := isSpeaking w; available := available w; error := error w;
       isLoading := isLoading w; audioRef := Some audio;
       synthesisRef := synthesisRef w; cacheDBRef := cacheDBRef w; calls := calls w |}).

Definition setSynthesis (synthesis : SpeechSynthesis) : M unit :=
  modify (fun w =>
    {| isSpeaking := isSpeaking w; available := available w; error := error w;
       isLoading := isLoading w; audioRef := audioRef w;
       synthesisRef := Some synthesis; cacheDBRef := cacheDBRef w; calls := calls w |}).

Definition setCacheDB (db : IDBDatabase) : M unit :=
  modify (fun w =>
    {| isSpeaking := isSpeaking w; available := available w; error := error w;
       isLoading := isLoading w; audioRef := audioRef w;
       synthesisRef := synthesisRef w; cacheDBRef := Some db; calls := calls w |}).

Definition call (c : Call) : M unit :=
  modify (fun w =>
    {| isSpeaking := isSpeaking w; available := available w; error := error w;
       isLoading := isLoading w; audioRef := audioRef w;
       synthesisRef := synthesisRef w; cacheDBRef := cacheDBRef w;
       calls := calls w ++ [c] |}).

Definition getFromCache (p : Platform) (cacheKey : string) : M (option ArrayBuffer) :=
  db ← gets cacheDBRef;
  match db with
  | None => mret None
  | Some db =>
      call (CacheGet cacheKey);;
      if cacheReadError p then mret None
      else
        match audioCache db !! cacheKey with
        | Some result =>
            if (nowAtGet p - CacheItem.timestamp result <? 14 * 24 * 60 * 60 * 1000)%Z
            then mret (Some (CacheItem.audioData result))
            else mret None
        | None => mret None
        end
  end.

Definition saveToCache (p : Platform) (cacheKey : string) (audioData : ArrayBuffer)
    (text voice : string) : M unit :=
  db ← gets cacheDBRef;
  match db with
  | None => mret tt
  | Some db =>
      if cacheWriteError p then mret tt
      else
        let cacheItem :=
          CacheItem.mk cacheKey (nowAtPut p) voice (String.length text) audioData in
        call (CachePut cacheKey audioData);;
        setCacheDB
          {| audioCache := <[cacheKey := cacheItem]> (audioCache db);
             ttsStats := ttsStats db
                         ++ [UsageStat.mk (nowAtPut p) voice (String.length text) true] |}
  end.

Definition stop : M unit :=
  audio ← gets audioRef;
  match audio with
  | Some audio =>
      call AudioPause;;
      call (AudioSeek 0);;
      setAudio {| src := src audio; paused := true; currentTime := 0;
                  playbackRate := playbackRate audio |}
  | None => mret tt
  end;;
  synthesis ← gets synthesisRef;
  match synthesis with
  | Some synthesis =>
      if speaking synthesis
      then call SynthesisCancel;; setSynthesis {| speaking := false; utterances := [] |}
      else mret tt
  | None => mret tt
  end;;
  setIsSpeaking false.

Definition apology : string := "Audio playback failed. Using fallback voice.".

(** The choice of a native voice is left out: an utterance is its text
    and its rate. *)
Definition useBrowserTTS (options : TTSOptions.t) (text : string) : M unit :=
  synthesis ← gets synthesisRef;
  match synthesis with
  | None => setError (Some "Speech synthesis not available")
  | Some synthesis =>
      let utterance := {| utteranceText := text; utteranceRate := TTSOptions.rate options |} in
      call (SynthesisSpeak text);;
      setSynthesis {| speaking := true; utterances := utterances synthesis ++ [utterance] |};;
      setIsSpeaking true
  end.

Definition playAudioBuffer (options : TTSOptions.t) (p : Platform) (audioData : ArrayBuffer)
  : M unit :=
  tryCatch
    ((if createObjectURLThrows p then throw TypeError else mret tt);;
     audio ← gets audioRef;
     match audio with
     | None => mret tt
     | Some audio =>
         call (AudioPlay audioData);;
         if playRejects p then
           setAudio {| src := Some audioData; paused := true; currentTime := 0;
                       playbackRate := TTSOptions.rate options |};;
           setError (Some "Failed to play audio. Try again or check browser settings.");;
           setIsSpeaking false;;
           synthesis ← gets synthesisRef;
           match synthesis with
           | None => mret tt
           | Some synthesis =>
               let utterance := {| utteranceText := apology; utteranceRate := 1 |} in
               call (SynthesisSpeak apology);;
               setSynthesis {| speaking := true;
                               utterances := utterances synthesis ++ [utterance] |}
           end
         else
           setAudio {| src := Some audioData; paused := false; currentTime := 0;
                       playbackRate := TTSOptions.rate options |};;
           setIsSpeaking true
     end)
    (fun err => setError (Some "Error playing audio");; useBrowserTTS options apology).

Definition speak (options : TTSOptions.t) (p : Platform) (text : string) : M unit :=
  available ← gets available;
  if negb (TTSOptions.enabled options) || negb available then mret tt
  else
    stop;;
    let cleanText := cleanText text in
    if (cleanText =? "")%string then mret tt
    else
      setIsLoading true;;
      setError None;;
      tryFinally
        (tryCatch
           (let cacheKey := generateCacheKey cleanText (TTSOptions.voice options) in
            cachedAudio ← getFromCache p cacheKey;
            match cachedAudio with
            | Some cachedAudio => playAudioBuffer options p cachedAudio
            | None =>
                tryCatch
                  (call (Synthesize cleanText (TTSOptions.voice options)
                           (TTSOptions.rate options));;
                   audioData ← liftResult
                     (synthesizeTextToAudio p cleanText (TTSOptions.voice options)
                        (TTSOptions.rate options));
                   saveToCache p cacheKey audioData cleanText (TTSOptions.voice options);;
                   playAudioBuffer options p audioData)
                  (fun err => useBrowserTTS options cleanText)
            end)
           (fun err =>
              setError (Some ("TTS error: " +:+ message err));;
              useBrowserTTS options cleanText))
        (setIsLoading false).

(** How many utterances can be heard: the audio element when it is not
    paused, the native engine when it is speaking. *)
Definition audible (w : TTS) : nat :=
  (match audioRef w with Some audio => if paused audio then 0 else 1 | None => 0 end) +
  (match synthesisRef w with Some s => if speaking s then 1 else 0 | None => 0 end).

(** Example states: the hook after its initialisation, and the same
    hook while a cached clip is playing. *)
Definition idleAudio : HTMLAudioElement :=
  {| src := None; paused := true; currentTime := 0; playbackRate := 1 |}.

Definition idle : TTS :=
  {| isSpeaking := false; available := true; error := None; isLoading := false;
     audioRef := Some idleAudio;
     synthesisRef := Some {| speaking := false; utterances := [] |};
     cacheDBRef := Some {| audioCache := ∅; ttsStats := [] |};
     calls := [] |}.

Definition playing : TTS :=
  {| isSpeaking := true; available := true; error := None; isLoading := false;
     audioRef := Some {| src := Some [82; 73; 70; 70]%Z; paused := false;
                         currentTime := 1.5; playbackRate := 1 |};
     synthesisRef := Some {| speaking := false; utterances := [] |};
     cacheDBRef := Some {| audioCache := ∅; ttsStats := [] |};
     calls := [] |}.

Definition defaultOptions : TTSOptions.t := TTSOptions.mk true "alloy" 1.
Definition disabledOptions : TTSOptions.t := TTSOptions.mk false "alloy" 1.

(** A cache with one clip for "Hello world." in the voice alloy, stored
    at time 1700000000000. *)
Definition helloKey : string := generateCacheKey "Hello world." "alloy".

Definition helloItem : CacheItem.t :=
  CacheItem.mk helloKey 1700000000000 "alloy" 12 [82; 73; 70; 70; 1; 2; 3]%Z.

Definition cached : TTS :=
  {| isSpeaking := false; available := true; error := None; isLoading := false;
     audioRef := Some idleAudio;
     synthesisRef := Some {| speaking := false; utterances := [] |};
     cacheDBRef := Some {| audioCache := {[ helloKey := helloItem ]}; ttsStats := [] |};
     calls := [] |}.

(** A state with more calls on record. *)
Definition logged (l : list Call) (w : TTS) : TTS :=
  {| isSpeaking := isSpeaking w; available := available w; error := error w;
     isLoading := isLoading w; audioRef := audioRef w;
     synthesisRef := synthesisRef w; cacheDBRef := cacheDBRef w;
     calls := calls w ++ l |}.

(** An action that only adds to the record of calls. *)
Definition extends {A} (m : M A) : Prop :=
  forall w, exists l, calls (m w).2 = calls w ++ l.

(** The calls of the synthesis stage. *)
Definition isSynthesize (c : Call) : bool :=
  match c with Synthesize _ _ _ => true | _ => false end.

Definition isCacheCall (c : Call) : bool :=
  match c with CacheGet _ | CachePut _ _ => true | _ => false end.

(** The clip handed to the audio element. *)
Definition payload (w : TTS) : option ArrayBuffer := audio ← audioRef w; src audio.

(** Fourteen days and a millisecond after the clip was stored, and one
    second after. *)
Definition twoWeeksLater : Platform :=
  atTime (1700000000000 + retention + 1) silentPlatform.

Definition aSecondLater : Platform := atTime (1700000000000 + 1000) silentPlatform.

(** A step that leaves playback alone, and a step that starts at most
    one utterance; both only add to the record of calls. *)
Definition quiet (w w' : TTS) : Prop :=
  audioRef w' = audioRef w /\ synthesisRef w' = synthesisRef w /\
  available w' = available w /\
  exists l, calls w' = calls w ++ l.

Definition started (w w' : TTS) : Prop :=
  (audible w = 0 -> audible w' <= 1) /\
  exists l, calls w' = calls w ++ l.

(** A text of 134 characters: 10.72 seconds at rate 1. *)
Definition longText : string :=
  "The quick brown fox jumps over the lazy dog. The quick brown fox jumps over the lazy dog. The quick brown fox jumps over the lazy dog.".

(** ** Readers of the file *)

(** [view.getUint16(byteOffset, true)] and [view.getUint32(byteOffset,
    true)], with which a reader of the file takes the header apart. *)
Definition getUint16 (view : ArrayBuffer) (byteOffset : nat) : option Z :=
  b0 ← view !! byteOffset;
  b1 ← view !! (byteOffset + 1);
  Some (b0 + 256 * b1)%Z.

Definition getUint32 (view : ArrayBuffer) (byteOffset : nat) : option Z :=
  b0 ← view !! byteOffset;
  b1 ← view !! (byteOffset + 1);
  b2 ← view !! (byteOffset + 2);
  b3 ← view !! (byteOffset + 3);
  Some (b0 + 256 * b1 + 65536 * b2 + 16777216 * b3)%Z.

(** The char codes of a string. *)
Definition charCodes (s : string) : list Z := map charCodeAt (list_ascii_of_string s).

(** ** The hash of the cache key *)

(** The loop of [generateCacheKey] on its own, and the polynomial in 31
    it reduces. *)
Definition textHash (text : string) : Z :=
  fold_left (fun hash c => wrapInt32 (wrapInt32 (hash * 32) - hash + charCodeAt c))
            (list_ascii_of_string text) 0%Z.

Definition polynomial31 (cs : list ascii) (start : Z) : Z :=
  fold_left (fun h c => (31 * h + charCodeAt c)%Z) cs start.

(** ** The choice of a native voice *)

(** Lines 714-741 of [useBrowserTTS] and the helper [getVoiceGender]:
    the voice an utterance is given, if any, among those of the native
    engine. *)
Module SpeechSynthesisVoice.
Record t := mk {
  name : string;
  lang : string
}.
End SpeechSynthesisVoice.

(** [voice?.gender || 'female'] *)
Definition getVoiceGender (voiceId : string) : string :=
  match find (fun v => (id v =? voiceId)%string) HIGH_QUALITY_VOICES with
  | Some voice => if (gender voice =? "")%string then "female" else gender voice
  | None => "female"
  end.

(** [String.prototype.includes] and [startsWith] *)
Fixpoint includes (s searchString : string) : bool :=
  String.prefix searchString s ||
  match s with
  | EmptyString => false
  | String _ s' => includes s' searchString
  end.

Definition startsWith (s searchString : string) : bool := String.prefix searchString s.

(** Under the flag [i] a character matches a lower-case ASCII letter of
    the pattern when it is that letter in either case. *)
Definition chrI (c : ascii) : regex := Chr (fun x => Ascii.eqb (toLowerCaseChar x) c).

Fixpoint litI (cs : list ascii) : regex :=
  match cs with
  | [] => Eps
  | c :: cs' => Seq (chrI c) (litI cs')
  end.

Definition strI (s : string) : regex := litI (list_ascii_of_string s).

(** A match of [r] at the start of [s], and anywhere in [s]. *)
Definition accept (r : regex) (s : list ascii) : bool :=
  match rmatch r s [] (fun _ _ => Some tt) with Some _ => true | None => false end.

Fixpoint search (r : regex) (s : list ascii) : bool :=
  accept r s ||
  match s with
  | [] => false
  | _ :: s' => search r s'
  end.

(** [s.match(r)] is not null *)
Definition matches (s : string) (r : regex) : bool := search r (list_ascii_of_string s).

(** [/female|woman|girl/i] and [/male|man|boy/i] *)
Definition femaleName : regex := Alt (strI "female") (Alt (strI "woman") (strI "girl")).
Definition maleName : regex := Alt (strI "male") (Alt (strI "man") (strI "boy")).

Definition nameMatch (voice : string) (v : SpeechSynthesisVoice.t) : bool :=
  includes (toLowerCase (SpeechSynthesisVoice.name v)) (toLowerCase voice).

Definition genderMatch (voiceGender : string) (v : SpeechSynthesisVoice.t) : bool :=
  startsWith (SpeechSynthesisVoice.lang v) "en" &&
  ((voiceGender =? "female")%string && matches (SpeechSynthesisVoice.name v) femaleName ||
   (voiceGender =? "male")%string && matches (SpeechSynthesisVoice.name v) maleName).

Definition selectVoice (voice : string) (voices : list SpeechSynthesisVoice.t)
  : option SpeechSynthesisVoice.t :=
  if negb (voice =? "")%string && (0 <? length voices) then
    let voiceGender := getVoiceGender voice in
    match find (nameMatch voice) voices with
    | Some selectedVoice => Some selectedVoice
    | None =>
        match find (genderMatch voiceGender) voices with
        | Some selectedVoice => Some selectedVoice
        | None => find (fun v => startsWith (SpeechSynthesisVoice.lang v) "en") voices
        end
    end
  else None.

(** Three voices of a native engine. *)
Definition nativeVoices : list SpeechSynthesisVoice.t := [
  SpeechSynthesisVoice.mk "Karen" "en-AU";
  SpeechSynthesisVoice.mk "Google UK English Female" "en-GB";
  SpeechSynthesisVoice.mk "Google UK English Male" "en-GB"
].

(** The part of [femaleName] that [maleName] matches as well. *)
Definition femaleWord : regex := Alt (strI "female") (strI "woman").

(** The characters the clean-up takes out of every text. *)
Definition isEmphasisMark (c : ascii) : bool :=
  Ascii.eqb c "*" || Ascii.eqb c "_" || Ascii.eqb c "`".

(** No two white-space characters in a row. *)
Fixpoint noWhiteSpaceRun (cs : list ascii) : bool :=
  match cs with
  | c :: cs' =>
      negb (isWhiteSpace c &&
            match cs' with c' :: _ => isWhiteSpace c' | [] => false end)
      && noWhiteSpaceRun cs'
  | [] => true
  end.

(** ** Initialisation of the hook *)

(** What the page offers when the hook mounts: the native engine, if
    there is one, and the outcome of opening the database
    'ttsAudioCache'. *)
Record Window := {
  speechSynthesis : option SpeechSynthesis;
  openDatabase : result IDBDatabase
}.

(** Resolves with the database, or rejects when the open request fails. *)
Definition initializeAudioCache (window : Window) : result IDBDatabase :=
  openDatabase window.

(** The state of [useState] and [useRef] at the first render. *)
Definition initialState : TTS :=
  {| isSpeaking := false; available := false; error := None; isLoading := false;
     audioRef := None; synthesisRef := None; cacheDBRef := None; calls := [] |}.

Definition setAvailable (b : bool) : M unit :=
  modify (fun w =>
    {| isSpeaking := isSpeaking w; available := b; error := error w;
       isLoading := isLoading w; audioRef := audioRef w;
       synthesisRef := synthesisRef w; cacheDBRef := cacheDBRef w; calls := calls w |}).

(** The effect that runs once when the hook mounts (lines 481-516). *)
Definition initialize (p : Platform) (window : Window) : M unit :=
  match speechSynthesis window with
  | Some synthesis => setSynthesis synthesis
  | None => mret tt
  end;;
  setAudio {| src := None; paused := true; currentTime := 0; playbackRate := 1 |};;
  tryCatch (liftResult (audioContext p);; setAvailable true)
    (fun err => setError (Some "Advanced audio features not supported in this browser"));;
  tryCatch (db ← liftResult (initializeAudioCache window); setCacheDB db)
    (fun err => mret tt).

(** The native engine is asked to speak nothing but [text]. *)
Definition speaksOnly (text : string) (l : list Call) : Prop :=
  forall t, In (SynthesisSpeak t) l -> t = text.

(** The characters a markdown construct of the clean-up starts with or
    needs: backtick, opening bracket, hash, asterisk, underscore, tilde
    and line feed. *)
Definition isMarkdownChar (c : ascii) : bool :=
  existsb (Ascii.eqb c) ["`"; "["; "#"; "*"; "_"; "~"; "010"]%char.

(** ** What can be heard *)







(** ** The arithmetic of the synthesizer in doubles

    The synthesizer computes its duration, its frame count and the times
    of its events in IEEE 754 doubles.  [Double] gives these functions
    again with every operation rounded: the result of an operation is the
    double nearest to the exact result, ties to the even significand, and
    an infinity from 2^1024 on.  The exponent has no lower limit here:
    results below 2^-1022 keep 53 bits where the hardware would lose
    some, and the two zeros are the one number [Num 0].  Of the
    quantities of the synthesizer only a duration can be that small, and
    it is then below the 0.05 s of the fade-out in the code as it is
    here. *)
Module Double.

(** The exponent of the leading bit of a positive rational. *)
Definition floorLog2 (a : Q) : Z :=
  let k := (Z.log2 (Qnum a) - Z.log2 (Z.pos (Qden a)))%Z in
  if Qle_bool (2 ^ k) a then k else (k - 1)%Z.

(** The nearest integer, a tie going to the even one. *)
Definition roundHalfEven (m : Q) : Z :=
  let f := Qfloor m in
  let r := (m - inject_Z f)%Q in
  if Qle_bool r (1 # 2) then
    if Qle_bool (1 # 2) r then (if Z.even f then f else f + 1)%Z else f
  else (f + 1)%Z.

(** [x] rounded to a significand of [prec] bits. *)
Definition roundTo (prec : Z) (x : Q) : Q :=
  if Qeq_bool x 0 then 0%Q
  else
    let a := Qabs x in
    let e := (floorLog2 a - (prec - 1))%Z in
    let n := roundHalfEven (a / 2 ^ e) in
    Qred ((if Qle_bool 0 x then 1 else -1) * (inject_Z n * 2 ^ e)).

(** The double and the single-precision number nearest to [x]. *)
Definition round64 (x : Q) : number :=
  let y := roundTo 53 x in
  if Qle_bool (2 ^ 1024) (Qabs y) then Infinity (negb (Qle_bool 0 y)) else Num y.

Definition round32 (x : Q) : number :=
  let y := roundTo 24 x in
  if Qle_bool (2 ^ 128) (Qabs y) then Infinity (negb (Qle_bool 0 y)) else Num y.

(** A numeric literal of the source: the double nearest to it. *)
Definition literal (q : Q) : Q := roundTo 53 q.

(** [- x], [x + y], [x - y], [x * y] and [x / y] on doubles. *)
Definition neg (x : number) : number :=
  match x with
  | NaN => NaN
  | Infinity s => Infinity (negb s)
  | Num q => Num (- q)
  end.

Definition add (x y : number) : number :=
  match x, y with
  | NaN, _ | _, NaN => NaN
  | Infinity s, Infinity s' => if Bool.eqb s s' then Infinity s else NaN
  | Infinity s, Num _ | Num _, Infinity s => Infinity s
  | Num a, Num b => round64 (a + b)
  end.

Definition sub (x y : number) : number := add x (neg y).

Definition isNegative (q : Q) : bool := negb (Qle_bool 0 q).

Definition mul (x y : number) : number :=
  match x, y with
  | NaN, _ | _, NaN => NaN
  | Infinity s, Infinity s' => Infinity (xorb s s')
  | Infinity s, Num q | Num q, Infinity s =>
      if Qeq_bool q 0 then NaN else Infinity (xorb s (isNegative q))
  | Num a, Num b => round64 (a * b)
  end.

Definition div (x y : number) : number :=
  match x, y with
  | NaN, _ | _, NaN => NaN
  | Infinity _, Infinity _ => NaN
  | Infinity s, Num q => Infinity (xorb s (isNegative q))
  | Num _, Infinity _ => Num 0
  | Num a, Num b =>
      if Qeq_bool b 0 then
        if Qeq_bool a 0 then NaN else Infinity (isNegative a)
      else round64 (a / b)
  end.

(** The conversion of an argument of type [float]: a value that is not
    finite, also after rounding to single precision, is a TypeError. *)
Definition toFloat (x : number) : result Q :=
  match x with
  | Num q => match round32 q with Num v => Ok v | _ => Throw TypeError end
  | _ => Throw TypeError
  end.

(** [calculateDuration], [(words / 150) * 60 / rate] with
    [words = characters / 5]. *)
Definition calculateDuration (text : string) (rate : Q) : number :=
  let characters := Num (inject_Z (Z.of_nat (String.length text))) in
  let words := div characters (Num 5) in
  div (mul (div words (Num 150)) (Num 60)) (Num rate).

(** The set-up of the rendering, as [setUpRendering] above, with the
    products, the difference, the quotient and the sums of the code
    rounded, and the pitch converted to single precision. *)
Definition setUpRendering (p : Platform) (text voice : string) (rate : Q)
  : result (Q * OfflineAudioContext) :=
  sampleRate ← audioContext p;
  let duration := calculateDuration text rate in
  let frameCount := Math_ceil (mul duration (Num sampleRate)) in
  let safeFrameCount := Math_min frameCount (mul (Num 10) (Num sampleRate)) in
  offlineCtx ← new_OfflineAudioContext 1 safeFrameCount sampleRate;
  let voiceCharacteristics := getVoiceCharacteristics voice in
  let frequency :=
    {| value := baseFrequency voiceCharacteristics;
       events := events (oscillatorFrequency offlineCtx) |} in
  let gain := {| value := 0.5; events := events (gainNodeGain offlineCtx) |} in
  gain ← setValueAtTime gain 0 (Num 0);
  gain ← linearRampToValueAtTime gain 0.5 (Num (literal 0.02));
  gain ← setValueAtTime gain 0.5 (sub duration (Num (literal 0.05)));
  gain ← linearRampToValueAtTime gain 0 duration;
  let sentences := sentencesOf text in
  let sentenceDuration :=
    div duration (Num (inject_Z (Z.of_nat (Nat.max (length sentences) 1)))) in
  '(frequency, timeOffset) ← for_loop (length sentences) 0
    (fun i '(frequency, timeOffset) =>
       let pitchVariation :=
         add (Num 1) (Num (literal (if (i mod 2 =? 0)%nat then 0.05 else - 0.03))) in
       v ← toFloat (mul (Num (baseFrequency voiceCharacteristics)) pitchVariation);
       frequency ← setValueAtTime frequency v timeOffset;
       Ok (frequency, add timeOffset sentenceDuration))
    (frequency, Num 0);
  Ok (sampleRate,
      {| ctxNumberOfChannels := ctxNumberOfChannels offlineCtx;
         ctxLength := ctxLength offlineCtx;
         ctxSampleRate := ctxSampleRate offlineCtx;
         oscillatorType := "sine";
         oscillatorFrequency := frequency;
         gainNodeGain := gain |}).

(** [synthesizeTextToAudio] on this set-up. *)
Definition synthesizeTextToAudio (p : Platform) (text voice : string) (rate : Q)
  : result ArrayBuffer :=
  try_catch
    ('(sampleRate, offlineCtx) ← setUpRendering p text voice rate;
     try_catch
       (renderedBuffer ← startRendering p offlineCtx;
        try_catch
          (audioData ← exportToWavArrayBuffer renderedBuffer; Ok audioData)
          (fun exportErr => createFallbackBeep p sampleRate))
       (fun renderErr => createFallbackBeep p sampleRate))
    (fun err => Ok (new_ArrayBuffer 44)).

(** A number that is not negative: a finite one from 0 on, or plus
    infinity; and its mirror image. *)
Definition nonNegative (x : number) : Prop :=
  match x with Num q => (0 <= q)%Q | Infinity s => s = false | NaN => False end.

Definition negative (x : number) : Prop :=
  match x with Num q => (q < 0)%Q | Infinity s => s = true | NaN => False end.

(** The accumulated time after [i] additions of [s], each rounded: within
    [i * unit round-off] of [i * s], relatively. *)
Definition accumulated (s : Q) (i : nat) (t : Q) : Prop :=
  let n := inject_Z (Z.of_nat i) in
  (0 <= t /\
   s * (n - n * n * (1 # 9007199254740992)) <= t /\
   t <= s * (n + n * n * (1 # 9007199254740992)))%Q.

End Double.

(** * Properties *)

(** ** Arithmetic of the conversions *)

Lemma Qtrunc_error (q : Q) : (Qabs (inject_Z (Qtrunc q) - q) < 1)%Q.
Proof.
  apply Qabs_Qlt_condition. destruct q as [n d]. unfold Qtrunc, Qlt, Qminus, Qplus, Qopp.
  cbn -[Z.quot Z.mul]. 
  pose proof (Z.quot_rem' n (Z.pos d)) as E.
  destruct (Z_le_gt_dec 0 n) as [Hn | Hn].
  - pose proof (Z.rem_bound_pos n (Z.pos d) Hn ltac:(lia)). nia.
  - pose proof (Z.rem_bound_pos (- n) (Z.pos d) ltac:(lia) ltac:(lia)) as B.
    rewrite Z.rem_opp_l in B by lia. nia.
Qed.

Lemma Qtrunc_range (q : Q) (k : Z) :
  (inject_Z (- k) <= q)%Q -> (q <= inject_Z k)%Q -> (- k <= Qtrunc q <= k)%Z.
Proof.
  destruct q as [n d]. unfold Qtrunc, Qle. cbn -[Z.quot Z.mul]. intros Hl Hu.
  pose proof (Z.quot_rem' n (Z.pos d)) as E.
  destruct (Z_le_gt_dec 0 n) as [Hn | Hn].
  - pose proof (Z.rem_bound_pos n (Z.pos d) Hn ltac:(lia)). nia.
  - pose proof (Z.rem_bound_pos (- n) (Z.pos d) ltac:(lia) ltac:(lia)) as B.
    rewrite Z.rem_opp_l in B by lia. nia.
Qed.

Lemma wrapInt16_id (v : Z) : (-32768 <= v <= 32767)%Z -> wrapInt16 v = v.
Proof.
  intros Hv. unfold wrapInt16.
  destruct (Z_le_gt_dec 0 v).
  - rewrite Z.mod_small by lia. destruct (Z.leb_spec 32768 v); lia.
  - replace (v mod 65536)%Z with (v + 65536)%Z.
    + destruct (Z.leb_spec 32768 (v + 65536)); lia.
    + apply Z.mod_unique with (q := (-1)%Z); lia.
Qed.

Lemma getInt16_uint16le (v : Z) :
  getInt16 (uint16le v) 0 = Some (wrapInt16 v).
Proof.
  unfold getInt16, uint16le. cbn -[Z.modulo Z.div Z.mul wrapInt16]. f_equal.
  unfold wrapInt16. 
  replace ((v mod 256 + 256 * (v / 256 mod 256)) mod 65536)%Z with (v mod 65536)%Z; [done|].
  rewrite (Z.mod_small (v mod 256 + 256 * (v / 256 mod 256)) 65536)
    by (pose proof (Z.mod_pos_bound v 256); pose proof (Z.mod_pos_bound (v / 256) 256); lia).
  change 65536%Z with (256 * 256)%Z. rewrite Z.rem_mul_r by lia. lia.
Qed.

Lemma clip_range (x : number) :
  x <> NaN -> exists c : Q, clip x = Num c /\ (-1 <= c)%Q /\ (c <= 1)%Q.
Proof.
  intros Hx. destruct x as [| [] | q]; [done | | |]; unfold clip; cbn.
  - exists (-1)%Q. split; [done | lra].
  - exists 1%Q. split; [done | lra].
  - destruct (Qle_bool 1 q) eqn:E1; cbn.
    + exists 1%Q. split; [done | lra].
    + assert (~ (1 <= q)%Q) by (rewrite <- Qle_bool_iff; congruence).
      destruct (Qle_bool (-1) q) eqn:E2.
      * apply Qle_bool_iff in E2. exists q. split; [done | lra].
      * assert (~ (-1 <= q)%Q) by (rewrite <- Qle_bool_iff; congruence).
        exists (-1)%Q. split; [done | lra].
Qed.

Lemma quantize_spec (x : number) (c : Q) :
  clip x = Num c -> (-1 <= c)%Q -> (c <= 1)%Q ->
  quantize x = Qtrunc (c * 32767) /\ (-32767 <= quantize x <= 32767)%Z.
Proof.
  intros Hc Hl Hu. unfold quantize. rewrite Hc. cbn [times ToInt16].
  assert (-32767 <= Qtrunc (c * 32767) <= 32767)%Z as R.
  { apply (Qtrunc_range _ 32767).
    - change (inject_Z (Z.opp 32767)) with (Qopp 32767). lra.
    - change (inject_Z 32767) with 32767%Q. lra. }
  rewrite wrapInt16_id by lia. done.
Qed.

(** ** The encoder writes the file it should *)

Lemma lookup_flat_map_seq {A} (f : nat -> list A) (w : nat) :
  (forall i, length (f i) = w) ->
  forall len s i j, i < len -> j < w ->
    flat_map f (seq s len) !! (i * w + j) = f (s + i) !! j.
Proof.
  intros Hw. induction len as [| len IH]; intros s i j Hi Hj; [lia |].
  cbn [seq flat_map]. destruct i as [| i].
  - rewrite lookup_app_l by (rewrite Hw; lia). by rewrite Nat.add_0_r.
  - rewrite lookup_app_r by (rewrite Hw; lia). rewrite Hw.
    replace (S i * w + j - w) with (i * w + j) by lia.
    rewrite IH by lia. by replace (S s + i) with (s + S i) by lia.
Qed.

Lemma length_flat_map_seq {A} (f : nat -> list A) (w : nat) :
  (forall i, length (f i) = w) ->
  forall len s, length (flat_map f (seq s len)) = len * w.
Proof.
  intros Hw. induction len as [| len IH]; intros s; [done |].
  cbn [seq flat_map]. rewrite length_app, Hw, IH. lia.
Qed.

Lemma length_pcmFrame channels numOfChan i :
  length (pcmFrame channels numOfChan i) = numOfChan * 2.
Proof. unfold pcmFrame. by apply length_flat_map_seq. Qed.

Lemma length_pcmData channels numOfChan len :
  length (pcmData channels numOfChan len) = len * (numOfChan * 2).
Proof. unfold pcmData. apply length_flat_map_seq. intros i. apply length_pcmFrame. Qed.

Lemma getInt16_pcmData (header : list Z) channels numOfChan len i channel :
  i < len -> channel < numOfChan ->
  getInt16 (header ++ pcmData channels numOfChan len)
           (length header + 2 * (i * numOfChan + channel))
  = Some (wrapInt16 (quantize (sampleAt channels channel i))).
Proof.
  intros Hi Hc.
  assert (forall k, k < 2 ->
    (header ++ pcmData channels numOfChan len)
      !! (length header + 2 * (i * numOfChan + channel) + k)
    = uint16le (quantize (sampleAt channels channel i)) !! k) as L.
  { intros k Hk. rewrite lookup_app_r by lia.
    replace (length header + 2 * (i * numOfChan + channel) + k - length header)
      with (i * (numOfChan * 2) + (channel * 2 + k)) by lia.
    unfold pcmData.
    rewrite (lookup_flat_map_seq _ (numOfChan * 2)) by (try apply length_pcmFrame; lia).
    unfold pcmFrame. by rewrite (lookup_flat_map_seq _ 2) by (done || lia). }
  pose proof (getInt16_uint16le (quantize (sampleAt channels channel i))) as G.
  pose proof (L 0 ltac:(lia)) as L0. rewrite Nat.add_0_r in L0.
  unfold getInt16 in *. rewrite (L 1) by lia. rewrite L0. exact G.
Qed.

Lemma setUint16_app (pre rest : list Z) (a b v : Z) :
  setUint16 (pre ++ a :: b :: rest) (length pre) v = Ok (pre ++ uint16le v ++ rest).
Proof.
  unfold setUint16. rewrite length_app. cbn [length].
  destruct (Nat.leb_spec (length pre + 2) (length pre + S (S (length rest)))); [| lia].
  f_equal. rewrite insert_app_r_alt by lia. rewrite insert_app_r_alt by lia.
  replace (length pre + 1 - length pre) with 1 by lia. by rewrite Nat.sub_diag.
Qed.

Lemma collect_channels (b : AudioBuffer.t) (k c : nat) :
  c + k <= length (AudioBuffer.channelData b) ->
  c + k <= AudioBuffer.numberOfChannels b ->
  for_loop k c
    (fun i channels =>
       data ← AudioBuffer.getChannelData b i; Ok (channels ++ [data]))
    (take c (AudioBuffer.channelData b))
  = Ok (take (c + k) (AudioBuffer.channelData b)).
Proof.
  revert c. induction k as [| k IH]; intros c Hl Hn.
  - by rewrite Nat.add_0_r.
  - cbn [for_loop]. unfold AudioBuffer.getChannelData.
    destruct (Nat.ltb_spec c (AudioBuffer.numberOfChannels b)); [| lia].
    destruct (lookup_lt_is_Some_2 (AudioBuffer.channelData b) c ltac:(lia)) as [data Hd].
    rewrite Hd. cbn. rewrite <- (take_S_r _ _ _ Hd). rewrite IH by lia. f_equal. f_equal. lia.
Qed.

Lemma write_frame (channels : list (list number)) (i k c : nat) (pre rest : list Z) :
  c + k <= length channels ->
  for_loop k c
    (fun channel '(offset, view) =>
       match channels !! channel with
       | None => Throw TypeError
       | Some data =>
           let sample := Math_max (Num (-1)) (Math_min (Num 1) (index data i)) in
           view ← setInt16 view offset (times sample 32767);
           Ok (offset + 2, view)
       end)
    (length pre, pre ++ replicate (k * 2) 0%Z ++ rest)
  = Ok (length pre + k * 2,
        pre ++ flat_map (fun channel => uint16le (quantize (sampleAt channels channel i)))
                        (seq c k) ++ rest).
Proof.
  revert c pre. induction k as [| k IH]; intros c pre Hc.
  - cbn. by rewrite Nat.add_0_r.
  - cbn [for_loop]. cbn [Nat.mul Nat.add replicate app].
    destruct (lookup_lt_is_Some_2 channels c ltac:(lia)) as [data Hd].
    rewrite Hd. cbn zeta. unfold setInt16. rewrite setUint16_app. cbn [mbind result_bind].
    specialize (IH (S c) (pre ++ uint16le (ToInt16
        (times (Math_max (Num (-1)) (Math_min (Num 1) (index data i))) 32767))) ltac:(lia)).
    rewrite length_app in IH. cbn [length uint16le] in IH.
    rewrite <- !app_assoc in IH. cbn [seq flat_map]. unfold sampleAt at 1. rewrite Hd.
    rewrite <- app_assoc. etrans; [exact IH |].
    by replace (length pre + S (S (k * 2))) with (length pre + 2 + k * 2) by lia.
Qed.

Lemma write_frames (channels : list (list number)) (numOfChan k c : nat) (pre : list Z) :
  numOfChan <= length channels ->
  for_loop k c
    (fun i =>
       for_loop numOfChan 0
         (fun channel '(offset, view) =>
            match channels !! channel with
            | None => Throw TypeError
            | Some data =>
                let sample := Math_max (Num (-1)) (Math_min (Num 1) (index data i)) in
                view ← setInt16 view offset (times sample 32767);
                Ok (offset + 2, view)
            end))
    (length pre, pre ++ replicate (k * numOfChan * 2) 0%Z)
  = Ok (length pre + k * numOfChan * 2,
        pre ++ flat_map (pcmFrame channels numOfChan) (seq c k)).
Proof.
  intros Hn. revert c pre. induction k as [| k IH]; intros c pre.
  - cbn. by rewrite Nat.add_0_r.
  - cbn [for_loop].
    replace (S k * numOfChan * 2) with (numOfChan * 2 + k * numOfChan * 2) by lia.
    rewrite replicate_add, write_frame by lia. cbn [mbind result_bind].
    specialize (IH (S c) (pre ++ pcmFrame channels numOfChan c)).
    rewrite length_app, length_pcmFrame, <- app_assoc in IH.
    fold (pcmFrame channels numOfChan c). etrans; [exact IH |]. cbn [seq flat_map].
    rewrite <- app_assoc.
    by replace (length pre + numOfChan * 2 + k * numOfChan * 2)
      with (length pre + (numOfChan * 2 + k * numOfChan * 2)) by lia.
Qed.

Lemma exportToWavArrayBuffer_unfold (b : AudioBuffer.t) :
  exportToWavArrayBuffer b =
  let numOfChan := AudioBuffer.numberOfChannels b in
  let length := AudioBuffer.length b * numOfChan * 2 in
  channels ← for_loop numOfChan 0
    (fun i channels =>
       data ← AudioBuffer.getChannelData b i; Ok (channels ++ [data])) [];
  '(offset, view) ← for_loop (AudioBuffer.length b) 0
    (fun i =>
       for_loop numOfChan 0
         (fun channel '(offset, view) =>
            match channels !! channel with
            | None => Throw TypeError
            | Some data =>
                let sample := Math_max (Num (-1)) (Math_min (Num 1) (index data i)) in
                view ← setInt16 view offset (times sample 32767);
                Ok (offset + 2, view)
            end))
    (44, wavHeaderOf b ++ replicate length 0%Z);
  Ok view.
Proof. reflexivity. Qed.

Lemma exportToWavArrayBuffer_correct (b : AudioBuffer.t) :
  length (AudioBuffer.channelData b) = AudioBuffer.numberOfChannels b ->
  exportToWavArrayBuffer b
  = Ok (wavHeaderOf b
        ++ pcmData (AudioBuffer.channelData b) (AudioBuffer.numberOfChannels b)
             (AudioBuffer.length b)).
Proof.
  intros Hn. rewrite exportToWavArrayBuffer_unfold. cbn zeta.
  pose proof (collect_channels b (AudioBuffer.numberOfChannels b) 0) as C.
  rewrite take_0, Nat.add_0_l in C. rewrite C by lia. cbn [mbind result_bind].
  rewrite take_ge by lia.
  pose proof (write_frames (AudioBuffer.channelData b) (AudioBuffer.numberOfChannels b)
                (AudioBuffer.length b) 0 (wavHeaderOf b) ltac:(lia)) as W.
  change (length (wavHeaderOf b)) with 44 in W. cbn zeta in W. rewrite W. done.
Qed.

(** ** C1: the encoder and its round trip *)

(** C1.  For every well-formed AudioBuffer the encoder returns (it does
    not throw) a buffer of [44 + length * channels * 2] bytes that starts
    with the 44-byte RIFF/WAVE PCM header and continues with the frames,
    channel by channel, as little-endian 16-bit integers.  Reading sample
    [i] of channel [channel] back with [getInt16] gives an integer [v]
    that is the clipped input scaled by 0x7FFF and truncated: it differs
    from the clipped, scaled float by less than one least significant
    bit, which is 1/32768 of full scale.  The encoder is a function of
    the buffer alone. *)
Theorem wav_round_trip (b : AudioBuffer.t) :
  validAudioBuffer b ->
  exists bytes : list Z,
    exportToWavArrayBuffer b = Ok bytes /\
    length bytes = 44 + AudioBuffer.length b * AudioBuffer.numberOfChannels b * 2 /\
    take 44 bytes = wavHeaderOf b /\
    drop 44 bytes
      = pcmData (AudioBuffer.channelData b) (AudioBuffer.numberOfChannels b)
          (AudioBuffer.length b) /\
    forall (channel i : nat) (data : list number) (x : number),
      AudioBuffer.channelData b !! channel = Some data ->
      data !! i = Some x ->
      exists (c : Q) (v : Z),
        clip x = Num c /\ (-1 <= c)%Q /\ (c <= 1)%Q /\
        getInt16 bytes (44 + 2 * (i * AudioBuffer.numberOfChannels b + channel)) = Some v /\
        v = Qtrunc (c * 32767) /\
        (Qabs (inject_Z v - c * 32767) < 1)%Q /\
        (Qabs (inject_Z v / 32768 - c * 32767 / 32768) < 1 / 32768)%Q.
Proof.
  intros [Hn Hdata]. eexists. split; [by apply exportToWavArrayBuffer_correct |].
  set (header := wavHeaderOf b).
  assert (length header = 44) as Hh by done.
  split; [rewrite length_app, length_pcmData, Hh; lia |].
  split; [by rewrite take_app_length' |].
  split; [by rewrite drop_app_length' |].
  intros channel i data x Hch Hx.
  pose proof (proj1 (Forall_lookup _ _) Hdata _ _ Hch) as [Hlen Hnan].
  assert (x <> NaN) as Hx' by exact (proj1 (Forall_lookup _ _) Hnan _ _ Hx).
  destruct (clip_range x Hx') as (c & Hc & Hl & Hu).
  destruct (quantize_spec x c Hc Hl Hu) as [Hq Hr].
  exists c, (quantize x). split; [done |]. split; [done |]. split; [done |].
  assert (sampleAt (AudioBuffer.channelData b) channel i = x) as Hs.
  { unfold sampleAt, index. by rewrite Hch, Hx. }
  split.
  { rewrite <- Hh, getInt16_pcmData, Hs.
    - by rewrite wrapInt16_id by lia.
    - apply lookup_lt_Some in Hx. lia.
    - apply lookup_lt_Some in Hch. lia. }
  split; [done |].
  pose proof (Qtrunc_error (c * 32767)) as E. rewrite <- Hq in E.
  split; [done |].
  apply Qabs_Qlt_condition in E. apply Qabs_Qlt_condition.
  unfold Qdiv. change (/ 32768)%Q with (1 # 32768)%Q. lra.
Qed.

Lemma wav_round_trip_witness :
  validAudioBuffer stereoExample /\
  exists bytes : list Z,
    exportToWavArrayBuffer stereoExample = Ok bytes /\
    length bytes = 52 /\
    getInt16 bytes (44 + 2 * (1 * 2 + 0)) = Some (-32767)%Z.
Proof.
  assert (validAudioBuffer stereoExample) as V.
  { split; [reflexivity |]. repeat constructor; discriminate. }
  split; [exact V |].
  destruct (wav_round_trip stereoExample V) as (bytes & E & L & _).
  exists bytes. split; [exact E |]. split; [exact L |].
  vm_compute in E. injection E as <-. reflexivity.
Defined.

(** ** C7: voice lookup *)

Lemma getVoiceCharacteristics_unknown (voiceId : string) :
  ~ In (toLowerCase voiceId) builtinVoiceIds ->
  getVoiceCharacteristics voiceId = defaultCharacteristics.
Proof.
  intros H. unfold getVoiceCharacteristics. cbn zeta.
  repeat match goal with
  | |- context [String.eqb ?a ?b] =>
      destruct (String.eqb_spec a b) as [E | _];
      [exfalso; apply H; rewrite E; cbn; tauto |]
  end.
  reflexivity.
Qed.

Lemma getVoiceCharacteristics_builtin (voiceId builtin : string) :
  In builtin builtinVoiceIds ->
  toLowerCase voiceId = builtin ->
  getVoiceCharacteristics voiceId = getVoiceCharacteristics builtin /\
  getVoiceCharacteristics voiceId <> defaultCharacteristics.
Proof.
  intros Hin Hlow. unfold getVoiceCharacteristics. cbn zeta. rewrite Hlow.
  cbn in Hin.
  destruct Hin as [<- | [<- | [<- | [<- | [<- | [<- | []]]]]]];
    (split; [reflexivity |]); intros E; apply (f_equal baseFrequency) in E;
    vm_compute in E; discriminate E.
Qed.

(** C7 (as the code has it).  The lookup is a total function of the
    lower-cased id.  For every voiceId whose lower-cased form is none of
    alloy, echo, fable, onyx, nova, shimmer it returns the default
    profile: base frequency 160 Hz, sine formants at 500/1500/2500 Hz
    with gains 1.0/0.5/0.25, emphasis 1.2, breathiness 0.1, syllable rate
    4.0.  For every voiceId whose lower-cased form is one of the six
    (the id itself, or the id in any other letter case) it returns the
    profile of that built-in voice, which is not the default profile. *)
Theorem voice_lookup_default (voiceId : string) :
  (~ In (toLowerCase voiceId) builtinVoiceIds ->
   getVoiceCharacteristics voiceId = defaultCharacteristics /\
   baseFrequency (getVoiceCharacteristics voiceId) = 160%Q /\
   map frequency (formants (getVoiceCharacteristics voiceId)) = [500; 1500; 2500]%Q /\
   map gain (formants (getVoiceCharacteristics voiceId)) = [1.0; 0.5; 0.25]%Q /\
   emphasis (getVoiceCharacteristics voiceId) = 1.2%Q /\
   breathiness (getVoiceCharacteristics voiceId) = 0.1%Q /\
   syllableRate (getVoiceCharacteristics voiceId) = 4.0%Q) /\
  (forall builtin,
     In builtin builtinVoiceIds ->
     toLowerCase voiceId = builtin ->
     getVoiceCharacteristics voiceId = getVoiceCharacteristics builtin /\
     getVoiceCharacteristics voiceId <> defaultCharacteristics) /\
  builtinVoiceIds = ["alloy"; "echo"; "fable"; "onyx"; "nova"; "shimmer"].
Proof.
  split; [| split; [| reflexivity]].
  - intros H. rewrite (getVoiceCharacteristics_unknown voiceId H). repeat split.
  - apply getVoiceCharacteristics_builtin.
Qed.

Lemma voice_lookup_default_witness :
  ~ In (toLowerCase "Robot") builtinVoiceIds /\
  getVoiceCharacteristics "Robot" = defaultCharacteristics /\
  getVoiceCharacteristics "Shimmer" = getVoiceCharacteristics "shimmer" /\
  getVoiceCharacteristics "ECHO" = getVoiceCharacteristics "echo".
Proof.
  assert (~ In (toLowerCase "Robot") builtinVoiceIds) as H.
  { cbn. intros [E | [E | [E | [E | [E | [E | []]]]]]]; discriminate E. }
  split; [exact H |].
  split; [exact (proj1 (proj1 (voice_lookup_default "Robot") H)) |].
  split.
  - apply (proj1 (proj2 (voice_lookup_default "Shimmer"))); [| reflexivity].
    cbn. tauto.
  - apply (proj1 (proj2 (voice_lookup_default "ECHO"))); [| reflexivity].
    cbn. tauto.
Defined.

(** C7 as stated fails: the switch is on the lower-cased id, so an id
    that is none of the six built-in ids can still select a built-in
    profile. *)
Lemma voice_lookup_uppercase :
  ~ In "ALLOY"%string builtinVoiceIds /\
  getVoiceCharacteristics "ALLOY" <> defaultCharacteristics /\
  baseFrequency (getVoiceCharacteristics "ALLOY") = 175%Q.
Proof.
  split; [| split].
  - cbn. intros [E | [E | [E | [E | [E | [E | []]]]]]]; discriminate E.
  - intros E. apply (f_equal baseFrequency) in E. discriminate E.
  - reflexivity.
Qed.

(** ** The fallback beep *)

Lemma bind_Ok {A B} (m : result A) (f : A -> result B) (b : B) :
  m ≫= f = Ok b -> exists a, m = Ok a /\ f a = Ok b.
Proof. destruct m as [a | e]; [eauto | discriminate]. Qed.

Lemma write_beep (p : Platform) (sampleRate : Q) (numSamples : Z) (k c : nat)
    (pre : list Z) :
  length pre = 44 + c * 2 ->
  for_loop k c
    (fun i view => setInt16 view (44 + i * 2) (Num (beepSample p sampleRate numSamples i)))
    (pre ++ replicate (k * 2) 0%Z)
  = Ok (pre ++ flat_map
          (fun i => uint16le (ToInt16 (Num (beepSample p sampleRate numSamples i))))
          (seq c k)).
Proof.
  revert c pre. induction k as [| k IH]; intros c pre Hpre.
  - cbn. by rewrite !app_nil_r.
  - cbn [for_loop]. change (S k * 2) with (S (S (k * 2))). cbn [replicate].
    unfold setInt16. rewrite <- Hpre, setUint16_app. cbn [mbind result_bind].
    rewrite app_assoc, IH by (rewrite length_app; cbn; lia).
    cbn [seq flat_map]. by rewrite <- !app_assoc.
Qed.

Lemma createFallbackBeep_correct (p : Platform) (sampleRate : Q) :
  (0 <= sampleRate)%Q -> createFallbackBeep p sampleRate = Ok (beepFile p sampleRate).
Proof.
  intros Hsr. unfold createFallbackBeep, beepFile. cbn zeta.
  assert (0 <= Qfloor (sampleRate * 0.5))%Z as Hn.
  { change 0%Z with (Qfloor 0). apply Qfloor_resp_le. lra. }
  destruct (Z_of_nat_complete _ Hn) as [k Hk]. rewrite Hk.
  unfold new_ArrayBufferZ.
  destruct (Z.ltb_spec (44 + Z.of_nat k * 2) 0); [lia |].
  replace (Z.to_nat (44 + Z.of_nat k * 2)) with (44 + k * 2) by lia.
  rewrite Nat2Z.id.
  exact (write_beep p sampleRate (Z.of_nat k) k 0
           (wavHeader (36 + Z.of_nat k * 2) 1 (Qtrunc sampleRate)
              (Qtrunc (sampleRate * 2)) 2 (Z.of_nat k * 2)) eq_refl).
Qed.

Lemma length_beepFile (p : Platform) (sampleRate : Q) :
  length (beepFile p sampleRate) = 44 + Z.to_nat (Qfloor (sampleRate * 0.5)) * 2.
Proof.
  unfold beepFile. cbn zeta. rewrite length_app.
  by rewrite (length_flat_map_seq _ 2).
Qed.

(** ** The synthesizer *)

Ltac bind_inv H :=
  let a := fresh "a" in
  let E := fresh "E" in
  apply bind_Ok in H; destruct H as (a & E & H).

Lemma new_OfflineAudioContext_Ok (n : nat) (len : number) (sr : Q) (ctx : OfflineAudioContext) :
  new_OfflineAudioContext n len sr = Ok ctx ->
  (0 < sr)%Q /\ (0 < ToUint32 len)%Z /\
  ctxNumberOfChannels ctx = n /\ ctxSampleRate ctx = sr /\
  ctxLength ctx = Z.to_nat (ToUint32 len).
Proof.
  unfold new_OfflineAudioContext. cbn zeta.
  destruct (Z.eqb_spec (ToUint32 len) 0) as [| Hlen]; [discriminate |].
  destruct (Qle_bool sr 0) eqn:Hsr; [discriminate |].
  destruct (n =? 0); [discriminate |]. cbn. intros [= <-]. cbn.
  assert (~ (sr <= 0)%Q) by (rewrite <- Qle_bool_iff; congruence).
  assert (0 <= ToUint32 len)%Z.
  { destruct len; cbn; try lia. apply Z.mod_pos_bound. lia. }
  repeat split; try done; [lra | lia].
Qed.

Lemma setUpRendering_Ok (p : Platform) (text voice : string) (rate sr : Q)
    (offlineCtx : OfflineAudioContext) :
  setUpRendering p text voice rate = Ok (sr, offlineCtx) ->
  audioContext p = Ok sr /\ (0 < sr)%Q /\
  ctxNumberOfChannels offlineCtx = 1 /\ ctxSampleRate offlineCtx = sr /\
  ctxLength offlineCtx
  = Z.to_nat (ToUint32 (Math_min (Math_ceil (mulQ (calculateDuration text rate) sr))
                                 (Num (10 * sr)))) /\
  0 < ctxLength offlineCtx.
Proof.
  unfold setUpRendering. intros H.
  bind_inv H. bind_inv H. bind_inv H. bind_inv H. bind_inv H. bind_inv H. bind_inv H.
  destruct a5 as [frequency timeOffset]. injection H as <- <-. cbn.
  destruct (new_OfflineAudioContext_Ok _ _ _ _ E0) as (Hsr & Hlen & Hn & Hr & Hl).
  repeat split; try done. lia.
Qed.


Lemma synthesizeTextToAudio_cases (p : Platform) (text voice : string) (rate : Q) :
  synthesizeTextToAudio p text voice rate =
  Ok (match setUpRendering p text voice rate with
      | Throw _ => new_ArrayBuffer 44
      | Ok (sampleRate, offlineCtx) =>
          match startRendering p offlineCtx with
          | Throw _ => beepFile p sampleRate
          | Ok renderedBuffer =>
              match exportToWavArrayBuffer renderedBuffer with
              | Ok audioData => audioData
              | Throw _ => beepFile p sampleRate
              end
          end
      end).
Proof.
  unfold synthesizeTextToAudio.
  destruct (setUpRendering p text voice rate) as [[sr ctx] | e] eqn:S; [| done].
  apply setUpRendering_Ok in S as (_ & Hsr & _). cbn [mbind result_bind].
  assert (createFallbackBeep p sr = Ok (beepFile p sr)) as B
    by (apply createFallbackBeep_correct; lra).
  destruct (startRendering p ctx) as [b | e]; cbn [mbind result_bind try_catch];
    [| by rewrite B].
  destruct (exportToWavArrayBuffer b); cbn [mbind result_bind try_catch];
    [done | by rewrite B].
Qed.

(** ** The length of the rendered buffer *)

Lemma Qtrunc_nonneg (q : Q) : (0 <= q)%Q -> (0 <= Qtrunc q)%Z /\ (inject_Z (Qtrunc q) <= q)%Q.
Proof.
  destruct q as [n d]. unfold Qtrunc, Qle. cbn -[Z.quot Z.mul]. intros Hn.
  pose proof (Z.quot_rem' n (Z.pos d)) as E.
  pose proof (Z.rem_bound_pos n (Z.pos d) ltac:(lia) ltac:(lia)).
  pose proof (Z.quot_pos n (Z.pos d) ltac:(lia) ltac:(lia)). nia.
Qed.








(** ** C3: the ten-second ceiling *)



(** ** C9: the synthesizer always returns a buffer *)

(** C9.  [synthesizeTextToAudio] never throws: for every platform, text,
    voice and rate it returns a buffer.  If anything before rendering
    throws (the AudioContext or OfflineAudioContext constructor, a
    scheduling call) the buffer is 44 zero bytes; if rendering is
    rejected, or the WAV export of the rendered buffer throws, it is the
    beep file, 44 bytes of header and half a second of 16-bit samples of
    the 440 Hz tone; otherwise it is the exported WAV file. *)
Theorem synthesize_total (p : Platform) (text voice : string) (rate : Q) :
  synthesizeTextToAudio p text voice rate =
  Ok (match setUpRendering p text voice rate with
      | Throw _ => new_ArrayBuffer 44
      | Ok (sampleRate, offlineCtx) =>
          match startRendering p offlineCtx with
          | Throw _ => beepFile p sampleRate
          | Ok renderedBuffer =>
              match exportToWavArrayBuffer renderedBuffer with
              | Ok audioData => audioData
              | Throw _ => beepFile p sampleRate
              end
          end
      end) /\
  new_ArrayBuffer 44 = replicate 44 0%Z /\
  forall sampleRate : Q,
    length (beepFile p sampleRate) = 44 + Z.to_nat (Qfloor (sampleRate * 0.5)) * 2.
Proof.
  split; [apply synthesizeTextToAudio_cases |].
  split; [reflexivity |]. intros sampleRate. apply length_beepFile.
Qed.

(** Failures before rendering: no audio context; a one-character text at
    rate 2, whose envelope needs a negative time. *)
Example synthesize_without_audio_context :
  synthesizeTextToAudio noAudioContext "Hi." "alloy" 1 = Ok (replicate 44 0%Z).
Proof. reflexivity. Qed.

Example synthesize_short_text_fast_rate :
  setUpRendering silentPlatform "a" "alloy" 2 = Throw RangeError /\
  synthesizeTextToAudio silentPlatform "a" "alloy" 2 = Ok (replicate 44 0%Z).
Proof. split; reflexivity. Qed.

(** A failure of the export: the renderer hands back a buffer without
    channel data, [getChannelData] throws, and the beep is returned. *)
Example synthesize_export_failure :
  exists offlineCtx renderedBuffer,
    setUpRendering detachedRenderer "Hi." "alloy" 1 = Ok (8000%Q, offlineCtx) /\
    startRendering detachedRenderer offlineCtx = Ok renderedBuffer /\
    exportToWavArrayBuffer renderedBuffer = Throw IndexSizeError /\
    synthesizeTextToAudio detachedRenderer "Hi." "alloy" 1
    = Ok (beepFile detachedRenderer 8000).
Proof.
  assert (exists offlineCtx,
            setUpRendering detachedRenderer "Hi." "alloy" 1 = Ok (8000%Q, offlineCtx))
    as [offlineCtx Hset] by (eexists; vm_compute; reflexivity).
  exists offlineCtx. eexists. split; [exact Hset |].
  split; [reflexivity |].
  assert (exportToWavArrayBuffer
            (AudioBuffer.mk (ctxNumberOfChannels offlineCtx) (ctxLength offlineCtx)
               (ctxSampleRate offlineCtx) []) = Throw IndexSizeError) as Hexp.
  { apply setUpRendering_Ok in Hset as (_ & _ & Hn & _).
    rewrite exportToWavArrayBuffer_unfold. cbn zeta.
    unfold AudioBuffer.numberOfChannels at 1. rewrite Hn. reflexivity. }
  split; [exact Hexp |].
  rewrite synthesizeTextToAudio_cases, Hset.
  change (startRendering detachedRenderer offlineCtx)
    with (Ok (AudioBuffer.mk (ctxNumberOfChannels offlineCtx) (ctxLength offlineCtx)
                (ctxSampleRate offlineCtx) [])).
  cbv beta iota. by rewrite Hexp.
Qed.

(** ** C2: a rendering failure is caught by the synthesizer *)

(** C2 (as the code has it).  When the set-up succeeds and rendering is
    rejected, [synthesizeTextToAudio] catches the exception itself and
    returns the fallback beep, which [createFallbackBeep] builds for the
    sample rate of the context: a mono 16-bit WAV file of half a second;
    nothing propagates to the caller. *)
Theorem render_failure_yields_beep (p : Platform) (text voice : string) (rate sr : Q)
    (offlineCtx : OfflineAudioContext) (renderErr : exn) :
  setUpRendering p text voice rate = Ok (sr, offlineCtx) ->
  startRendering p offlineCtx = Throw renderErr ->
  synthesizeTextToAudio p text voice rate = Ok (beepFile p sr) /\
  createFallbackBeep p sr = Ok (beepFile p sr) /\
  length (beepFile p sr) = 44 + Z.to_nat (Qfloor (sr * 0.5)) * 2.
Proof.
  intros Hset Hren. rewrite synthesizeTextToAudio_cases, Hset, Hren.
  apply setUpRendering_Ok in Hset as (_ & Hsr & _).
  split; [done |]. split; [apply createFallbackBeep_correct; lra | apply length_beepFile].
Qed.

Lemma render_failure_yields_beep_witness :
  exists offlineCtx,
    setUpRendering failingRenderer "Hi." "alloy" 1 = Ok (8000%Q, offlineCtx) /\
    startRendering failingRenderer offlineCtx = Throw DOMException /\
    synthesizeTextToAudio failingRenderer "Hi." "alloy" 1
    = Ok (beepFile failingRenderer 8000) /\
    Z.of_nat (length (beepFile failingRenderer 8000)) = 8044%Z.
Proof.
  assert (exists offlineCtx,
            setUpRendering failingRenderer "Hi." "alloy" 1 = Ok (8000%Q, offlineCtx))
    as [offlineCtx Hset] by (eexists; vm_compute; reflexivity).
  exists offlineCtx. split; [exact Hset |].
  assert (startRendering failingRenderer offlineCtx = Throw DOMException) as Hren
    by reflexivity.
  split; [exact Hren |].
  destruct (render_failure_yields_beep failingRenderer "Hi." "alloy" 1 8000
              offlineCtx DOMException Hset Hren) as (H1 & _ & H3).
  split; [exact H1 |]. rewrite H3. reflexivity.
Defined.

(** C2 as stated fails: with a renderer that rejects, the call returns
    normally, with the beep, instead of throwing. *)
Lemma render_failure_does_not_propagate :
  exists offlineCtx,
    setUpRendering failingRenderer "Hi." "alloy" 1 = Ok (8000%Q, offlineCtx) /\
    startRendering failingRenderer offlineCtx = Throw DOMException /\
    synthesizeTextToAudio failingRenderer "Hi." "alloy" 1
    = Ok (beepFile failingRenderer 8000) /\
    forall e, synthesizeTextToAudio failingRenderer "Hi." "alloy" 1 <> Throw e.
Proof.
  assert (exists offlineCtx,
            setUpRendering failingRenderer "Hi." "alloy" 1 = Ok (8000%Q, offlineCtx))
    as [offlineCtx Hset] by (eexists; vm_compute; reflexivity).
  exists offlineCtx. split; [exact Hset |]. split; [reflexivity |].
  assert (synthesizeTextToAudio failingRenderer "Hi." "alloy" 1
          = Ok (beepFile failingRenderer 8000)) as H
    by (rewrite synthesizeTextToAudio_cases, Hset; reflexivity).
  split; [exact H |]. intros e. rewrite H. discriminate.
Qed.

(** ** The hook: what each helper does to the state *)

Lemma stop_spec (w : TTS) :
  exists w',
    stop w = (Ok tt, w') /\
    isSpeaking w' = false /\ available w' = available w /\ error w' = error w /\
    isLoading w' = isLoading w /\ cacheDBRef w' = cacheDBRef w /\
    audible w' = 0 /\
    (forall c, In c (calls w') ->
       In c (calls w) \/ c = AudioPause \/ c = AudioSeek 0 \/ c = SynthesisCancel) /\
    calls w' =
      calls w
      ++ (match audioRef w with Some _ => [AudioPause; AudioSeek 0] | None => [] end)
      ++ (match synthesisRef w with
          | Some s => if speaking s then [SynthesisCancel] else []
          | None => []
          end) /\
    audioRef w' =
      (fun audio => {| src := src audio; paused := true; currentTime := 0;
                       playbackRate := playbackRate audio |}) <$> audioRef w /\
    synthesisRef w' =
      (fun s => if speaking s then {| speaking := false; utterances := [] |} else s)
        <$> synthesisRef w.
Proof.
  unfold stop, audible.
  destruct w as [sp av er lo [audio |] [[[] us] |] db cs];
    cbn; eexists; (split; [reflexivity |]); cbn;
    rewrite ?app_nil_r, <- ?app_assoc; cbn;
    repeat split; try done.
  all: intros c Hc;
    first [ by left
          | apply in_app_or in Hc as [Hc | Hc];
            [ by left
            | cbn in Hc; repeat (destruct Hc as [<- | Hc]; [tauto |]); destruct Hc ] ].
Qed.

(** ** C10: a disabled or unavailable hook does nothing *)

(** C10.  When [options.enabled] is false or [available] is false,
    [speak] returns at once and the state of the hook is exactly what it
    was: playback is not stopped, the cache is neither read nor written,
    nothing is synthesized, and [isSpeaking], [isLoading] and [error] are
    unchanged. *)
Theorem speak_disabled (options : TTSOptions.t) (p : Platform) (text : string) (w : TTS) :
  TTSOptions.enabled options = false \/ available w = false ->
  speak options p text w = (Ok tt, w).
Proof.
  intros H. unfold speak. unfold mbind at 1, M_bind at 1, gets at 1.
  destruct H as [-> | ->]; [done |]. by rewrite orb_true_r.
Qed.

Lemma speak_disabled_witness :
  TTSOptions.enabled disabledOptions = false /\
  speak disabledOptions silentPlatform "Hello world." playing = (Ok tt, playing) /\
  audible playing = 1.
Proof.
  split; [reflexivity |]. split; [| reflexivity].
  apply (speak_disabled disabledOptions silentPlatform "Hello world." playing).
  left. reflexivity.
Defined.

(** ** C6: text that is empty after the clean-up *)

Lemma speak_empty (options : TTSOptions.t) (p : Platform) (text : string) (w : TTS) :
  cleanText text = "" ->
  speak options p text w =
  if negb (TTSOptions.enabled options) || negb (available w) then (Ok tt, w) else stop w.
Proof.
  intros H. unfold speak. unfold mbind at 1, M_bind at 1, gets at 1. rewrite H.
  destruct (negb (TTSOptions.enabled options) || negb (available w)); [done |].
  unfold mbind at 1, M_bind at 1.
  destruct (stop_spec w) as (w' & -> & _). done.
Qed.

(** C6 (as the code has it).  For a text whose clean-up is the empty
    string, [speak] returns without an error, and the state changes
    exactly as follows.  With the hook enabled and available it performs
    [stop], and the state it returns is the state [stop] returns: the
    audio element is paused and rewound, a speaking native engine is
    cancelled, [isSpeaking] is false, nothing is audible, and the only
    calls made are those of [stop].  With the hook disabled or
    unavailable the state is untouched.  In both cases the cache is
    neither read nor written, nothing is synthesized, and [error],
    [isLoading], [available] and the cache are unchanged. *)
Theorem speak_empty_text (options : TTSOptions.t) (p : Platform) (text : string) (w : TTS) :
  cleanText text = "" ->
  exists w',
    speak options p text w = (Ok tt, w') /\
    (TTSOptions.enabled options = true -> available w = true ->
     stop w = (Ok tt, w') /\
     isSpeaking w' = false /\ audible w' = 0 /\
     audioRef w' =
       (fun audio => {| src := src audio; paused := true; currentTime := 0;
                        playbackRate := playbackRate audio |}) <$> audioRef w /\
     synthesisRef w' =
       (fun s => if speaking s then {| speaking := false; utterances := [] |} else s)
         <$> synthesisRef w /\
     calls w' =
       calls w
       ++ (match audioRef w with Some _ => [AudioPause; AudioSeek 0] | None => [] end)
       ++ (match synthesisRef w with
           | Some s => if speaking s then [SynthesisCancel] else []
           | None => []
           end)) /\
    (TTSOptions.enabled options = false \/ available w = false -> w' = w) /\
    error w' = error w /\ isLoading w' = isLoading w /\
    available w' = available w /\ cacheDBRef w' = cacheDBRef w /\
    forall c, In c (calls w') ->
      In c (calls w) \/ c = AudioPause \/ c = AudioSeek 0 \/ c = SynthesisCancel.
Proof.
  intros H. rewrite (speak_empty options p text w H).
  destruct (TTSOptions.enabled options), (available w) eqn:Hav; cbn [negb orb].
  2-4: exists w; split; [done |]; split; [intros ? ?; discriminate |];
       split; [done |]; repeat split; try done; by left.
  destruct (stop_spec w) as (w' & E & Hs & Ha & He & Hl & Hdb & H0 & Hc & Hcalls & Hau & Hsy).
  exists w'. split; [done |]. split; [intros _ _; by repeat split |].
  split; [intros [? | ?]; discriminate |]. repeat split; try done. congruence.
Qed.

Lemma speak_empty_text_witness :
  cleanText "```code```" = "" /\
  exists w',
    speak defaultOptions silentPlatform "```code```" playing = (Ok tt, w') /\
    stop playing = (Ok tt, w') /\
    isSpeaking w' = false /\ audible w' = 0 /\
    error w' = error playing /\ isLoading w' = isLoading playing /\
    cacheDBRef w' = cacheDBRef playing.
Proof.
  assert (cleanText "```code```" = "") as H by reflexivity.
  split; [exact H |].
  destruct (speak_empty_text defaultOptions silentPlatform "```code```" playing H)
    as (w' & E & Hstop & _ & He & Hl & _ & Hdb & _).
  destruct (Hstop eq_refl eq_refl) as (S & Hs & H0 & _).
  exists w'. exact (conj E (conj S (conj Hs (conj H0 (conj He (conj Hl Hdb)))))).
Defined.

(** C6 as stated fails: while a clip is playing, speaking a text that is
    empty after the clean-up pauses and rewinds the clip and clears
    [isSpeaking]. *)
Lemma speak_empty_text_stops_playback :
  cleanText "```code```" = "" /\
  isSpeaking playing = true /\ audible playing = 1 /\
  exists w',
    speak defaultOptions silentPlatform "```code```" playing = (Ok tt, w') /\
    w' <> playing /\ isSpeaking w' = false /\ audible w' = 0 /\
    audioRef w' = Some {| src := Some [82; 73; 70; 70]%Z; paused := true;
                          currentTime := 0; playbackRate := 1 |}.
Proof.
  split; [reflexivity |]. split; [reflexivity |]. split; [reflexivity |].
  eexists. split; [vm_compute; reflexivity |].
  split; [| repeat split]. intros E. apply (f_equal isSpeaking) in E. discriminate E.
Qed.

(** ** C5: expiry of cache entries *)

Lemma retention_value : retention = (14 * 24 * 60 * 60 * 1000)%Z.
Proof. reflexivity. Qed.

(** C5.  For an entry stored under the key: when its age is more than 14
    days (14 * 24 * 60 * 60 * 1000 ms), [getFromCache] answers null and
    leaves the database as it is, so the record is still in the store;
    when its age is less than 14 days, [getFromCache] answers its audio
    data; and a later [saveToCache] for the same key replaces the record
    and no other. *)
Theorem cache_expiry (p : Platform) (w : TTS) (db : IDBDatabase) (cacheKey : string)
    (item : CacheItem.t) :
  cacheDBRef w = Some db ->
  audioCache db !! cacheKey = Some item ->
  cacheReadError p = false ->
  ((retention < nowAtGet p - CacheItem.timestamp item)%Z ->
   exists w', getFromCache p cacheKey w = (Ok None, w') /\
              cacheDBRef w' = Some db) /\
  ((nowAtGet p - CacheItem.timestamp item < retention)%Z ->
   exists w', getFromCache p cacheKey w = (Ok (Some (CacheItem.audioData item)), w') /\
              cacheDBRef w' = Some db) /\
  (forall (p' : Platform) (audioData : ArrayBuffer) (text voice : string),
     cacheWriteError p' = false ->
     exists w' db',
       saveToCache p' cacheKey audioData text voice w = (Ok tt, w') /\
       cacheDBRef w' = Some db' /\
       audioCache db' !! cacheKey
       = Some (CacheItem.mk cacheKey (nowAtPut p') voice (String.length text) audioData) /\
       forall k, k <> cacheKey -> audioCache db' !! k = audioCache db !! k).
Proof.
  intros Hdb Hitem Hread. unfold retention. repeat split.
  - intros Hold. unfold getFromCache, mbind, M_bind, gets, call, modify, mret, M_ret.
    rewrite Hdb, Hread, Hitem.
    destruct (Z.ltb_spec (nowAtGet p - CacheItem.timestamp item)
                (14 * 24 * 60 * 60 * 1000)); [lia |].
    eexists. split; [reflexivity | done].
  - intros Hnew. unfold getFromCache, mbind, M_bind, gets, call, modify, mret, M_ret.
    rewrite Hdb, Hread, Hitem.
    destruct (Z.ltb_spec (nowAtGet p - CacheItem.timestamp item)
                (14 * 24 * 60 * 60 * 1000)); [| lia].
    eexists. split; [reflexivity | done].
  - intros p' audioData text voice Hwrite.
    unfold saveToCache, mbind, M_bind, gets, call, modify, setCacheDB, mret, M_ret.
    rewrite Hdb, Hwrite. eexists. eexists. split; [reflexivity |]. cbn.
    split; [reflexivity |]. split; [apply lookup_insert_eq |].
    intros k Hk. by apply lookup_insert_ne.
Qed.

Lemma cache_expiry_witness :
  cacheDBRef cached = Some {| audioCache := {[ helloKey := helloItem ]}; ttsStats := [] |} /\
  (retention < nowAtGet twoWeeksLater - CacheItem.timestamp helloItem)%Z /\
  exists w', getFromCache twoWeeksLater helloKey cached = (Ok None, w') /\
             cacheDBRef w' = cacheDBRef cached.
Proof.
  split; [reflexivity |]. split; [reflexivity |].
  exact (proj1 (cache_expiry twoWeeksLater cached _ helloKey helloItem eq_refl
                  (lookup_singleton_eq helloKey helloItem) eq_refl) eq_refl).
Defined.

(** ** C8: a new utterance stops the previous one *)

Lemma quiet_refl (w : TTS) : quiet w w.
Proof. repeat split. exists []. by rewrite app_nil_r. Qed.

Lemma quiet_trans (w1 w2 w3 : TTS) : quiet w1 w2 -> quiet w2 w3 -> quiet w1 w3.
Proof.
  intros (Ha & Hs & Hv & l & Hl) (Ha' & Hs' & Hv' & l' & Hl').
  repeat split; try congruence. exists (l ++ l'). rewrite Hl', Hl. by rewrite app_assoc.
Qed.

Lemma quiet_audible (w w' : TTS) : quiet w w' -> audible w' = audible w.
Proof. intros (Ha & Hs & _). unfold audible. by rewrite Ha, Hs. Qed.

Lemma quiet_started (w1 w2 w3 : TTS) : quiet w1 w2 -> started w2 w3 -> started w1 w3.
Proof.
  intros Hq [Hst (l' & Hl')]. pose proof (quiet_audible _ _ Hq) as Ha.
  destruct Hq as (_ & _ & _ & l & Hl). split.
  - intros H0. apply Hst. congruence.
  - exists (l ++ l'). rewrite Hl', Hl. by rewrite app_assoc.
Qed.

Lemma started_quiet (w1 w2 w3 : TTS) : started w1 w2 -> quiet w2 w3 -> started w1 w3.
Proof.
  intros [Hst (l & Hl)] Hq. pose proof (quiet_audible _ _ Hq) as Ha.
  destruct Hq as (_ & _ & _ & l' & Hl'). split.
  - intros H0. rewrite Ha. by apply Hst.
  - exists (l ++ l'). rewrite Hl', Hl. by rewrite app_assoc.
Qed.

Lemma quiet_is_started (w w' : TTS) : quiet w w' -> started w w'.
Proof.
  intros Hq. pose proof (quiet_audible _ _ Hq) as Ha.
  destruct Hq as (_ & _ & _ & l & Hl). split; [lia | eauto].
Qed.

Ltac run_M :=
  cbv [mbind M_bind mret M_ret gets modify call throw liftResult tryCatch tryFinally
       setIsSpeaking setError setIsLoading setAudio setSynthesis setCacheDB].

Lemma useBrowserTTS_spec (options : TTSOptions.t) (text : string) (w : TTS) :
  exists w', useBrowserTTS options text w = (Ok tt, w') /\ started w w' /\
             available w' = available w.
Proof.
  unfold useBrowserTTS. run_M. unfold started, audible.
  destruct w as [sp av er lo [[sr [] ct pr] |] [[[] us] |] db cs]; cbn.
  all: eexists; (split; [reflexivity |]); cbn.
  all: split; [| done].
  all: split; [lia || auto |].
  all: eexists; rewrite <- ?app_assoc; reflexivity || (by rewrite app_nil_r).
Qed.

Lemma playAudioBuffer_spec (options : TTSOptions.t) (p : Platform) (audioData : ArrayBuffer)
    (w : TTS) :
  exists w',
    playAudioBuffer options p audioData w = (Ok tt, w') /\ started w w' /\
    available w' = available w /\ cacheDBRef w' = cacheDBRef w /\
    (exists l, calls w' = calls w ++ l /\ forallb (fun c => negb (isSynthesize c)) l = true) /\
    (createObjectURLThrows p = false -> is_Some (audioRef w) ->
     payload w' = Some audioData).
Proof.
  unfold playAudioBuffer, useBrowserTTS. run_M. unfold started, audible, payload.
  destruct (createObjectURLThrows p), (playRejects p);
    destruct w as [sp av er lo [[sr [] ct pr] |] [[[] us] |] db cs]; cbn.
  all: eexists; (split; [reflexivity |]); cbn.
  all: split; [split; [lia || auto |] |].
  all: try (eexists; rewrite <- ?app_assoc; reflexivity || (by rewrite app_nil_r)).
  all: split; [done |]. all: split; [done |].
  all: split;
    [eexists; split; [rewrite <- ?app_assoc; reflexivity || (by rewrite app_nil_r) | reflexivity] |].
  all: intros Hu [x Hx]; done.
Qed.

Lemma getFromCache_spec (p : Platform) (cacheKey : string) (w : TTS) :
  exists r l,
    getFromCache p cacheKey w = (Ok r, logged l w) /\
    forallb (fun c => negb (isSynthesize c)) l = true /\
    (forall audioData, r = Some audioData ->
       exists db item,
         cacheDBRef w = Some db /\ audioCache db !! cacheKey = Some item /\
         audioData = CacheItem.audioData item).
Proof.
  unfold getFromCache. run_M. unfold logged.
  destruct w as [sp av er lo au sy [db |] cs]; cbn.
  - destruct (cacheReadError p).
    + exists None, [CacheGet cacheKey]. repeat split; done.
    + destruct (audioCache db !! cacheKey) as [item |] eqn:Hitem.
      * destruct (_ <? _)%Z.
        -- exists (Some (CacheItem.audioData item)), [CacheGet cacheKey].
           split; [done |]. split; [done |]. intros ? [= <-]. eauto.
        -- exists None, [CacheGet cacheKey]. repeat split; done.
      * exists None, [CacheGet cacheKey]. repeat split; done.
  - exists None, []. rewrite app_nil_r. repeat split; done.
Qed.

Lemma getFromCache_hit (p : Platform) (cacheKey : string) (w : TTS) (db : IDBDatabase)
    (item : CacheItem.t) :
  cacheDBRef w = Some db ->
  audioCache db !! cacheKey = Some item ->
  cacheReadError p = false ->
  (nowAtGet p - CacheItem.timestamp item < retention)%Z ->
  getFromCache p cacheKey w
  = (Ok (Some (CacheItem.audioData item)), logged [CacheGet cacheKey] w).
Proof.
  intros Hdb Hitem Hread Hfresh. unfold getFromCache. run_M.
  rewrite Hdb, Hread, Hitem.
  by destruct (Z.ltb_spec (nowAtGet p - CacheItem.timestamp item)
                 (14 * 24 * 60 * 60 * 1000)); [| unfold retention in Hfresh; lia].
Qed.

Lemma logged_quiet (l : list Call) (w : TTS) : quiet w (logged l w).
Proof. repeat split. by exists l. Qed.

Lemma saveToCache_spec (p : Platform) (cacheKey : string) (audioData : ArrayBuffer)
    (text voice : string) (w : TTS) :
  exists w',
    saveToCache p cacheKey audioData text voice w = (Ok tt, w') /\ quiet w w' /\
    (exists l, calls w' = calls w ++ l /\ forallb (fun c => negb (isSynthesize c)) l = true) /\
    (cacheWriteError p = false -> is_Some (cacheDBRef w) ->
     exists db',
       cacheDBRef w' = Some db' /\
       audioCache db' !! cacheKey
       = Some (CacheItem.mk cacheKey (nowAtPut p) voice (String.length text) audioData)).
Proof.
  unfold saveToCache. run_M. unfold quiet.
  destruct (cacheDBRef w) as [db |] eqn:Hdb.
  - destruct (cacheWriteError p).
    + exists w. split; [done |]. split; [repeat split; exists []; by rewrite app_nil_r |].
      split; [exists []; by rewrite app_nil_r | done].
    + eexists. split; [reflexivity |]. cbn.
      split; [repeat split; by eexists |].
      split; [eexists; split; [reflexivity | done] |].
      intros _ _. eexists. split; [reflexivity |]. cbn. apply lookup_insert_eq.
  - exists w. split; [done |]. split; [repeat split; exists []; by rewrite app_nil_r |].
    split; [exists []; by rewrite app_nil_r |]. intros _ [x Hx]. done.
Qed.

(** The flow of [speak] after the clean-up, from a state [w]. *)
Lemma speak_flow (options : TTSOptions.t) (p : Platform) (text : string) (w : TTS) :
  TTSOptions.enabled options = true -> available w = true ->
  exists w1 w',
    stop w = (Ok tt, w1) /\
    speak options p text w = (Ok tt, w') /\
    started w1 w' /\ available w' = true.
Proof.
  intros Hen Hav. destruct (stop_spec w) as (w1 & Hstop & _ & Hav1 & _).
  exists w1. unfold speak. unfold mbind at 1, M_bind at 1, gets at 1.
  rewrite Hen, Hav. cbn [negb orb]. unfold mbind at 1, M_bind at 1. rewrite Hstop.
  destruct (cleanText text =? "")%string.
  { exists w1. split; [done |]. split; [done |].
    split; [apply quiet_is_started, quiet_refl | congruence]. }
  run_M.
  set (w2 := {| isSpeaking := isSpeaking w1; available := available w1; error := None;
                isLoading := true; audioRef := audioRef w1;
                synthesisRef := synthesisRef w1; cacheDBRef := cacheDBRef w1;
                calls := calls w1 |}).
  assert (quiet w1 w2) as Q12 by (repeat split; exists []; by rewrite app_nil_r).
  destruct (getFromCache_spec p (generateCacheKey (cleanText text) (TTSOptions.voice options)) w2)
    as (r & l & Hget & _ & _).
  change (getFromCache p (generateCacheKey (cleanText text) (TTSOptions.voice options))
            (@Build_TTS _ _ _ _ _ _ _ _)) with
    (getFromCache p (generateCacheKey (cleanText text) (TTSOptions.voice options)) w2).
  rewrite Hget.
  pose proof (quiet_trans _ _ _ Q12 (logged_quiet l w2)) as Q13.
  assert (forall w3 w4 : TTS, quiet w1 w3 -> started w3 w4 -> available w4 = available w3 ->
            let w5 := {| isSpeaking := isSpeaking w4; available := available w4;
                         error := error w4; isLoading := false; audioRef := audioRef w4;
                         synthesisRef := synthesisRef w4; cacheDBRef := cacheDBRef w4;
                         calls := calls w4 |} in
            started w1 w5 /\ available w5 = true) as Finish.
  { intros w3 w4 Q S A w5. split.
    - apply (quiet_started _ _ _ Q). apply (started_quiet _ _ _ S).
      repeat split. exists []. by rewrite app_nil_r.
    - cbn. destruct Q as (_ & _ & Av & _). congruence. }
  destruct r as [cachedAudio |].
  - destruct (playAudioBuffer_spec options p cachedAudio (logged l w2))
      as (w4 & Hplay & S & A & _).
    rewrite Hplay. eexists. split; [done |]. split; [reflexivity |].
    exact (Finish _ _ Q13 S A).
  - set (w3 := {| isSpeaking := _; calls := _ ++ [Synthesize _ _ _] |}).
    assert (quiet w1 w3) as Q14.
    { apply (quiet_trans _ _ _ Q13). repeat split. by eexists. }
    destruct (synthesizeTextToAudio p (cleanText text) (TTSOptions.voice options)
                (TTSOptions.rate options)) as [audioData | e].
    + destruct (saveToCache_spec p
                  (generateCacheKey (cleanText text) (TTSOptions.voice options))
                  audioData (cleanText text) (TTSOptions.voice options) w3)
        as (w4 & Hsave & Q & _).
      rewrite Hsave.
      destruct (playAudioBuffer_spec options p audioData w4) as (w5 & Hplay & S & A & _).
      rewrite Hplay. eexists. split; [done |]. split; [reflexivity |].
      exact (Finish _ _ (quiet_trans _ _ _ Q14 Q) S A).
    + destruct (useBrowserTTS_spec options (cleanText text) w3) as (w4 & Hnative & S & A).
      rewrite Hnative. eexists. split; [done |]. split; [reflexivity |].
      exact (Finish _ _ Q14 S A).
Qed.















(** ** C4: a cached clip is replayed *)

Lemma payload_Some (w : TTS) (audioData : ArrayBuffer) :
  payload w = Some audioData -> is_Some (audioRef w).
Proof. unfold payload. destruct (audioRef w); [eauto | done]. Qed.

Lemma speak_cached (options : TTSOptions.t) (p : Platform) (text : string) (w : TTS)
    (db : IDBDatabase) (item : CacheItem.t) :
  TTSOptions.enabled options = true -> available w = true ->
  cleanText text <> "" ->
  is_Some (audioRef w) ->
  cacheDBRef w = Some db ->
  audioCache db !! generateCacheKey (cleanText text) (TTSOptions.voice options) = Some item ->
  cacheReadError p = false -> createObjectURLThrows p = false ->
  (nowAtGet p - CacheItem.timestamp item < retention)%Z ->
  exists w' l,
    speak options p text w = (Ok tt, w') /\
    payload w' = Some (CacheItem.audioData item) /\
    calls w' = calls w ++ l /\ forallb (fun c => negb (isSynthesize c)) l = true /\
    cacheDBRef w' = Some db.
Proof.
  intros Hen Hav Hclean Haudio Hdb Hitem Hread Hurl Hfresh.
  destruct (stop_spec w) as (w1 & Hstop & _ & Hav1 & _ & _ & Hdb1 & _ & _ & Hcalls1 & Haudio1 & _).
  unfold speak. unfold mbind at 1, M_bind at 1, gets at 1.
  rewrite Hen, Hav. cbn [negb orb]. unfold mbind at 1, M_bind at 1. rewrite Hstop.
  destruct (String.eqb_spec (cleanText text) ""); [done |].
  run_M.
  set (w2 := {| isSpeaking := isSpeaking w1; available := available w1; error := None;
                isLoading := true; audioRef := audioRef w1;
                synthesisRef := synthesisRef w1; cacheDBRef := cacheDBRef w1;
                calls := calls w1 |}).
  change (getFromCache p (generateCacheKey (cleanText text) (TTSOptions.voice options))
            (@Build_TTS _ _ _ _ _ _ _ _)) with
    (getFromCache p (generateCacheKey (cleanText text) (TTSOptions.voice options)) w2).
  rewrite (getFromCache_hit p _ w2 db item) by (cbn; congruence || done).
  destruct (playAudioBuffer_spec options p (CacheItem.audioData item)
              (logged [CacheGet (generateCacheKey (cleanText text) (TTSOptions.voice options))] w2))
    as (w4 & Hplay & _ & _ & Hdb4 & (l & Hl & Hnl) & Hpay).
  rewrite Hplay. eexists. eexists. split; [reflexivity |].
  split; [| split; [| split]].
  - unfold payload in *. cbn. apply Hpay; [done |]. cbn. rewrite Haudio1.
    destruct Haudio as [a ->]. by eexists.
  - cbn. rewrite Hl. cbn. rewrite Hcalls1, <- !app_assoc. reflexivity.
  - rewrite !forallb_app, Hnl. cbn. by destruct (audioRef w), (synthesisRef w) as [[[] ?] |].
  - cbn. rewrite Hdb4. cbn. congruence.
Qed.

Lemma speak_populates (options : TTSOptions.t) (p : Platform) (text : string) (w : TTS) :
  TTSOptions.enabled options = true -> available w = true ->
  cleanText text <> "" ->
  is_Some (audioRef w) -> is_Some (cacheDBRef w) ->
  cacheWriteError p = false -> createObjectURLThrows p = false ->
  exists w' db' item,
    speak options p text w = (Ok tt, w') /\
    available w' = true /\
    cacheDBRef w' = Some db' /\
    audioCache db' !! generateCacheKey (cleanText text) (TTSOptions.voice options)
    = Some item /\
    payload w' = Some (CacheItem.audioData item).
Proof.
  intros Hen Hav Hclean Haudio Hdb Hwrite Hurl.
  destruct (stop_spec w) as (w1 & Hstop & _ & Hav1 & _ & _ & Hdb1 & _ & _ & _ & Haudio1 & _).
  assert (is_Some (audioRef w1)) as Haudio1'
    by (rewrite Haudio1; destruct Haudio as [a ->]; by eexists).
  unfold speak. unfold mbind at 1, M_bind at 1, gets at 1.
  rewrite Hen, Hav. cbn [negb orb]. unfold mbind at 1, M_bind at 1. rewrite Hstop.
  destruct (String.eqb_spec (cleanText text) ""); [done |].
  run_M.
  set (key := generateCacheKey (cleanText text) (TTSOptions.voice options)).
  set (w2 := {| isSpeaking := isSpeaking w1; available := available w1; error := None;
                isLoading := true; audioRef := audioRef w1;
                synthesisRef := synthesisRef w1; cacheDBRef := cacheDBRef w1;
                calls := calls w1 |}).
  destruct (getFromCache_spec p key w2) as (r & l & Hget & _ & Hr).
  change (getFromCache p key (@Build_TTS _ _ _ _ _ _ _ _)) with (getFromCache p key w2).
  rewrite Hget. destruct r as [cachedAudio |].
  - destruct (Hr cachedAudio eq_refl) as (db & item & Hdb2 & Hitem & ->).
    destruct (playAudioBuffer_spec options p (CacheItem.audioData item) (logged l w2))
      as (w4 & Hplay & _ & Hav4 & Hdb4 & _ & Hpay).
    rewrite Hplay. eexists. exists db, item. split; [reflexivity |]. cbn.
    split; [rewrite Hav4; cbn; congruence |].
    split; [rewrite Hdb4; exact Hdb2 |]. split; [exact Hitem |].
    apply Hpay; done.
  - rewrite synthesizeTextToAudio_cases.
    set (audioData := match setUpRendering _ _ _ _ with Ok _ => _ | Throw _ => _ end).
    set (w3 := {| isSpeaking := _; calls := _ ++ [Synthesize _ _ _] |}).
    destruct (saveToCache_spec p key audioData (cleanText text) (TTSOptions.voice options) w3)
      as (w4 & Hsave & (Ha4 & _ & Hav4 & _) & _ & Hput).
    destruct Hput as (db' & Hdb' & Hitem'); [done | cbn; by rewrite Hdb1 |].
    rewrite Hsave.
    destruct (playAudioBuffer_spec options p audioData w4)
      as (w5 & Hplay & _ & Hav5 & Hdb5 & _ & Hpay).
    rewrite Hplay. eexists. eexists. eexists. split; [reflexivity |]. cbn.
    split; [rewrite Hav5, Hav4; cbn; congruence |].
    split; [rewrite Hdb5; exact Hdb' |]. split; [exact Hitem' |].
    apply Hpay; [done |]. by rewrite Ha4.
Qed.

(** C4.  With an audio element and an open cache, a first [speak]
    leaves in the cache, under the key of the cleaned text and the voice,
    an entry whose audio data is the clip it handed to the audio element.
    A second [speak] with the same arguments, made while that entry is
    younger than 14 days, hands the audio element the same bytes, makes
    no call to the synthesizer (so none to the encoder, which only the
    synthesizer calls) and leaves the cache as it is. *)
Theorem cache_idempotence (options : TTSOptions.t) (p1 p2 : Platform) (text : string)
    (w0 : TTS) :
  TTSOptions.enabled options = true -> available w0 = true ->
  cleanText text <> "" ->
  is_Some (audioRef w0) -> is_Some (cacheDBRef w0) ->
  cacheWriteError p1 = false -> createObjectURLThrows p1 = false ->
  cacheReadError p2 = false -> createObjectURLThrows p2 = false ->
  exists w1 db1 item,
    speak options p1 text w0 = (Ok tt, w1) /\
    cacheDBRef w1 = Some db1 /\
    audioCache db1 !! generateCacheKey (cleanText text) (TTSOptions.voice options)
    = Some item /\
    payload w1 = Some (CacheItem.audioData item) /\
    ((nowAtGet p2 - CacheItem.timestamp item < retention)%Z ->
     exists w2 l,
       speak options p2 text w1 = (Ok tt, w2) /\
       payload w2 = payload w1 /\
       calls w2 = calls w1 ++ l /\
       forallb (fun c => negb (isSynthesize c)) l = true /\
       cacheDBRef w2 = cacheDBRef w1).
Proof.
  intros Hen Hav Hclean Haudio Hdb Hwrite Hurl1 Hread Hurl2.
  destruct (speak_populates options p1 text w0 Hen Hav Hclean Haudio Hdb Hwrite Hurl1)
    as (w1 & db1 & item & Hspeak & Hav1 & Hdb1 & Hitem & Hpay).
  exists w1, db1, item. repeat split; try done.
  intros Hfresh.
  destruct (speak_cached options p2 text w1 db1 item Hen Hav1 Hclean
              (payload_Some _ _ Hpay) Hdb1 Hitem Hread Hurl2 Hfresh)
    as (w2 & l & Hspeak2 & Hpay2 & Hcalls & Hsyn & Hdb2).
  exists w2, l. repeat split; congruence.
Qed.

Lemma cache_idempotence_witness :
  cleanText "Hello world." <> "" /\
  exists w1 db1 item,
    speak defaultOptions silentPlatform "Hello world." cached = (Ok tt, w1) /\
    cacheDBRef w1 = Some db1 /\
    audioCache db1 !! generateCacheKey (cleanText "Hello world.") "alloy" = Some item /\
    payload w1 = Some (CacheItem.audioData item) /\
    ((nowAtGet aSecondLater - CacheItem.timestamp item < retention)%Z ->
     exists w2 l,
       speak defaultOptions aSecondLater "Hello world." w1 = (Ok tt, w2) /\
       payload w2 = payload w1 /\
       calls w2 = calls w1 ++ l /\
       forallb (fun c => negb (isSynthesize c)) l = true /\
       cacheDBRef w2 = cacheDBRef w1).
Proof.
  assert (cleanText "Hello world." <> "") as Hclean by (vm_compute; discriminate).
  split; [exact Hclean |].
  exact (cache_idempotence defaultOptions silentPlatform aSecondLater "Hello world." cached
           eq_refl eq_refl Hclean (ex_intro _ idleAudio eq_refl)
           (ex_intro _ _ eq_refl) eq_refl eq_refl eq_refl eq_refl).
Defined.

(** The cached clip, replayed twice: the platform never renders. *)
Example replay_cached_clip :
  exists w1 w2,
    speak defaultOptions silentPlatform "Hello world." cached = (Ok tt, w1) /\
    speak defaultOptions aSecondLater "Hello world." w1 = (Ok tt, w2) /\
    payload w1 = Some [82; 73; 70; 70; 1; 2; 3]%Z /\
    payload w2 = Some [82; 73; 70; 70; 1; 2; 3]%Z /\
    calls w2 = [AudioPause; AudioSeek 0; CacheGet helloKey;
                AudioPlay [82; 73; 70; 70; 1; 2; 3]%Z;
                AudioPause; AudioSeek 0; CacheGet helloKey;
                AudioPlay [82; 73; 70; 70; 1; 2; 3]%Z].
Proof.
  eexists. eexists. split; [vm_compute; reflexivity |].
  split; [vm_compute; reflexivity |]. repeat split.
Qed.

(** * Further properties of the hook's code *)

(** ** writeString *)

Lemma charCodeAt_byte (c : ascii) : (charCodeAt c mod 256 = charCodeAt c)%Z.
Proof.
  unfold charCodeAt. pose proof (nat_ascii_bounded c). apply Z.mod_small. lia.
Qed.

Lemma insert_take_drop_Z (l : list Z) (i : nat) (x : Z) :
  i < length l -> <[i := x]> l = take i l ++ x :: drop (S i) l.
Proof. intros H. by apply insert_take_drop. Qed.

Lemma writeChars_spec (cs : list ascii) (view : list Z) (offset : nat) :
  writeChars view offset cs =
  match cs with
  | [] => Ok view
  | _ :: _ =>
      if offset + length cs <=? length view
      then Ok (take offset view ++ map charCodeAt cs ++ drop (offset + length cs) view)
      else Throw RangeError
  end.
Proof.
  revert view offset. induction cs as [| c cs IH]; intros view offset; [done |].
  cbn [writeChars length]. unfold setUint8.
  destruct (Nat.leb_spec (offset + 1) (length view)) as [H1 | H1].
  - cbn [mbind result_bind]. rewrite IH, charCodeAt_byte.
    rewrite insert_take_drop_Z by lia.
    destruct cs as [| c' cs].
    + cbn [map length app].
      destruct (Nat.leb_spec (offset + 1) (length view)); [| lia].
      by replace (offset + 1) with (S offset) by lia.
    + set (n := length (c' :: cs)).
      assert (length (take offset view ++ charCodeAt c :: drop (S offset) view)
              = length view) as L.
      { rewrite length_app, length_take. cbn [length]. rewrite length_drop. lia. }
      rewrite L.
      replace (offset + S n <=? length view) with (S offset + n <=? length view)
        by (f_equal; lia).
      destruct (Nat.leb_spec (S offset + n) (length view)); [| done].
      f_equal. cbn [map].
      assert (length (take offset view ++ [charCodeAt c]) = S offset) as LA
        by (rewrite length_app, length_take; cbn; lia).
      replace (take offset view ++ charCodeAt c :: drop (S offset) view)
        with ((take offset view ++ [charCodeAt c]) ++ drop (S offset) view)
        by (by rewrite <- app_assoc).
      rewrite (take_app_length' _ _ (S offset)) by done.
      rewrite (drop_app_add' _ _ (S offset)) by done.
      rewrite drop_drop, <- app_assoc. cbn [app].
      by replace (offset + S n) with (S offset + n) by lia.
  - destruct (Nat.leb_spec (offset + S (length cs)) (length view)); [lia | done].
Qed.

(** X1.  [writeString] on a string that fits writes the char codes of
    the string at [offset] and leaves every other byte as it was; on a
    non-empty string that does not fit in the buffer it throws a
    RangeError; on the empty string it writes nothing and never throws,
    whatever the offset. *)
Theorem writeString_bounds (view : list Z) (offset : nat) (s : string) :
  writeString view offset s =
  if String.length s =? 0 then Ok view
  else if offset + String.length s <=? length view
  then Ok (take offset view ++ charCodes s ++ drop (offset + String.length s) view)
  else Throw RangeError.
Proof.
  unfold writeString, charCodes. rewrite writeChars_spec.
  assert (length (list_ascii_of_string s) = String.length s) as L.
  { induction s as [| c s IH]; [done |]. cbn. by rewrite IH. }
  rewrite <- L. by destruct (list_ascii_of_string s).
Qed.

(** ** The encoder on any buffer *)

Lemma flat_map_seq_ext {A} (f g : nat -> list A) (len s : nat) :
  (forall i, s <= i < s + len -> f i = g i) ->
  flat_map f (seq s len) = flat_map g (seq s len).
Proof.
  revert s. induction len as [| len IH]; intros s H; [done |].
  cbn [seq flat_map]. rewrite (H s) by lia. f_equal. apply IH. intros i Hi. apply H. lia.
Qed.

Lemma pcmData_take (channels : list (list number)) (numOfChan len : nat) :
  pcmData (take numOfChan channels) numOfChan len = pcmData channels numOfChan len.
Proof.
  unfold pcmData. apply flat_map_seq_ext. intros i _. unfold pcmFrame.
  apply flat_map_seq_ext. intros channel Hc. unfold sampleAt.
  by rewrite lookup_take_lt by lia.
Qed.

Lemma collect_channels_fail (b : AudioBuffer.t) (k c : nat) (acc : list (list number)) :
  c <= length (AudioBuffer.channelData b) ->
  length (AudioBuffer.channelData b) < c + k ->
  c + k <= AudioBuffer.numberOfChannels b ->
  for_loop k c
    (fun i channels =>
       data ← AudioBuffer.getChannelData b i; Ok (channels ++ [data])) acc
  = Throw IndexSizeError.
Proof.
  revert c acc. induction k as [| k IH]; intros c acc Hc Hl Hn; [lia |].
  cbn [for_loop].
  destruct (AudioBuffer.getChannelData b c) as [data | e] eqn:G;
    unfold AudioBuffer.getChannelData in G;
    destruct (Nat.ltb_spec c (AudioBuffer.numberOfChannels b)); try lia;
    destruct (AudioBuffer.channelData b !! c) as [data' |] eqn:Hd; try discriminate.
  - cbn [mbind result_bind]. apply lookup_lt_Some in Hd. apply IH; lia.
  - by injection G as <-.
Qed.

Lemma exportToWavArrayBuffer_enough (b : AudioBuffer.t) :
  AudioBuffer.numberOfChannels b <= length (AudioBuffer.channelData b) ->
  exportToWavArrayBuffer b
  = Ok (wavHeaderOf b
        ++ pcmData (AudioBuffer.channelData b) (AudioBuffer.numberOfChannels b)
             (AudioBuffer.length b)).
Proof.
  intros H. rewrite exportToWavArrayBuffer_unfold. cbn zeta.
  pose proof (collect_channels b (AudioBuffer.numberOfChannels b) 0) as C.
  rewrite take_0, Nat.add_0_l in C. rewrite C by lia. cbn [mbind result_bind].
  pose proof (write_frames (take (AudioBuffer.numberOfChannels b) (AudioBuffer.channelData b))
                (AudioBuffer.numberOfChannels b) (AudioBuffer.length b) 0 (wavHeaderOf b))
    as W.
  change (length (wavHeaderOf b)) with 44 in W. cbn zeta in W.
  rewrite W by (rewrite length_take; lia). cbn [mbind result_bind].
  by rewrite <- (pcmData_take (AudioBuffer.channelData b)).
Qed.

(** X2.  The encoder throws exactly when the buffer announces more
    channels than it has channel data for, and then the exception is the
    IndexSizeError of [getChannelData]; on every other buffer it returns
    the header followed by the frames of the first [numberOfChannels]
    channels, [44 + length * numberOfChannels * 2] bytes in all. *)
Theorem exportToWavArrayBuffer_cases (b : AudioBuffer.t) :
  exportToWavArrayBuffer b =
  if AudioBuffer.numberOfChannels b <=? length (AudioBuffer.channelData b)
  then Ok (wavHeaderOf b
           ++ pcmData (AudioBuffer.channelData b) (AudioBuffer.numberOfChannels b)
                (AudioBuffer.length b))
  else Throw IndexSizeError.
Proof.
  rewrite exportToWavArrayBuffer_unfold. cbn zeta.
  destruct (Nat.leb_spec (AudioBuffer.numberOfChannels b)
              (length (AudioBuffer.channelData b))) as [H | H].
  - pose proof (collect_channels b (AudioBuffer.numberOfChannels b) 0) as C.
    rewrite take_0, Nat.add_0_l in C. rewrite C by lia. cbn [mbind result_bind].
    pose proof (write_frames (take (AudioBuffer.numberOfChannels b) (AudioBuffer.channelData b))
                  (AudioBuffer.numberOfChannels b) (AudioBuffer.length b) 0 (wavHeaderOf b))
      as W.
    change (length (wavHeaderOf b)) with 44 in W. cbn zeta in W.
    rewrite W by (rewrite length_take; lia). cbn [mbind result_bind].
    by rewrite <- (pcmData_take (AudioBuffer.channelData b)).
  - by rewrite (collect_channels_fail b (AudioBuffer.numberOfChannels b) 0 []) by lia.
Qed.

Lemma uint16le_value (v : Z) :
  (0 <= v < 65536)%Z -> (v mod 256 + 256 * (v / 256 mod 256) = v)%Z.
Proof.
  intros H. rewrite (Z.mod_small (v / 256)) by (split; [apply Z.div_pos | apply Z.div_lt_upper_bound]; lia).
  pose proof (Z.div_mod v 256). lia.
Qed.

Lemma uint32le_value (v : Z) :
  (0 <= v < 4294967296)%Z ->
  (v mod 256 + 256 * (v / 256 mod 256) + 65536 * (v / 65536 mod 256)
   + 16777216 * (v / 16777216 mod 256) = v)%Z.
Proof.
  intros H.
  pose proof (Z.div_mod v 256 ltac:(lia)).
  pose proof (Z.div_mod (v / 256) 256 ltac:(lia)).
  pose proof (Z.div_mod (v / 256 / 256) 256 ltac:(lia)).
  rewrite !Z.div_div in * by lia.
  change (256 * 256)%Z with 65536%Z in *. change (65536 * 256)%Z with 16777216%Z in *.
  rewrite (Z.mod_small (v / 16777216))
    by (split; [apply Z.div_pos | apply Z.div_lt_upper_bound]; lia).
  lia.
Qed.

(** X3.  The header the encoder writes describes the file: for a buffer
    with [r] Hz (an integer), whose sizes fit the fields, a reader finds
    the tags RIFF, WAVE, fmt and data, the RIFF length "file size - 8",
    the format PCM (1), the channel count, the sample rate, the byte
    rate "sample rate * channels * 2", the block alignment
    "channels * 2", 16 bits per sample, and the data length
    "file size - 44". *)
Theorem wav_header_fields (b : AudioBuffer.t) (r : Z) :
  AudioBuffer.numberOfChannels b <= length (AudioBuffer.channelData b) ->
  AudioBuffer.sampleRate b = inject_Z r ->
  (0 <= r)%Z ->
  (r * Z.of_nat (AudioBuffer.numberOfChannels b) * 2 < 4294967296)%Z ->
  (r < 4294967296)%Z ->
  (Z.of_nat (AudioBuffer.numberOfChannels b) * 2 < 65536)%Z ->
  (Z.of_nat (44 + AudioBuffer.length b * AudioBuffer.numberOfChannels b * 2) < 4294967296)%Z ->
  exists bytes : list Z,
    exportToWavArrayBuffer b = Ok bytes /\
    take 4 bytes = charCodes "RIFF" /\
    getUint32 bytes 4 = Some (Z.of_nat (length bytes) - 8)%Z /\
    take 8 (drop 8 bytes) = charCodes "WAVEfmt " /\
    getUint32 bytes 16 = Some 16%Z /\
    getUint16 bytes 20 = Some 1%Z /\
    getUint16 bytes 22 = Some (Z.of_nat (AudioBuffer.numberOfChannels b)) /\
    getUint32 bytes 24 = Some r /\
    getUint32 bytes 28 = Some (r * Z.of_nat (AudioBuffer.numberOfChannels b) * 2)%Z /\
    getUint16 bytes 32 = Some (Z.of_nat (AudioBuffer.numberOfChannels b) * 2)%Z /\
    getUint16 bytes 34 = Some 16%Z /\
    take 4 (drop 36 bytes) = charCodes "data" /\
    getUint32 bytes 40 = Some (Z.of_nat (length bytes) - 44)%Z.
Proof.
  intros Hn Hsr Hr Hbr Hr32 Hba Hsize.
  rewrite exportToWavArrayBuffer_enough by done.
  eexists. split; [reflexivity |].
  rewrite length_app, length_pcmData.
  change (length (wavHeaderOf b)) with 44.
  set (pcm := pcmData _ _ _). unfold wavHeaderOf, wavHeader, uint32le, uint16le.
  cbn zeta. rewrite Hsr.
  assert (Qtrunc (inject_Z r) = r) as -> by (unfold Qtrunc; cbn; apply Z.quot_1_r).
  assert (Qtrunc (inject_Z r * inject_Z (Z.of_nat (AudioBuffer.numberOfChannels b)) * 2)
          = (r * Z.of_nat (AudioBuffer.numberOfChannels b) * 2)%Z) as ->
    by (unfold Qtrunc; cbn; apply Z.quot_1_r).
  set (nc := AudioBuffer.numberOfChannels b) in *.
  set (len := AudioBuffer.length b) in *.
  cbn [app take drop]. unfold getUint32, getUint16.
  cbn [lookup list_lookup Nat.add mbind option_bind].
  assert (0 <= r * Z.of_nat nc * 2)%Z by nia.
  rewrite !uint32le_value, !uint16le_value by lia.
  repeat split; try reflexivity; f_equal; lia.
Qed.

Lemma wav_header_fields_witness :
  exists bytes : list Z,
    exportToWavArrayBuffer stereoExample = Ok bytes /\
    getUint32 bytes 4 = Some 44%Z /\
    getUint16 bytes 22 = Some 2%Z /\
    getUint32 bytes 24 = Some 44100%Z /\
    getUint32 bytes 28 = Some 176400%Z /\
    getUint32 bytes 40 = Some 8%Z.
Proof.
  destruct (wav_header_fields stereoExample 44100) as (bytes & E & _ & H4 & _ & _ & _ & H22 & H24 & H28 & _ & _ & _ & H40);
    [cbn; lia | reflexivity | lia | cbn; lia | lia | cbn; lia | cbn; lia |].
  exists bytes. 
  assert (length bytes = 52) as L by (vm_compute in E; injection E as <-; reflexivity).
  rewrite L in H4, H40.
  exact (conj E (conj H4 (conj H22 (conj H24 (conj H28 H40))))).
Defined.

(** ** Quantisation of one sample *)

Lemma Qtrunc_floor (q : Q) : (0 <= q)%Q -> Qtrunc q = Qfloor q.
Proof.
  destruct q as [n d]. unfold Qtrunc, Qle. cbn -[Z.quot Z.div]. intros H.
  apply Z.quot_div_nonneg; lia.
Qed.

Lemma Qtrunc_opp (q : Q) : Qtrunc (- q) = (- Qtrunc q)%Z.
Proof. destruct q as [n d]. unfold Qtrunc. cbn -[Z.quot]. apply Z.quot_opp_l. lia. Qed.

Lemma Qtrunc_le (p q : Q) : (p <= q)%Q -> (Qtrunc p <= Qtrunc q)%Z.
Proof.
  intros H. destruct (Qlt_le_dec p 0) as [Hp | Hp], (Qlt_le_dec q 0) as [Hq | Hq].
  - assert (Qtrunc (- q) <= Qtrunc (- p))%Z; [| rewrite !Qtrunc_opp in *; lia].
    rewrite !Qtrunc_floor by lra. apply Qfloor_resp_le. lra.
  - destruct (Qtrunc_nonneg q Hq).
    assert (0 <= Qtrunc (- p))%Z by (apply Qtrunc_nonneg; lra).
    rewrite Qtrunc_opp in *. lia.
  - lra.
  - rewrite !Qtrunc_floor by lra. by apply Qfloor_resp_le.
Qed.

Lemma clip_Num (q : Q) :
  clip (Num q) = Num (if Qle_bool 1 q then 1 else if Qle_bool (-1) q then q else -1)%Q.
Proof.
  unfold clip. cbn. destruct (Qle_bool 1 q) eqn:E1; cbn; [done |].
  by destruct (Qle_bool (-1) q).
Qed.

Lemma quantize_Num (q : Q) :
  quantize (Num q)
  = Qtrunc ((if Qle_bool 1 q then 1 else if Qle_bool (-1) q then q else -1) * 32767)%Q.
Proof.
  destruct (clip_range (Num q) ltac:(done)) as (c & Hc & Hl & Hu).
  destruct (quantize_spec (Num q) c Hc Hl Hu) as [-> _].
  rewrite clip_Num in Hc. by injection Hc as <-.
Qed.

(** X4.  Quantisation saturates and never wraps around: for finite
    samples [p <= q] the 16-bit values satisfy
    [-32767 <= quantize p <= quantize q <= 32767]; a sample of 1 or more
    gives 32767, a sample of -1 or less gives -32767 (never -32768);
    negating the sample negates the value; NaN gives 0 and the
    infinities give the two extremes. *)
Theorem quantize_saturates (p q : Q) :
  (p <= q)%Q ->
  (-32767 <= quantize (Num p) <= quantize (Num q))%Z /\
  (quantize (Num q) <= 32767)%Z /\
  ((1 <= p)%Q -> quantize (Num p) = 32767%Z) /\
  ((q <= -1)%Q -> quantize (Num q) = (-32767)%Z) /\
  quantize (Num (- p)) = (- quantize (Num p))%Z /\
  quantize NaN = 0%Z /\
  quantize (Infinity false) = 32767%Z /\
  quantize (Infinity true) = (-32767)%Z.
Proof.
  intros Hpq.
  assert (forall x : Q, (-32767 <= quantize (Num x) <= 32767)%Z) as R.
  { intros x. destruct (clip_range (Num x) ltac:(done)) as (c & Hc & Hl & Hu).
    by destruct (quantize_spec (Num x) c Hc Hl Hu). }
  assert (forall x : Q, (1 <= x)%Q -> quantize (Num x) = 32767%Z) as Hi.
  { intros x Hx. rewrite quantize_Num.
    by assert (Qle_bool 1 x = true) as -> by (by apply Qle_bool_iff). }
  assert (forall x : Q, (x <= -1)%Q -> quantize (Num x) = (-32767)%Z) as Lo.
  { intros x Hx. rewrite quantize_Num.
    destruct (Qle_bool 1 x) eqn:E1; [apply Qle_bool_iff in E1; lra |].
    destruct (Qle_bool (-1) x) eqn:E2; [| done].
    apply Qle_bool_iff in E2.
    assert (Qtrunc (- (x * 32767)) = 32767%Z) as T.
    { rewrite Qtrunc_floor by lra.
      assert (- (x * 32767) == inject_Z 32767)%Q as -> by (change (inject_Z 32767) with 32767%Q; lra).
      apply Qfloor_Z. }
    rewrite Qtrunc_opp in T. lia. }
  split; [| split; [| split; [| split; [| split]]]].
  - split; [apply R |]. rewrite !quantize_Num.
    apply Qtrunc_le.
    destruct (Qle_bool 1 p) eqn:P1, (Qle_bool 1 q) eqn:Q1,
             (Qle_bool (-1) p) eqn:P2, (Qle_bool (-1) q) eqn:Q2;
      repeat match goal with
      | H : Qle_bool _ _ = true |- _ => apply Qle_bool_iff in H
      | H : Qle_bool ?a ?b = false |- _ =>
          assert (~ (a <= b)%Q) by (rewrite <- Qle_bool_iff; congruence); clear H
      end; lra.
  - apply R.
  - apply Hi.
  - apply Lo.
  - destruct (Qlt_le_dec p (-1)) as [H1 | H1]; [| destruct (Qlt_le_dec 1 p) as [H2 | H2]].
    + rewrite (Hi (- p)), (Lo p) by lra. done.
    + rewrite (Lo (- p)), (Hi p) by lra. done.
    + rewrite !quantize_Num.
      assert (forall x, (-1 <= x)%Q -> (x <= 1)%Q ->
                Qtrunc ((if Qle_bool 1 x then 1 else if Qle_bool (-1) x then x else -1) * 32767)
                = Qtrunc (x * 32767)) as M.
      { intros x Hl Hu.
        assert (Qle_bool (-1) x = true) as -> by (by apply Qle_bool_iff).
        destruct (Qle_bool 1 x) eqn:E; [| done]. apply Qle_bool_iff in E.
        assert (0 <= x * 32767)%Q by lra.
        rewrite !Qtrunc_floor by lra. apply Qfloor_comp. lra. }
      rewrite !M by lra.
      assert (- p * 32767 == - (p * 32767))%Q as E by lra.
      destruct (Qlt_le_dec p 0).
      * rewrite (Qtrunc_floor (- p * 32767)) by lra. rewrite (Qfloor_comp _ _ E).
        rewrite <- Qtrunc_floor by lra. apply Qtrunc_opp.
      * assert (Qtrunc (- (- p * 32767)) = Qtrunc (p * 32767)) as E'.
        { rewrite !Qtrunc_floor by lra. apply Qfloor_comp. lra. }
        rewrite Qtrunc_opp in E'. lia.
  - done.
Qed.

Lemma quantize_saturates_witness :
  (-3 <= 1 # 2)%Q /\
  quantize (Num (-3)) = (-32767)%Z /\ quantize (Num (1 # 2)) = 16383%Z /\
  (-32767 <= quantize (Num (-3)) <= quantize (Num (1 # 2)))%Z /\
  quantize (Num (- (-3))) = (- quantize (Num (-3)))%Z.
Proof.
  assert (-3 <= 1 # 2)%Q as H by (vm_compute; discriminate).
  destruct (quantize_saturates (-3) (1 # 2) H) as (H1 & _ & _ & _ & H5 & _).
  exact (conj H (conj eq_refl (conj eq_refl (conj H1 H5)))).
Defined.

(** ** The samples of the fallback beep *)

Lemma getInt16_samples (header : list Z) (f : nat -> Z) (n i : nat) :
  i < n ->
  getInt16 (header ++ flat_map (fun i => uint16le (f i)) (seq 0 n)) (length header + 2 * i)
  = Some (wrapInt16 (f i)).
Proof.
  intros Hi.
  assert (forall k, k < 2 ->
    (header ++ flat_map (fun i => uint16le (f i)) (seq 0 n)) !! (length header + 2 * i + k)
    = uint16le (f i) !! k) as L.
  { intros k Hk. rewrite lookup_app_r by lia.
    replace (length header + 2 * i + k - length header) with (i * 2 + k) by lia.
    by rewrite (lookup_flat_map_seq _ 2) by (done || lia). }
  pose proof (getInt16_uint16le (f i)) as G.
  pose proof (L 0 ltac:(lia)) as L0. rewrite Nat.add_0_r in L0.
  unfold getInt16 in *. rewrite (L 1) by lia. rewrite L0. exact G.
Qed.

Lemma beep_amplitude (sr i n : Q) :
  (0 < sr)%Q -> (0 <= i)%Q -> (i < n)%Q ->
  (0 <= (if negb (Qle_bool (0.05 * sr) i) then i / (0.05 * sr)
         else if negb (Qle_bool i (n - 0.05 * sr)) then (n - i) / (0.05 * sr)
         else 0.8) <= 1)%Q.
Proof.
  intros Hsr Hi Hn.
  assert (0 < 0.05 * sr)%Q as Hk by lra.
  destruct (Qle_bool (0.05 * sr) i) eqn:E1; cbn [negb].
  - destruct (Qle_bool i (n - 0.05 * sr)) eqn:E2; cbn [negb]; [lra |].
    assert (~ (i <= n - 0.05 * sr)%Q) by (rewrite <- Qle_bool_iff; congruence).
    split; [apply Qle_shift_div_l | apply Qle_shift_div_r]; lra.
  - assert (~ (0.05 * sr <= i)%Q) by (rewrite <- Qle_bool_iff; congruence).
    split; [apply Qle_shift_div_l | apply Qle_shift_div_r]; lra.
Qed.

Lemma beepSample_range (p : Platform) (sr : Q) (n : Z) (i : nat) :
  (0 < sr)%Q -> (Z.of_nat i < n)%Z ->
  (forall x, -1 <= Math_sin p x <= 1)%Q ->
  (inject_Z (- 32767) <= beepSample p sr n i <= inject_Z 32767)%Q.
Proof.
  intros Hsr Hi Hsin. unfold beepSample. cbn zeta.
  set (s := Math_sin p _). pose proof (Hsin (inject_Z (Z.of_nat i) * 440 * Math_PI p * 2 / sr)%Q)
    as Hs. fold s in Hs.
  assert (0 <= inject_Z (Z.of_nat i))%Q as Hi0
    by (change 0%Q with (inject_Z 0); rewrite <- Zle_Qle; lia).
  assert (inject_Z (Z.of_nat i) < inject_Z n)%Q as Hin by (by rewrite <- Zlt_Qlt).
  pose proof (beep_amplitude sr _ _ Hsr Hi0 Hin) as Ha.
  set (a := if negb _ then _ else _) in *.
  clearbody s a.
  change (inject_Z (-32767)) with (-32767)%Q. change (inject_Z 32767) with 32767%Q.
  assert (0 <= (1 - s) * a)%Q by (apply Qmult_le_0_compat; lra).
  assert (0 <= (1 + s) * a)%Q by (apply Qmult_le_0_compat; lra).
  lra.
Qed.

(** X5.  With a sample rate above 0 and a sine between -1 and 1, the
    beep is built without an exception and no sample overflows 16 bits:
    sample [i] of the file reads back as the product
    sine * amplitude * 0x7FFF truncated, between -32767 and 32767, and
    the first sample is 0, the start of the fade-in. *)
Theorem beep_samples_in_range (p : Platform) (sr : Q) :
  (0 < sr)%Q ->
  (forall x, -1 <= Math_sin p x <= 1)%Q ->
  exists bytes : list Z,
    createFallbackBeep p sr = Ok bytes /\
    length bytes = 44 + Z.to_nat (Qfloor (sr * 0.5)) * 2 /\
    forall i, i < Z.to_nat (Qfloor (sr * 0.5)) ->
      exists v,
        getInt16 bytes (44 + 2 * i) = Some v /\
        v = Qtrunc (beepSample p sr (Qfloor (sr * 0.5)) i) /\
        (-32767 <= v <= 32767)%Z /\
        (i = 0 -> v = 0%Z).
Proof.
  intros Hsr Hsin. exists (beepFile p sr).
  split; [apply createFallbackBeep_correct; lra |].
  split; [apply length_beepFile |].
  intros i Hi. set (n := Qfloor (sr * 0.5)) in *.
  pose proof (beepSample_range p sr n i Hsr ltac:(lia) Hsin) as [Rl Ru].
  pose proof (Qtrunc_range _ 32767 Rl Ru) as R.
  exists (Qtrunc (beepSample p sr n i)). split; [| split; [done | split; [done |]]].
  - unfold beepFile. cbn zeta. fold n.
    change 44 with (length (wavHeader (36 + n * 2) 1 (Qtrunc sr) (Qtrunc (sr * 2)) 2 (n * 2))).
    rewrite (getInt16_samples _ (fun i => ToInt16 (Num (beepSample p sr n i)))) by done.
    cbn [ToInt16]. by rewrite !wrapInt16_id by (rewrite ?wrapInt16_id; lia).
  - intros ->. unfold beepSample. cbn zeta.
    assert (Qle_bool (0.05 * sr) (inject_Z (Z.of_nat 0)) = false) as ->.
    { destruct (Qle_bool _ _) eqn:E; [| done]. apply Qle_bool_iff in E.
      change (inject_Z (Z.of_nat 0)) with 0%Q in E. lra. }
    cbn [negb]. set (s := Math_sin p _).
    assert (s * (inject_Z (Z.of_nat 0) / (0.05 * sr)) * 32767 == 0)%Q as E
      by (change (inject_Z (Z.of_nat 0)) with 0%Q; unfold Qdiv; ring).
    rewrite Qtrunc_floor by lra. by rewrite (Qfloor_comp _ _ E).
Qed.

Lemma beep_samples_in_range_witness :
  (0 < 8000)%Q /\
  exists bytes : list Z,
    createFallbackBeep silentPlatform 8000 = Ok bytes /\
    Z.of_nat (length bytes) = 8044%Z /\
    getInt16 bytes 44 = Some 0%Z.
Proof.
  split; [reflexivity |].
  destruct (beep_samples_in_range silentPlatform 8000 eq_refl) as (bytes & E & L & H).
  { intros x. split; vm_compute; discriminate. }
  exists bytes. split; [exact E |]. split; [rewrite L; reflexivity |].
  destruct (H 0) as (v & G & _ & _ & Z0); [vm_compute; lia |].
  rewrite (Z0 eq_refl) in G. exact G.
Defined.

(** ** The cache key *)

Lemma generateCacheKey_textHash (text voice : string) :
  generateCacheKey text voice
  = voice +:+ "_" +:+ pretty (textHash text) +:+ "_" +:+ String.substring 0 20 text.
Proof. reflexivity. Qed.

Lemma wrapInt32_ex (x : Z) : exists k, wrapInt32 x = (x + 4294967296 * k)%Z.
Proof.
  unfold wrapInt32. cbn zeta. pose proof (Z.div_mod x 4294967296 ltac:(lia)) as E.
  destruct (2147483648 <=? x mod 4294967296)%Z.
  - exists (- (x / 4294967296) - 1)%Z. lia.
  - exists (- (x / 4294967296))%Z. lia.
Qed.

Lemma wrapInt32_congr (x y k : Z) : x = (y + 4294967296 * k)%Z -> wrapInt32 x = wrapInt32 y.
Proof.
  intros ->. unfold wrapInt32. cbn zeta.
  by rewrite (Z.mul_comm 4294967296 k), Z.mod_add by lia.
Qed.

Lemma wrapInt32_range (x : Z) : (-2147483648 <= wrapInt32 x < 2147483648)%Z.
Proof.
  unfold wrapInt32. cbn zeta. pose proof (Z.mod_pos_bound x 4294967296 ltac:(lia)).
  destruct (Z.leb_spec 2147483648 (x mod 4294967296)); lia.
Qed.

Lemma hash_fold (cs : list ascii) (a : Z) :
  fold_left (fun hash c => wrapInt32 (wrapInt32 (hash * 32) - hash + charCodeAt c))
            cs (wrapInt32 a)
  = wrapInt32 (polynomial31 cs a).
Proof.
  revert a. induction cs as [| c cs IH]; intros a; [done |].
  cbn [fold_left polynomial31]. rewrite <- IH. f_equal.
  destruct (wrapInt32_ex a) as [k1 E1]. destruct (wrapInt32_ex (wrapInt32 a * 32)) as [k2 E2].
  apply (wrapInt32_congr _ _ (31 * k1 + k2)). rewrite E2, E1. lia.
Qed.

Lemma textHash_wrap (text : string) :
  textHash text = wrapInt32 (polynomial31 (list_ascii_of_string text) 0).
Proof. exact (hash_fold (list_ascii_of_string text) 0). Qed.

(** X6.  The hash inside the cache key is the polynomial hash in base 31
    of the char codes (the first character weighs most), reduced to a
    signed 32-bit integer; it is always in the int32 range. *)
Theorem textHash_polynomial (text : string) :
  textHash text = wrapInt32 (polynomial31 (list_ascii_of_string text) 0) /\
  (-2147483648 <= textHash text < 2147483648)%Z /\
  exists k, textHash text = (polynomial31 (list_ascii_of_string text) 0 + 4294967296 * k)%Z.
Proof.
  assert (textHash text = wrapInt32 (polynomial31 (list_ascii_of_string text) 0)) as E
    by exact (hash_fold (list_ascii_of_string text) 0).
  split; [exact E |]. rewrite E. split; [apply wrapInt32_range | apply wrapInt32_ex].
Qed.

Lemma list_ascii_of_string_app (s t : string) :
  list_ascii_of_string (s +:+ t) = list_ascii_of_string s ++ list_ascii_of_string t.
Proof. induction s as [| c s IH]; [done |]. cbn. by rewrite <- IH. Qed.

Lemma polynomial31_app (cs ds : list ascii) (a : Z) :
  polynomial31 (cs ++ ds) a = polynomial31 ds (polynomial31 cs a).
Proof. apply fold_left_app. Qed.

Lemma substring_app (n : nat) (s t : string) :
  n <= String.length s -> String.substring 0 n (s +:+ t) = String.substring 0 n s.
Proof.
  revert s. induction n as [| n IH]; intros s H.
  - by destruct s, t.
  - destruct s as [| c s]; cbn in H; [lia |].
    change (String c (String.substring 0 n (s +:+ t)) = String c (String.substring 0 n s)).
    f_equal. apply IH. lia.
Qed.

Lemma string_app_inj (s t u : string) : s +:+ t = s +:+ u -> t = u.
Proof. induction s as [| c s IH]; [done |]. cbn. intros [= H]. by apply IH. Qed.

(** X7.  The cache key does not identify the text: any two texts that
    share a prefix of at least 20 characters and end in "Aa" and in "BB"
    get the same key for every voice, although the texts differ. *)
Theorem cache_key_collision (prefix voice : string) :
  20 <= String.length prefix ->
  generateCacheKey (prefix +:+ "Aa") voice = generateCacheKey (prefix +:+ "BB") voice /\
  prefix +:+ "Aa" <> prefix +:+ "BB".
Proof.
  intros H. split.
  - rewrite !generateCacheKey_textHash, !substring_app by done.
    rewrite !textHash_wrap, !list_ascii_of_string_app, !polynomial31_app.
    do 4 f_equal. cbn [list_ascii_of_string polynomial31 fold_left]. unfold charCodeAt.
    change (Z.of_nat (nat_of_ascii "A")) with 65%Z.
    change (Z.of_nat (nat_of_ascii "a")) with 97%Z.
    change (Z.of_nat (nat_of_ascii "B")) with 66%Z.
    f_equal. lia.
  - intros E. apply string_app_inj in E. discriminate E.
Qed.

Lemma cache_key_collision_witness :
  20 <= String.length "The quick brown fox " /\
  generateCacheKey "The quick brown fox Aa" "alloy"
  = generateCacheKey "The quick brown fox BB" "alloy" /\
  "The quick brown fox Aa"%string <> "The quick brown fox BB"%string.
Proof.
  assert (20 <= String.length "The quick brown fox ") as H by (cbn; lia).
  split; [exact H |]. exact (cache_key_collision "The quick brown fox " "alloy" H).
Defined.

(** ** Cache: what is saved is what is read *)

(** X8.  With an open database, [saveToCache] followed by [getFromCache]
    for the same key gives back the saved audio exactly when less than
    14 days (14 * 24 * 60 * 60 * 1000 ms) lie between the write and the
    read; at 14 days to the millisecond the entry is already a miss.  The
    write also appends one usage record (the voice, the length of the
    text, generated) and neither call changes anything else in the
    database. *)
Theorem cache_round_trip (p1 p2 : Platform) (w : TTS) (db : IDBDatabase)
    (cacheKey : string) (audioData : ArrayBuffer) (text voice : string) :
  cacheDBRef w = Some db ->
  cacheWriteError p1 = false ->
  cacheReadError p2 = false ->
  exists w1 w2 db1,
    saveToCache p1 cacheKey audioData text voice w = (Ok tt, w1) /\
    cacheDBRef w1 = Some db1 /\
    ttsStats db1
    = ttsStats db ++ [UsageStat.mk (nowAtPut p1) voice (String.length text) true] /\
    (forall k, k <> cacheKey -> audioCache db1 !! k = audioCache db !! k) /\
    getFromCache p2 cacheKey w1
    = (Ok (if (nowAtGet p2 - nowAtPut p1 <? retention)%Z then Some audioData else None),
       w2) /\
    cacheDBRef w2 = Some db1.
Proof.
  intros Hdb Hwrite Hread.
  unfold saveToCache, getFromCache. run_M. rewrite Hdb, Hwrite. cbn.
  eexists. eexists. eexists. split; [reflexivity |]. cbn. split; [reflexivity |].
  cbn. split; [reflexivity |]. split; [intros k Hk; by apply lookup_insert_ne |].
  rewrite Hread, lookup_insert_eq. cbn. unfold retention.
  destruct (_ <? _)%Z; split; reflexivity.
Qed.

Lemma cache_round_trip_witness :
  cacheDBRef idle = Some {| audioCache := ∅; ttsStats := [] |} /\
  exists w1 w2 w3,
    saveToCache silentPlatform helloKey [1; 2; 3]%Z "Hello world." "alloy" idle = (Ok tt, w1) /\
    getFromCache aSecondLater helloKey w1 = (Ok (Some [1; 2; 3]%Z), w2) /\
    getFromCache twoWeeksLater helloKey w1 = (Ok None, w3).
Proof.
  split; [reflexivity |].
  destruct (cache_round_trip silentPlatform aSecondLater idle _ helloKey [1; 2; 3]%Z
              "Hello world." "alloy" eq_refl eq_refl eq_refl)
    as (w1 & w2 & db1 & Hsave & _ & _ & _ & Hget & _).
  destruct (cache_round_trip silentPlatform twoWeeksLater idle _ helloKey [1; 2; 3]%Z
              "Hello world." "alloy" eq_refl eq_refl eq_refl)
    as (w1' & w3 & db1' & Hsave' & _ & _ & _ & Hget' & _).
  rewrite Hsave in Hsave'. injection Hsave' as <-.
  exists w1, w2, w3. exact (conj Hsave (conj Hget Hget')).
Defined.

(** ** Playing a clip *)

(** X9.  [playAudioBuffer] never throws.  When the clip reaches the
    audio element and [play()] resolves, the element holds the clip from
    position 0 at the playback rate of the options, it is not paused,
    [isSpeaking] is true and [error] is untouched.  When the object URL
    cannot be made, or [play()] rejects, [error] holds a message, and a
    native engine, if there is one, is asked to speak the apology; in no
    case is the native engine asked to speak anything else. *)
Theorem playAudioBuffer_outcomes (options : TTSOptions.t) (p : Platform)
    (audioData : ArrayBuffer) (w : TTS) :
  exists w' l,
    playAudioBuffer options p audioData w = (Ok tt, w') /\
    calls w' = calls w ++ l /\
    (forall text, In (SynthesisSpeak text) l -> text = apology) /\
    (createObjectURLThrows p = false -> playRejects p = false -> is_Some (audioRef w) ->
     audioRef w' = Some {| src := Some audioData; paused := false; currentTime := 0;
                           playbackRate := TTSOptions.rate options |} /\
     isSpeaking w' = true /\ error w' = error w /\ l = [AudioPlay audioData]) /\
    (createObjectURLThrows p = true \/ (playRejects p = true /\ is_Some (audioRef w)) ->
     is_Some (error w') /\
     (is_Some (synthesisRef w) -> In (SynthesisSpeak apology) l)).
Proof.
  unfold playAudioBuffer, useBrowserTTS. run_M.
  destruct (createObjectURLThrows p), (playRejects p);
    destruct w as [sp av er lo [[sr pa ct pr] |] [[sk us] |] db cs]; cbn.
  all: eexists; eexists; (split; [reflexivity |]); cbn.
  all: split; [rewrite <- ?app_assoc; reflexivity || (symmetry; apply app_nil_r) |].
  all: split; [intros text Ht; cbn in Ht;
               repeat (destruct Ht as [Ht | Ht]; [by inversion Ht |]); destruct Ht |].
  all: split;
    [ intros Hu Hp Ha; try discriminate; try (by destruct Ha); repeat split; done
    | intros [Hu | [Hp Ha]]; try discriminate; try (by destruct Ha);
      (split; [by eexists | intros Hs; try (by destruct Hs); cbn; tauto]) ].
Qed.

Lemma playAudioBuffer_outcomes_witness :
  exists w',
    playAudioBuffer defaultOptions silentPlatform [1; 2; 3]%Z idle = (Ok tt, w') /\
    audioRef w' = Some {| src := Some [1; 2; 3]%Z; paused := false; currentTime := 0;
                          playbackRate := 1 |} /\
    isSpeaking w' = true /\
    calls w' = [AudioPlay [1; 2; 3]%Z].
Proof.
  destruct (playAudioBuffer_outcomes defaultOptions silentPlatform [1; 2; 3]%Z idle)
    as (w' & l & E & Hc & _ & Hok & _).
  destruct Hok as (Ha & Hs & _ & Hl); [reflexivity | reflexivity | by eexists |].
  exists w'. rewrite Hl in Hc. exact (conj E (conj Ha (conj Hs Hc))).
Defined.

(** ** [speak]: the whole flow *)

Lemma getFromCache_miss (p : Platform) (cacheKey : string) (w : TTS) (db : IDBDatabase) :
  cacheDBRef w = Some db ->
  audioCache db !! cacheKey = None ->
  getFromCache p cacheKey w = (Ok None, logged [CacheGet cacheKey] w).
Proof.
  intros Hdb Hitem. unfold getFromCache. run_M. rewrite Hdb, Hitem.
  by destruct (cacheReadError p).
Qed.

(** X10.  A cache miss, from start to finish.  With the hook enabled,
    an audio element, an open cache without an entry for the key, a
    cache that takes the write and an element that plays, [speak] makes
    exactly these calls after those of [stop]: the cache lookup, the
    synthesis of the cleaned text, the cache write of the synthesized
    clip under the same key, and the playback of that clip.  It ends with
    the clip playing from 0 at the rate of the options, [isSpeaking]
    true, [isLoading] false, no error, the clip in the cache and one
    usage record more. *)
Theorem speak_miss_trace (options : TTSOptions.t) (p : Platform) (text : string) (w : TTS)
    (audio : HTMLAudioElement) (db : IDBDatabase) :
  TTSOptions.enabled options = true -> available w = true ->
  cleanText text <> "" ->
  audioRef w = Some audio -> cacheDBRef w = Some db ->
  audioCache db !! generateCacheKey (cleanText text) (TTSOptions.voice options) = None ->
  cacheWriteError p = false -> createObjectURLThrows p = false -> playRejects p = false ->
  exists audioData w',
    synthesizeTextToAudio p (cleanText text) (TTSOptions.voice options)
      (TTSOptions.rate options) = Ok audioData /\
    speak options p text w = (Ok tt, w') /\
    calls w' =
      calls w ++ [AudioPause; AudioSeek 0]
      ++ (match synthesisRef w with
          | Some s => if speaking s then [SynthesisCancel] else []
          | None => []
          end)
      ++ [CacheGet (generateCacheKey (cleanText text) (TTSOptions.voice options));
          Synthesize (cleanText text) (TTSOptions.voice options) (TTSOptions.rate options);
          CachePut (generateCacheKey (cleanText text) (TTSOptions.voice options)) audioData;
          AudioPlay audioData] /\
    audioRef w' = Some {| src := Some audioData; paused := false; currentTime := 0;
                          playbackRate := TTSOptions.rate options |} /\
    isSpeaking w' = true /\ isLoading w' = false /\ error w' = None /\
    cacheDBRef w' =
      Some {| audioCache :=
                <[generateCacheKey (cleanText text) (TTSOptions.voice options) :=
                    CacheItem.mk
                      (generateCacheKey (cleanText text) (TTSOptions.voice options))
                      (nowAtPut p) (TTSOptions.voice options)
                      (String.length (cleanText text)) audioData]> (audioCache db);
              ttsStats :=
                ttsStats db
                ++ [UsageStat.mk (nowAtPut p) (TTSOptions.voice options)
                      (String.length (cleanText text)) true] |}.
Proof.
  intros Hen Hav Hclean Haudio Hdb Hitem Hwrite Hurl Hplay.
  destruct (stop_spec w)
    as (w1 & Hstop & _ & _ & _ & _ & Hdb1 & _ & _ & Hcalls1 & Haudio1 & _).
  rewrite Haudio in Hcalls1, Haudio1. rewrite Hdb in Hdb1. cbn in Haudio1.
  unfold speak. unfold mbind at 1, M_bind at 1, gets at 1.
  rewrite Hen, Hav. cbn [negb orb]. unfold mbind at 1, M_bind at 1. rewrite Hstop.
  destruct (String.eqb_spec (cleanText text) ""); [done |].
  rewrite synthesizeTextToAudio_cases.
  set (audioData := match setUpRendering _ _ _ _ with Ok _ => _ | Throw _ => _ end).
  set (key := generateCacheKey (cleanText text) (TTSOptions.voice options)) in *.
  clearbody audioData key. revert Hclean n. generalize (cleanText text). intros clean _ _.
  exists audioData. eexists. split; [reflexivity |].
  unfold playAudioBuffer, saveToCache. run_M.
  erewrite (getFromCache_miss p key) by (cbn; eassumption).
  unfold logged. cbn. rewrite Hdb1, Hwrite, Hurl, Haudio1. cbn. rewrite Hplay. cbn.
  split; [reflexivity |]. cbn. rewrite Hcalls1, <- !app_assoc. cbn.
  repeat split.
Qed.

Lemma speak_miss_trace_witness :
  cleanText "Hello world." <> "" /\
  exists audioData w',
    speak defaultOptions silentPlatform "Hello world." idle = (Ok tt, w') /\
    calls w' =
      calls idle ++ [AudioPause; AudioSeek 0]
      ++ (match synthesisRef idle with
          | Some s => if speaking s then [SynthesisCancel] else []
          | None => []
          end)
      ++ [CacheGet (generateCacheKey (cleanText "Hello world.") "alloy");
          Synthesize (cleanText "Hello world.") "alloy" 1;
          CachePut (generateCacheKey (cleanText "Hello world.") "alloy") audioData;
          AudioPlay audioData] /\
    isSpeaking w' = true /\ isLoading w' = false.
Proof.
  assert (cleanText "Hello world." <> "") as Hclean by (vm_compute; discriminate).
  split; [exact Hclean |].
  destruct (speak_miss_trace defaultOptions silentPlatform "Hello world." idle idleAudio
              {| audioCache := ∅; ttsStats := [] |}
              eq_refl eq_refl Hclean eq_refl eq_refl (lookup_empty _) eq_refl eq_refl eq_refl)
    as (audioData & w' & _ & Hspeak & Hcalls & _ & Hsp & Hlo & _).
  exists audioData, w'. exact (conj Hspeak (conj Hcalls (conj Hsp Hlo))).
Defined.

(** X11.  [speak] never throws and always returns, whatever the
    platform does and whatever the state: the outer handler and the
    [finally] block see to it.  It leaves [available] as it was and only
    adds to the calls made; once past the guard with a non-empty cleaned
    text it ends with [isLoading] false, and in every other case
    [isLoading] is what it was. *)
Theorem speak_settles (options : TTSOptions.t) (p : Platform) (text : string) (w : TTS) :
  exists w',
    speak options p text w = (Ok tt, w') /\
    available w' = available w /\
    (exists l, calls w' = calls w ++ l) /\
    isLoading w' =
      (if negb (TTSOptions.enabled options) || negb (available w) then isLoading w
       else if (cleanText text =? "")%string then isLoading w
       else false).
Proof.
  destruct (stop_spec w) as (w1 & Hstop & _ & Hav1 & _ & Hlo1 & _ & _ & _ & Hcalls1 & _).
  unfold speak. unfold mbind at 1, M_bind at 1, gets at 1.
  destruct (negb (TTSOptions.enabled options) || negb (available w)).
  { exists w. repeat split. exists []. by rewrite app_nil_r. }
  unfold mbind at 1, M_bind at 1. rewrite Hstop.
  destruct (cleanText text =? "")%string.
  { exists w1. repeat split; try done. by eexists. }
  run_M.
  set (key := generateCacheKey (cleanText text) (TTSOptions.voice options)).
  set (w2 := {| isSpeaking := isSpeaking w1; available := available w1; error := None;
                isLoading := true; audioRef := audioRef w1;
                synthesisRef := synthesisRef w1; cacheDBRef := cacheDBRef w1;
                calls := calls w1 |}).
  destruct (getFromCache_spec p key w2) as (r & l & Hget & _ & _).
  change (getFromCache p key (@Build_TTS _ _ _ _ _ _ _ _)) with (getFromCache p key w2).
  rewrite Hget.
  assert (forall w3 w4 : TTS,
            available w3 = available w -> (exists l3, calls w3 = calls w ++ l3) ->
            started w3 w4 -> available w4 = available w3 ->
            let w5 := {| isSpeaking := isSpeaking w4; available := available w4;
                         error := error w4; isLoading := false; audioRef := audioRef w4;
                         synthesisRef := synthesisRef w4; cacheDBRef := cacheDBRef w4;
                         calls := calls w4 |} in
            available w5 = available w /\ (exists l5, calls w5 = calls w ++ l5) /\
            isLoading w5 = false) as Finish.
  { intros w3 w4 A3 [l3 C3] [_ [l4 C4]] A4 w5. cbn. split; [congruence |].
    split; [| done]. exists (l3 ++ l4). by rewrite C4, C3, app_assoc. }
  assert (exists l2, calls (logged l w2) = calls w ++ l2) as C2
    by (eexists; cbn; by rewrite Hcalls1, <- !app_assoc).
  destruct r as [cachedAudio |].
  - destruct (playAudioBuffer_spec options p cachedAudio (logged l w2))
      as (w4 & Hplay & S & A & _).
    rewrite Hplay. eexists. split; [reflexivity |].
    exact (Finish (logged l w2) w4 Hav1 C2 S A).
  - set (w3 := {| isSpeaking := _; calls := _ ++ [Synthesize _ _ _] |}).
    assert (exists l3, calls w3 = calls w ++ l3) as C3
      by (destruct C2 as [l2 E2]; eexists; cbn; cbn in E2; by rewrite E2, <- app_assoc).
    destruct (synthesizeTextToAudio p (cleanText text) (TTSOptions.voice options)
                (TTSOptions.rate options)) as [audioData | e].
    + destruct (saveToCache_spec p key audioData (cleanText text) (TTSOptions.voice options) w3)
        as (w4 & Hsave & (_ & _ & A4 & l4 & C4) & _).
      rewrite Hsave.
      destruct (playAudioBuffer_spec options p audioData w4) as (w5 & Hplay & S & A & _).
      rewrite Hplay. eexists. split; [reflexivity |].
      refine (Finish w4 w5 _ _ S A).
      * rewrite A4. exact Hav1.
      * destruct C3 as [l3 E3]. exists (l3 ++ l4). by rewrite C4, E3, app_assoc.
    + destruct (useBrowserTTS_spec options (cleanText text) w3) as (w4 & Hnative & S & A).
      rewrite Hnative. eexists. split; [reflexivity |].
      exact (Finish w3 w4 Hav1 C3 S A).
Qed.

(** X12.  [stop] twice is [stop] once, but for the calls: the second
    [stop] pauses and rewinds the audio element again when there is one,
    never cancels the native engine, and leaves every field of the state
    as the first [stop] left it. *)
Theorem stop_twice (w : TTS) :
  exists w1 w2,
    stop w = (Ok tt, w1) /\
    stop w1 = (Ok tt, w2) /\
    w2 = logged (match audioRef w with Some _ => [AudioPause; AudioSeek 0] | None => [] end) w1.
Proof.
  unfold stop, logged. run_M.
  destruct w as [sp av er lo [audio |] [[[] us] |] db cs]; cbn.
  all: eexists; eexists; (split; [reflexivity |]); cbn; (split; [reflexivity |]); cbn.
  all: rewrite <- ?app_assoc, ?app_nil_r; reflexivity.
Qed.

(** ** The synthesizer: when it renders and when it falls silent *)

(** *** The arithmetic in doubles: rounding error, sign and overflow *)

Module DoubleFacts.
Import Double.

Lemma pow2_pos (k : Z) : (0 < 2 ^ k)%Q.
Proof. by apply Qpower_0_lt. Qed.

Lemma pow2_add (a b : Z) : (2 ^ (a + b) == 2 ^ a * 2 ^ b)%Q.
Proof. by apply Qpower_plus. Qed.

Lemma pow2_nat (k : Z) : (0 <= k)%Z -> (2 ^ k == inject_Z (2 ^ k))%Q.
Proof. intros H. by rewrite Zpower_Qpower. Qed.

Lemma floorLog2_le (a : Q) : (0 < a)%Q -> (2 ^ floorLog2 a <= a)%Q.
Proof.
  intros Ha. unfold floorLog2. cbn zeta.
  set (ln := Z.log2 (Qnum a)). set (ld := Z.log2 (Z.pos (Qden a))).
  destruct (Qle_bool (2 ^ (ln - ld)) a) eqn:E; [by apply Qle_bool_iff |].
  assert (0 < Qnum a)%Z as Hn by (destruct a as [n d]; unfold Qlt in Ha; cbn in *; lia).
  pose proof (Z.log2_spec (Qnum a) Hn) as [Ln _]. fold ln in Ln.
  pose proof (Z.log2_spec (Z.pos (Qden a)) ltac:(lia)) as [_ Ld]. fold ld in Ld.
  pose proof (Z.log2_nonneg (Qnum a)) as Pn. fold ln in Pn.
  pose proof (Z.log2_nonneg (Z.pos (Qden a))) as Pd. fold ld in Pd.
  replace (ln - ld - 1)%Z with (ln + - (ld + 1))%Z by lia.
  rewrite pow2_add, Qpower_opp, !pow2_nat by lia.
  change (inject_Z (2 ^ ln) * / inject_Z (2 ^ (ld + 1)))%Q
    with (inject_Z (2 ^ ln) / inject_Z (2 ^ (ld + 1)))%Q.
  unfold Z.succ in Ld.
  assert (0 < 2 ^ (ld + 1))%Z as Hp by lia.
  apply Qle_shift_div_r.
  - change 0%Q with (inject_Z 0). by rewrite <- Zlt_Qlt.
  - destruct a as [n d]. unfold Qle. cbn in *. nia.
Qed.

Lemma roundHalfEven_error (m : Q) : (Qabs (inject_Z (roundHalfEven m) - m) <= 1 # 2)%Q.
Proof.
  unfold roundHalfEven. cbn zeta.
  pose proof (Qfloor_le m) as Hl. pose proof (Qlt_floor m) as Hu.
  rewrite inject_Z_plus in Hu. change (inject_Z 1) with 1%Q in Hu.
  apply Qabs_Qle_condition.
  destruct (Qle_bool (m - inject_Z (Qfloor m)) (1 # 2)) eqn:E1.
  - apply Qle_bool_iff in E1.
    destruct (Qle_bool (1 # 2) (m - inject_Z (Qfloor m))) eqn:E2.
    + apply Qle_bool_iff in E2. destruct (Z.even (Qfloor m)).
      * lra.
      * rewrite inject_Z_plus. change (inject_Z 1) with 1%Q. lra.
    + lra.
  - assert (~ (m - inject_Z (Qfloor m) <= 1 # 2)%Q) by (rewrite <- Qle_bool_iff; congruence).
    rewrite inject_Z_plus. change (inject_Z 1) with 1%Q. lra.
Qed.

(** The relative error of rounding is at most half a unit in the last
    place. *)
Lemma roundTo_error (prec : Z) (x : Q) :
  (Qabs (roundTo prec x - x) <= 2 ^ (- prec) * Qabs x)%Q.
Proof.
  unfold roundTo. destruct (Qeq_bool x 0) eqn:E0.
  { apply Qeq_bool_eq in E0. rewrite E0. cbn. rewrite Qmult_0_r. discriminate. }
  apply Qeq_bool_neq in E0. cbn zeta. rewrite Qred_correct.
  set (a := Qabs x).
  assert (0 < a)%Q as Ha.
  { unfold a. destruct (Qlt_le_dec 0 x); [rewrite Qabs_pos; lra |].
    rewrite Qabs_neg by done. lra. }
  set (b := floorLog2 a). pose proof (floorLog2_le a Ha) as Hb. fold b in Hb.
  set (e := (b - (prec - 1))%Z).
  pose proof (pow2_pos e) as He.
  pose proof (roundHalfEven_error (a / 2 ^ e)) as Hr.
  set (n := inject_Z (roundHalfEven (a / 2 ^ e))) in *.
  apply Qabs_Qle_condition in Hr.
  assert (a / 2 ^ e * 2 ^ e == a)%Q as Hm by (field; lra).
  assert (- ((1 # 2) * 2 ^ e) <= n * 2 ^ e - a <= (1 # 2) * 2 ^ e)%Q as Hd.
  { assert ((n - a / 2 ^ e) * 2 ^ e == n * 2 ^ e - a)%Q as <- by (rewrite <- Hm at 2; ring).
    split.
    - assert (0 <= (n - a / 2 ^ e + (1 # 2)) * 2 ^ e)%Q by (apply Qmult_le_0_compat; lra).
      lra.
    - assert (0 <= ((1 # 2) - (n - a / 2 ^ e)) * 2 ^ e)%Q by (apply Qmult_le_0_compat; lra).
      lra. }
  assert ((1 # 2) * 2 ^ e <= 2 ^ (- prec) * a)%Q as Hu.
  { assert ((1 # 2) * 2 ^ e == 2 ^ (- prec) * 2 ^ b)%Q as ->.
    { unfold e. replace (b - (prec - 1))%Z with (- prec + b + 1)%Z by lia.
      rewrite !pow2_add. change (2 ^ 1)%Q with 2%Q. ring. }
    apply Qmult_le_l; [apply pow2_pos | done]. }
  apply Qabs_Qle_condition.
  destruct (Qle_bool 0 x) eqn:Es.
  - apply Qle_bool_iff in Es.
    assert (x == a)%Q as Hx by (unfold a; by rewrite Qabs_pos).
    rewrite Hx. lra.
  - assert (~ (0 <= x)%Q) by (rewrite <- Qle_bool_iff; congruence).
    assert (x == - a)%Q as Hx by (unfold a; rewrite Qabs_neg; lra).
    rewrite Hx. lra.
Qed.


Lemma floorLog2_lt (a : Q) : (0 < a)%Q -> (a < 2 ^ (floorLog2 a + 1))%Q.
Proof.
  intros Ha. unfold floorLog2. cbn zeta.
  set (ln := Z.log2 (Qnum a)). set (ld := Z.log2 (Z.pos (Qden a))).
  destruct (Qle_bool (2 ^ (ln - ld)) a) eqn:E.
  - assert (0 < Qnum a)%Z as Hn by (destruct a as [n d]; unfold Qlt in Ha; cbn in *; lia).
    pose proof (Z.log2_spec (Qnum a) Hn) as [_ Ln]. fold ln in Ln.
    pose proof (Z.log2_spec (Z.pos (Qden a)) ltac:(lia)) as [Ld _]. fold ld in Ld.
    pose proof (Z.log2_nonneg (Qnum a)) as Pn. fold ln in Pn.
    pose proof (Z.log2_nonneg (Z.pos (Qden a))) as Pd. fold ld in Pd.
    replace (ln - ld + 1)%Z with (ln + 1 + - ld)%Z by lia.
    rewrite pow2_add, Qpower_opp, !pow2_nat by lia.
    change (inject_Z (2 ^ (ln + 1)) * / inject_Z (2 ^ ld))%Q
      with (inject_Z (2 ^ (ln + 1)) / inject_Z (2 ^ ld))%Q.
    unfold Z.succ in Ln.
    assert (0 < 2 ^ ld)%Z as Hp by lia.
    apply Qlt_shift_div_l.
    + change 0%Q with (inject_Z 0). by rewrite <- Zlt_Qlt.
    + destruct a as [n d]. unfold Qlt. cbn in *. nia.
  - replace (ln - ld - 1 + 1)%Z with (ln - ld)%Z by lia.
    assert (~ (2 ^ (ln - ld) <= a)%Q) by (rewrite <- Qle_bool_iff; congruence). lra.
Qed.

Lemma roundHalfEven_floor (m : Q) :
  (Qfloor m <= roundHalfEven m <= Qfloor m + 1)%Z.
Proof.
  unfold roundHalfEven. cbn zeta.
  destruct (Qle_bool _ _); [destruct (Qle_bool _ _); [destruct (Z.even _) |] |]; lia.
Qed.

(** The rounded value has a significand of [prec] bits: it is an integer
    between [2^(prec-1)] and [2^prec] times a power of two, with the sign
    of [x]. *)
Lemma roundTo_significand (prec : Z) (x : Q) :
  (0 < prec)%Z -> ~ (x == 0)%Q ->
  exists n e,
    (2 ^ (prec - 1) <= n <= 2 ^ prec)%Z /\
    (roundTo prec x == (if Qle_bool 0 x then 1 else -1) * (inject_Z n * 2 ^ e))%Q.
Proof.
  intros Hp Hx. unfold roundTo.
  destruct (Qeq_bool x 0) eqn:E0; [by apply Qeq_bool_eq in E0 |]. cbn zeta.
  set (a := Qabs x).
  assert (0 < a)%Q as Ha.
  { unfold a. destruct (Qlt_le_dec 0 x); [rewrite Qabs_pos; lra |].
    rewrite Qabs_neg by done. lra. }
  pose proof (floorLog2_le a Ha) as Hlo. pose proof (floorLog2_lt a Ha) as Hhi.
  set (b := floorLog2 a) in *. set (e := (b - (prec - 1))%Z).
  exists (roundHalfEven (a / 2 ^ e)), e. split; [| by rewrite Qred_correct].
  pose proof (pow2_pos e) as He.
  pose proof (roundHalfEven_floor (a / 2 ^ e)) as [Hf1 Hf2].
  assert (2 ^ b == 2 ^ (prec - 1) * 2 ^ e)%Q as Eb.
  { rewrite <- pow2_add. unfold e. by replace (prec - 1 + (b - (prec - 1)))%Z with b by lia. }
  assert (2 ^ (b + 1) == 2 ^ prec * 2 ^ e)%Q as Eb'.
  { rewrite <- pow2_add. unfold e. by replace (prec + (b - (prec - 1)))%Z with (b + 1)%Z by lia. }
  assert (inject_Z (2 ^ (prec - 1)) <= a / 2 ^ e)%Q as Hm1.
  { rewrite <- pow2_nat by lia. apply Qle_shift_div_l; [done |]. by rewrite <- Eb. }
  assert (a / 2 ^ e < inject_Z (2 ^ prec))%Q as Hm2.
  { rewrite <- pow2_nat by lia. apply Qlt_shift_div_r; [done |]. by rewrite <- Eb'. }
  pose proof (Qfloor_le (a / 2 ^ e)) as Fl. pose proof (Qlt_floor (a / 2 ^ e)) as Fu.
  split.
  - assert (2 ^ (prec - 1) < Qfloor (a / 2 ^ e) + 1)%Z; [| lia].
    rewrite Zlt_Qlt. lra.
  - assert (Qfloor (a / 2 ^ e) < 2 ^ prec)%Z; [| lia].
    rewrite Zlt_Qlt. lra.
Qed.

Lemma ulp53 : (2 ^ (- 53) == 1 # 9007199254740992)%Q.
Proof. by vm_compute. Qed.

Lemma ulp24 : (2 ^ (- 24) == 1 # 16777216)%Q.
Proof. by vm_compute. Qed.

Lemma Qabs_cases (x : Q) : (0 <= x /\ Qabs x == x)%Q \/ (x < 0 /\ Qabs x == - x)%Q.
Proof.
  destruct (Qlt_le_dec x 0) as [H | H].
  - right. split; [done |]. apply Qabs_neg. lra.
  - left. split; [done |]. by apply Qabs_pos.
Qed.

(** Some roundings: the doubles 0.1 and 0.1 + 0.2, two ties that go to
    the even significand, the overflow at 2^1024, and a tie in single
    precision. *)
Example roundings :
  literal 0.1 = (3602879701896397 # 36028797018963968)%Q /\
  add (Num (literal 0.1)) (Num (literal 0.2)) = Num (1351079888211149 # 4503599627370496) /\
  round64 9007199254740993 = Num 9007199254740992 /\
  round64 9007199254740995 = Num 9007199254740996 /\
  round64 (2 ^ 1024) = Infinity false /\
  round64 (- 2 ^ 1024) = Infinity true /\
  round32 16777217 = Num 16777216.
Proof. repeat split; by vm_compute. Qed.

(** Rounding keeps the sign and stays within a factor [1 +- 2^-53]. *)
Lemma round53_bounds (x : Q) :
  ((0 <= x -> x * (1 - (1 # 9007199254740992)) <= roundTo 53 x
              /\ roundTo 53 x <= x * (1 + (1 # 9007199254740992))) /\
   (x <= 0 -> x * (1 + (1 # 9007199254740992)) <= roundTo 53 x
              /\ roundTo 53 x <= x * (1 - (1 # 9007199254740992))))%Q.
Proof.
  pose proof (roundTo_error 53 x) as E. rewrite ulp53 in E.
  apply Qabs_Qle_condition in E.
  destruct (Qabs_cases x) as [[H A] | [H A]]; rewrite A in E; split; intros; lra.
Qed.

Lemma round24_bounds (x : Q) :
  ((0 <= x -> x * (1 - (1 # 16777216)) <= roundTo 24 x
              /\ roundTo 24 x <= x * (1 + (1 # 16777216))) /\
   (x <= 0 -> x * (1 + (1 # 16777216)) <= roundTo 24 x
              /\ roundTo 24 x <= x * (1 - (1 # 16777216))))%Q.
Proof.
  pose proof (roundTo_error 24 x) as E. rewrite ulp24 in E.
  apply Qabs_Qle_condition in E.
  destruct (Qabs_cases x) as [[H A] | [H A]]; rewrite A in E; split; intros; lra.
Qed.

Lemma round64_cases (x : Q) :
  round64 x = Num (roundTo 53 x) \/
  (round64 x = Infinity (negb (Qle_bool 0 (roundTo 53 x))) /\
   (2 ^ 1024 <= Qabs (roundTo 53 x))%Q).
Proof.
  unfold round64. cbn zeta.
  destruct (Qle_bool (2 ^ 1024) (Qabs (roundTo 53 x))) eqn:E; [| by left].
  right. split; [done |]. by apply Qle_bool_iff.
Qed.

Lemma pow2_1024 : (2 ^ 1024 == 2 * 2 ^ 1023)%Q.
Proof. change 1024%Z with (1 + 1023)%Z. by rewrite pow2_add. Qed.

Lemma pow2_128 : (2 ^ 128 == 2 * 2 ^ 127)%Q.
Proof. change 128%Z with (1 + 127)%Z. by rewrite pow2_add. Qed.

(** No overflow below 2^1023. *)
Lemma round64_finite (x : Q) :
  (Qabs x <= 2 ^ 1023)%Q -> round64 x = Num (roundTo 53 x).
Proof.
  intros H. destruct (round64_cases x) as [E | [_ O]]; [done |]. exfalso.
  rewrite pow2_1024 in O. pose proof (pow2_pos 1023) as P.
  set (big := (2 ^ 1023)%Q) in *. clearbody big.
  pose proof (round53_bounds x) as [Bp Bn].
  destruct (Qabs_cases x) as [[Hx A] | [Hx A]]; rewrite A in H.
  - destruct (Bp Hx) as [L U].
    assert (0 <= roundTo 53 x)%Q as Hy by lra.
    rewrite (Qabs_pos _ Hy) in O. lra.
  - destruct (Bn ltac:(lra)) as [L U].
    assert (roundTo 53 x <= 0)%Q as Hy by lra.
    rewrite (Qabs_neg _ Hy) in O. lra.
Qed.

Lemma round32_finite (x : Q) :
  (Qabs x <= 2 ^ 127)%Q -> round32 x = Num (roundTo 24 x).
Proof.
  intros H. unfold round32. cbn zeta.
  destruct (Qle_bool (2 ^ 128) (Qabs (roundTo 24 x))) eqn:E; [| done].
  apply Qle_bool_iff in E. exfalso.
  rewrite pow2_128 in E. pose proof (pow2_pos 127) as P.
  set (big := (2 ^ 127)%Q) in *. clearbody big.
  pose proof (round24_bounds x) as [Bp Bn].
  destruct (Qabs_cases x) as [[Hx A] | [Hx A]]; rewrite A in H.
  - destruct (Bp Hx) as [L U].
    assert (0 <= roundTo 24 x)%Q as Hy by lra.
    rewrite (Qabs_pos _ Hy) in E. lra.
  - destruct (Bn ltac:(lra)) as [L U].
    assert (roundTo 24 x <= 0)%Q as Hy by lra.
    rewrite (Qabs_neg _ Hy) in E. lra.
Qed.


Lemma round64_nonNegative (x : Q) : (0 <= x)%Q -> nonNegative (round64 x).
Proof.
  intros H. destruct (round53_bounds x) as [Bp _]. destruct (Bp H) as [L _].
  assert (0 <= roundTo 53 x)%Q as Hy by lra.
  destruct (round64_cases x) as [-> | [-> _]]; cbn; [done |].
  apply Qle_bool_iff in Hy. by rewrite Hy.
Qed.

Lemma round64_negative (x : Q) : (x < 0)%Q -> negative (round64 x).
Proof.
  intros H. destruct (round53_bounds x) as [_ Bn]. destruct (Bn ltac:(lra)) as [_ U].
  assert (roundTo 53 x < 0)%Q as Hy by lra.
  destruct (round64_cases x) as [-> | [-> _]]; cbn; [done |].
  destruct (Qle_bool 0 (roundTo 53 x)) eqn:E; [| done].
  apply Qle_bool_iff in E. lra.
Qed.

Lemma isNegative_false (q : Q) : (0 <= q)%Q -> isNegative q = false.
Proof. intros H. unfold isNegative. apply Qle_bool_iff in H. by rewrite H. Qed.

Lemma div_nonNegative (x : number) (b : Q) :
  nonNegative x -> (0 < b)%Q -> nonNegative (div x (Num b)).
Proof.
  intros Hx Hb. destruct x as [| s | a]; cbn in *; [done | |].
  - subst s. by rewrite isNegative_false by lra.
  - destruct (Qeq_bool b 0) eqn:E; [apply Qeq_bool_eq in E; lra |].
    apply round64_nonNegative. apply Qle_shift_div_l; lra.
Qed.

Lemma mul_nonNegative (x : number) (b : Q) :
  nonNegative x -> (0 < b)%Q -> nonNegative (mul x (Num b)).
Proof.
  intros Hx Hb. destruct x as [| s | a]; cbn in *; [done | |].
  - subst s. destruct (Qeq_bool b 0) eqn:E; [apply Qeq_bool_eq in E; lra |].
    by rewrite isNegative_false by lra.
  - apply round64_nonNegative. by apply Qmult_le_0_compat; lra.
Qed.

Lemma literal_005 : (0 < literal 0.05)%Q.
Proof. by vm_compute. Qed.

Lemma literal_002 : Qle_bool 0 (literal 0.02) = true.
Proof. by vm_compute. Qed.

(** With a rate that is not positive the duration is no number above 0. *)
Lemma calculateDuration_rate (text : string) (rate d : Q) :
  (rate <= 0)%Q -> calculateDuration text rate = Num d -> (d <= 0)%Q.
Proof.
  intros Hr. unfold calculateDuration. cbn zeta.
  set (chars := inject_Z (Z.of_nat (String.length text))).
  assert (nonNegative (Num chars)) as H0.
  { cbn. unfold chars. change 0%Q with (inject_Z 0). rewrite <- Zle_Qle. lia. }
  pose proof (mul_nonNegative _ 60
                (div_nonNegative _ 150 (div_nonNegative _ 5 H0 eq_refl) eq_refl) eq_refl)
    as H.
  destruct (mul (div (div (Num chars) (Num 5)) (Num 150)) (Num 60)) as [| s | m];
    cbn in H; [done | discriminate |].
  cbn [div]. destruct (Qeq_bool rate 0) eqn:E; [by destruct (Qeq_bool m 0) |].
  apply Qeq_bool_neq in E. intros R.
  assert (m / rate <= 0)%Q as Hq.
  { destruct (Qlt_le_dec 0 (m / rate)) as [Hp | Hp]; [| done]. exfalso.
    assert (m / rate * - rate == - m)%Q as M by (field; exact E).
    assert (0 < - rate)%Q as Hr' by lra.
    pose proof (Qmult_lt_0_compat _ _ Hp Hr') as P. lra. }
  destruct (Qlt_le_dec (m / rate) 0) as [Hn | Hz].
  - pose proof (round64_negative _ Hn) as N. rewrite R in N. cbn in N. lra.
  - assert (m / rate == 0)%Q as Z0 by lra.
    destruct (round53_bounds (m / rate)) as [_ Bn]. destruct (Bn Hq) as [_ U].
    destruct (round64_cases (m / rate)) as [Er | [Er _]]; rewrite Er in R; [| discriminate].
    injection R as <-. lra.
Qed.

Lemma setUpRendering_returns (p : Platform) (text voice : string) (rate sr : Q)
    (offlineCtx : OfflineAudioContext) :
  setUpRendering p text voice rate = Ok (sr, offlineCtx) ->
  audioContext p = Ok sr /\ (0 < sr)%Q /\ ctxNumberOfChannels offlineCtx = 1.
Proof.
  unfold setUpRendering. intros H.
  bind_inv H. bind_inv H. bind_inv H. bind_inv H. bind_inv H. bind_inv H. bind_inv H.
  destruct a5 as [frequency timeOffset]. injection H as <- <-. cbn.
  destruct (new_OfflineAudioContext_Ok _ _ _ _ E0) as (Hsr & Hlen & Hn & Hr & Hl).
  repeat split; done.
Qed.

Lemma synthesizeTextToAudio_outcomes (p : Platform) (text voice : string) (rate : Q) :
  synthesizeTextToAudio p text voice rate =
  Ok (match setUpRendering p text voice rate with
      | Throw _ => new_ArrayBuffer 44
      | Ok (sampleRate, offlineCtx) =>
          match startRendering p offlineCtx with
          | Throw _ => beepFile p sampleRate
          | Ok renderedBuffer =>
              match exportToWavArrayBuffer renderedBuffer with
              | Ok audioData => audioData
              | Throw _ => beepFile p sampleRate
              end
          end
      end).
Proof.
  unfold synthesizeTextToAudio.
  destruct (setUpRendering p text voice rate) as [[sr ctx] | e] eqn:S; [| done].
  apply setUpRendering_returns in S as (_ & Hsr & _). cbn [mbind result_bind].
  assert (createFallbackBeep p sr = Ok (beepFile p sr)) as B
    by (apply createFallbackBeep_correct; lra).
  destruct (startRendering p ctx) as [b | e]; cbn [mbind result_bind try_catch];
    [| by rewrite B].
  destruct (exportToWavArrayBuffer b); cbn [mbind result_bind try_catch];
    [done | by rewrite B].
Qed.

Lemma setValueAtTime_at (param : AudioParam) (v t : Q) :
  Qle_bool 0 t = true ->
  setValueAtTime param v (Num t) =
  Ok {| value := value param; events := events param ++ [SetValueAtTime v t] |}.
Proof. intros H. unfold setValueAtTime. by rewrite H. Qed.

Lemma linearRampToValueAtTime_at (param : AudioParam) (v t : Q) :
  Qle_bool 0 t = true ->
  linearRampToValueAtTime param v (Num t) =
  Ok {| value := value param; events := events param ++ [LinearRampToValueAtTime v t] |}.
Proof. intros H. unfold linearRampToValueAtTime. by rewrite H. Qed.

Lemma setUpRendering_fade_out (p : Platform) (text voice : string) (rate : Q) :
  (forall d, calculateDuration text rate = Num d -> (d < literal 0.05)%Q) ->
  exists e, setUpRendering p text voice rate = Throw e.
Proof.
  intros H. unfold setUpRendering.
  destruct (audioContext p) as [sr | e]; cbn [mbind result_bind]; [| eauto]. cbn zeta.
  destruct (new_OfflineAudioContext 1 _ sr) as [ctx | e]; cbn [mbind result_bind]; [| eauto].
  rewrite (setValueAtTime_at _ 0 0) by done. cbn [mbind result_bind].
  rewrite (linearRampToValueAtTime_at _ _ (literal 0.02)) by exact literal_002.
  cbn [mbind result_bind].
  destruct (calculateDuration text rate) as [| s | d]; cbn [sub add neg]; [eauto | eauto |].
  specialize (H d eq_refl).
  assert (d + - literal 0.05 < 0)%Q as Hneg by lra.
  pose proof (round64_negative _ Hneg) as N.
  destruct (round64 (d + - literal 0.05)) as [| s | t]; cbn in N; [done | eauto |].
  cbn. destruct (Qle_bool 0 t) eqn:E; [apply Qle_bool_iff in E; lra | eauto].
Qed.

Lemma pow2_le (a b : Z) : (a <= b)%Z -> (2 ^ a <= 2 ^ b)%Q.
Proof.
  intros H. replace b with ((b - a) + a)%Z by lia. rewrite pow2_add.
  pose proof (pow2_pos a) as P.
  assert (1 <= 2 ^ (b - a))%Q as H1.
  { rewrite pow2_nat by lia. change 1%Q with (inject_Z 1). rewrite <- Zle_Qle.
    pose proof (Z.pow_pos_nonneg 2 (b - a)). lia. }
  pose proof (Qmult_le_compat_r 1 (2 ^ (b - a)) (2 ^ a) H1 ltac:(lra)) as M.
  lra.
Qed.

Lemma pow2_31 : (2147483648 == 2 ^ 31)%Q.
Proof. by vm_compute. Qed.

Lemma pow2_32 : (4294967296 == 2 ^ 32)%Q.
Proof. by vm_compute. Qed.

Lemma mul_finite (a b : Q) :
  (Qabs (a * b) <= 2 ^ 1023)%Q -> mul (Num a) (Num b) = Num (roundTo 53 (a * b)).
Proof. apply round64_finite. Qed.

Lemma add_finite (a b : Q) :
  (Qabs (a + b) <= 2 ^ 1023)%Q -> add (Num a) (Num b) = Num (roundTo 53 (a + b)).
Proof. apply round64_finite. Qed.

Lemma Qtrunc_inject_Z (z : Z) : Qtrunc (inject_Z z) = z.
Proof. unfold Qtrunc. cbn -[Z.quot]. apply Z.quot_1_r. Qed.

(** The number of frames asked of the offline context. *)
Lemma safeFrameCount_rounded (d sr : Q) :
  (literal 0.05 <= d)%Q -> (20 <= sr)%Q -> (10 * sr <= 2147483648)%Q ->
  ToUint32 (Math_min (Math_ceil (mul (Num d) (Num sr))) (mul (Num 10) (Num sr)))
  = Z.min (Qceiling (roundTo 53 (d * sr))) (Qfloor (roundTo 53 (10 * sr))) /\
  (1 <= Z.min (Qceiling (roundTo 53 (d * sr))) (Qfloor (roundTo 53 (10 * sr)))
   < 4294967296)%Z.
Proof.
  intros Hd Hsr Hhi. pose proof literal_005 as Hlit.
  assert (0 < d * sr)%Q as Hframes by (apply Qmult_lt_0_compat; lra).
  assert (Qabs (10 * sr) <= 2 ^ 1023)%Q as Hfin.
  { rewrite Qabs_pos by lra. pose proof (pow2_le 31 1023 ltac:(lia)) as P.
    rewrite <- pow2_31 in P. lra. }
  rewrite (mul_finite 10 sr Hfin).
  destruct (round53_bounds (10 * sr)) as [B10 _]. destruct (B10 ltac:(lra)) as [L10 U10].
  destruct (round53_bounds (d * sr)) as [Bd _]. destruct (Bd ltac:(lra)) as [Ld Ud].
  pose proof (round64_cases (d * sr)) as RC.
  set (S10 := roundTo 53 (10 * sr)) in *. set (F := roundTo 53 (d * sr)) in *.
  assert (0 < F)%Q as HF by lra.
  pose proof (Qle_ceiling F) as Hc. pose proof (Qceiling_lt F) as Hc'.
  assert (1 <= Qceiling F)%Z as Hc1.
  { assert (0 < Qceiling F)%Z; [| lia]. rewrite Zlt_Qlt. change (inject_Z 0) with 0%Q. lra. }
  pose proof (Qfloor_le S10) as Hf. pose proof (Qlt_floor S10) as Hf'.
  assert (1 <= Qfloor S10 < 4294967296)%Z as [Hf1 Hf2].
  { split.
    - assert (100 < Qfloor S10 + 1)%Z; [| lia].
      rewrite Zlt_Qlt. change (inject_Z 100) with 100%Q. lra.
    - rewrite Zlt_Qlt. change (inject_Z 4294967296) with 4294967296%Q. lra. }
  assert (ToUint32 (Num S10) = Qfloor S10) as TS.
  { cbn [ToUint32]. rewrite Qtrunc_floor by lra. rewrite Z.mod_small by lia. done. }
  split; [| lia].
  unfold mul. destruct RC as [-> | [-> O]].
  - cbn [Math_ceil Math_min].
    destruct (Qle_bool (inject_Z (Qceiling F)) S10) eqn:E.
    + apply Qle_bool_iff in E.
      assert (Qceiling F < Qfloor S10 + 1)%Z by (rewrite Zlt_Qlt; lra).
      cbn [ToUint32]. rewrite Qtrunc_inject_Z, Z.mod_small by lia. lia.
    + assert (~ (inject_Z (Qceiling F) <= S10)%Q) as E'
        by (rewrite <- Qle_bool_iff; congruence).
      assert (Qfloor S10 < Qceiling F)%Z by (rewrite Zlt_Qlt; lra).
      rewrite TS. lia.
  - assert (Qle_bool 0 F = true) as -> by (apply Qle_bool_iff; lra).
    cbn [negb Math_ceil Math_min]. rewrite TS.
    rewrite Qabs_pos in O by lra.
    pose proof (pow2_le 32 1024 ltac:(lia)) as P. rewrite <- pow2_32 in P.
    assert (Qfloor S10 < Qceiling F)%Z by (rewrite Zlt_Qlt; lra). lia.
Qed.

Lemma baseFrequency_range (voice : string) :
  (110 <= baseFrequency (getVoiceCharacteristics voice) <= 220)%Q.
Proof.
  unfold getVoiceCharacteristics. cbn zeta.
  repeat match goal with |- context [String.eqb ?a ?b] => destruct (String.eqb a b) end;
    cbn; split; lra.
Qed.

(** The pitch of a sentence: the base frequency times [1 + 0.05] or
    [1 + -0.03], each step rounded to a double, and the product to the
    single-precision value of the parameter. *)
Lemma pitch_value (base : Q) (i : nat) :
  (1 <= base <= 1000)%Q ->
  exists v,
    toFloat (mul (Num base)
               (add (Num 1) (Num (literal (if (i mod 2 =? 0)%nat then 0.05 else - 0.03)))))
    = Ok v /\
    (Qabs (v - base * (1 + (if (i mod 2 =? 0)%nat then 0.05 else - 0.03)))
     <= base * (1 # 8388608))%Q.
Proof.
  intros [Hlo Hhi].
  pose proof (pow2_le 11 1023 ltac:(lia)) as P64.
  pose proof (pow2_le 11 127 ltac:(lia)) as P32.
  assert (2 ^ 11 == 2048)%Q as E11 by (by vm_compute). rewrite E11 in P64, P32.
  set (big64 := (2 ^ 1023)%Q) in *. set (big32 := (2 ^ 127)%Q) in *.
  destruct (i mod 2 =? 0)%nat.
  - set (pv := add (Num 1) (Num (literal 0.05))).
    assert (pv = Num (4728779608739021 # 4503599627370496)) as -> by (by vm_compute).
    set (c := (4728779608739021 # 4503599627370496)%Q).
    assert (0 <= base * c)%Q as H0 by (unfold c; lra).
    rewrite mul_finite by (rewrite Qabs_pos by done; unfold c, big64 in *; lra).
    destruct (round53_bounds (base * c)) as [B _]. destruct (B H0) as [L U].
    set (x := roundTo 53 (base * c)) in *.
    assert (0 <= x)%Q as Hx by (unfold c in *; lra).
    cbn [toFloat].
    rewrite round32_finite by (rewrite Qabs_pos by done; unfold c, big32 in *; lra).
    destruct (round24_bounds x) as [B' _]. destruct (B' Hx) as [L' U'].
    eexists. split; [reflexivity |].
    apply Qabs_Qle_condition. unfold c in *. split; lra.
  - set (pv := add (Num 1) (Num (literal (- 0.03)))).
    assert (pv = Num (4368491638549381 # 4503599627370496)) as -> by (by vm_compute).
    set (c := (4368491638549381 # 4503599627370496)%Q).
    assert (0 <= base * c)%Q as H0 by (unfold c; lra).
    rewrite mul_finite by (rewrite Qabs_pos by done; unfold c, big64 in *; lra).
    destruct (round53_bounds (base * c)) as [B _]. destruct (B H0) as [L U].
    set (x := roundTo 53 (base * c)) in *.
    assert (0 <= x)%Q as Hx by (unfold c in *; lra).
    cbn [toFloat].
    rewrite round32_finite by (rewrite Qabs_pos by done; unfold c, big32 in *; lra).
    destruct (round24_bounds x) as [B' _]. destruct (B' Hx) as [L' U'].
    eexists. split; [reflexivity |].
    apply Qabs_Qle_condition. unfold c in *. split; lra.
Qed.

Lemma inject_nat_nonneg (n : nat) : (0 <= inject_Z (Z.of_nat n))%Q.
Proof. change 0%Q with (inject_Z 0). rewrite <- Zle_Qle. lia. Qed.

Lemma inject_nat_succ (n : nat) :
  (inject_Z (Z.of_nat (S n)) == inject_Z (Z.of_nat n) + 1)%Q.
Proof. rewrite Nat2Z.inj_succ. unfold Z.succ. by rewrite inject_Z_plus. Qed.

Lemma inject_nat_le (m n : nat) :
  m <= n -> (inject_Z (Z.of_nat m) <= inject_Z (Z.of_nat n))%Q.
Proof. intros H. rewrite <- Zle_Qle. lia. Qed.

Lemma Qmult_le_nonneg_l (a b c : Q) : (0 <= a)%Q -> (b <= c)%Q -> (a * b <= a * c)%Q.
Proof.
  intros Ha Hbc. rewrite (Qmult_comm a b), (Qmult_comm a c).
  by apply Qmult_le_compat_r.
Qed.


Lemma accumulated_step (s : Q) (i bound : nat) (t : Q) :
  (0 <= s)%Q ->
  i < bound ->
  (inject_Z (Z.of_nat bound) * (1 # 9007199254740992) <= 1)%Q ->
  (s * (2 * inject_Z (Z.of_nat bound) + 1) <= 2 ^ 1023)%Q ->
  accumulated s i t ->
  add (Num t) (Num s) = Num (roundTo 53 (t + s)) /\
  accumulated s (S i) (roundTo 53 (t + s)).
Proof.
  intros Hs Hi Hu Hbig (H0 & L & U). cbn zeta in L, U.
  pose proof (inject_nat_nonneg i) as Hn. pose proof (inject_nat_le (S i) bound Hi) as Hle.
  rewrite inject_nat_succ in Hle.
  set (n := inject_Z (Z.of_nat i)) in *. set (m := inject_Z (Z.of_nat bound)) in *.
  set (big := (2 ^ 1023)%Q) in *.
  assert (0 <= s * n)%Q as HA by (by apply Qmult_le_0_compat).
  assert (s * (n * n * (1 # 9007199254740992)) <= s * n)%Q as HB.
  { apply Qmult_le_nonneg_l; [done |].
    assert (n * (n * (1 # 9007199254740992)) <= n * 1)%Q
      by (apply Qmult_le_nonneg_l; [done | lra]).
    lra. }
  assert (0 <= s * (n * n * (1 # 9007199254740992)))%Q as HB0.
  { apply Qmult_le_0_compat; [done |].
    assert (0 <= n * n)%Q by (by apply Qmult_le_0_compat). lra. }
  assert (s * n <= s * m)%Q as HAm by (apply Qmult_le_nonneg_l; [done | lra]).
  assert (s * (n - n * n * (1 # 9007199254740992))
          == s * n - s * (n * n * (1 # 9007199254740992)))%Q as EL by ring.
  assert (s * (n + n * n * (1 # 9007199254740992))
          == s * n + s * (n * n * (1 # 9007199254740992)))%Q as EU by ring.
  assert (s * (2 * m + 1) == 2 * (s * m) + s)%Q as Em by ring.
  rewrite EL in L. rewrite EU in U. rewrite Em in Hbig.
  destruct (round53_bounds (t + s)) as [Bp _]. destruct (Bp ltac:(lra)) as [Lr Ur].
  split.
  - apply add_finite. fold big. rewrite Qabs_pos by lra. lra.
  - unfold accumulated. cbn zeta. rewrite inject_nat_succ. fold n.
    set (r := roundTo 53 (t + s)) in *.
    set (A := (s * n)%Q) in *. set (B := (s * (n * n * (1 # 9007199254740992)))%Q) in *.
    assert (s * (n + 1 - (n + 1) * (n + 1) * (1 # 9007199254740992))
            == A + s - B - (2 # 9007199254740992) * A - (1 # 9007199254740992) * s)%Q
      as -> by (unfold A, B; ring).
    assert (s * (n + 1 + (n + 1) * (n + 1) * (1 # 9007199254740992))
            == A + s + B + (2 # 9007199254740992) * A + (1 # 9007199254740992) * s)%Q
      as -> by (unfold A, B; ring).
    repeat split; lra.
Qed.

Lemma schedule_rounded (base s : Q) (k c bound : nat) (frequency : AudioParam) (t : Q) :
  (1 <= base <= 1000)%Q ->
  (0 <= s)%Q ->
  c + k <= bound ->
  (inject_Z (Z.of_nat bound) * (1 # 9007199254740992) <= 1)%Q ->
  (s * (2 * inject_Z (Z.of_nat bound) + 1) <= 2 ^ 1023)%Q ->
  accumulated s c t ->
  exists frequency' t' new,
    for_loop k c
      (fun i '(frequency, timeOffset) =>
         let pitchVariation :=
           add (Num 1) (Num (literal (if (i mod 2 =? 0)%nat then 0.05 else - 0.03))) in
         v ← toFloat (mul (Num base) pitchVariation);
         frequency ← setValueAtTime frequency v timeOffset;
         Ok (frequency, add timeOffset (Num s)))
      (frequency, Num t)
    = Ok (frequency', Num t') /\
    value frequency' = value frequency /\
    events frequency' = events frequency ++ new /\
    length new = k /\
    forall j, j < k ->
      exists v tj,
        new !! j = Some (SetValueAtTime v tj) /\
        toFloat (mul (Num base)
                   (add (Num 1)
                      (Num (literal (if ((c + j) mod 2 =? 0)%nat then 0.05 else - 0.03)))))
        = Ok v /\
        accumulated s (c + j) tj.
Proof.
  intros Hbase Hs. revert c frequency t.
  induction k as [| k IH]; intros c frequency t Hck Hu Hbig Hacc.
  - cbn. eexists. eexists. exists []. split; [reflexivity |].
    split; [done |]. split; [by rewrite app_nil_r |]. split; [done | lia].
  - cbn [for_loop]. cbn zeta.
    destruct (pitch_value base c Hbase) as (v & Hv & _). rewrite Hv.
    cbn [mbind result_bind].
    rewrite setValueAtTime_at by (apply Qle_bool_iff; apply Hacc).
    cbn [mbind result_bind].
    destruct (accumulated_step s c bound t Hs ltac:(lia) Hu Hbig Hacc) as [-> Hacc'].
    destruct (IH (S c) {| value := value frequency;
                          events := events frequency ++ [SetValueAtTime v t] |}
                (roundTo 53 (t + s)) ltac:(lia) Hu Hbig Hacc')
      as (f' & t' & new & E & V & Ev & Ln & Hnew).
    exists f', t'. exists (SetValueAtTime v t :: new). split; [exact E |].
    split; [exact V |].
    split; [rewrite Ev; cbn [events]; by rewrite <- app_assoc |].
    split; [cbn; by rewrite Ln |].
    intros [| j] Hj.
    + exists v, t. rewrite Nat.add_0_r. done.
    + destruct (Hnew j ltac:(lia)) as (vj & tj & Hj1 & Hj2 & Hj3).
      exists vj, tj. replace (c + S j) with (S c + j) by lia. done.
Qed.

Lemma pow2_1002 : (4 * 2 ^ 1000 <= 2 ^ 1023)%Q.
Proof.
  pose proof (pow2_le 1002 1023 ltac:(lia)) as P.
  change 1002%Z with (2 + 1000)%Z in P. rewrite pow2_add in P.
  by change (2 ^ 2)%Q with 4%Q in P.
Qed.

(** The time between two sentences, [duration / Math.max(n, 1)]. *)
Lemma sentenceDuration_value (d : Q) (n : nat) :
  (0 < d)%Q -> (d <= 2 ^ 1000)%Q -> 1 <= n ->
  let s := roundTo 53 (d / inject_Z (Z.of_nat n)) in
  div (Num d) (Num (inject_Z (Z.of_nat n))) = Num s /\
  (0 < s)%Q /\
  (d / inject_Z (Z.of_nat n) * (1 - (1 # 9007199254740992)) <= s)%Q /\
  (s <= d / inject_Z (Z.of_nat n) * (1 + (1 # 9007199254740992)))%Q /\
  (s * (2 * inject_Z (Z.of_nat n) + 1) <= 2 ^ 1023)%Q.
Proof.
  intros Hd Hbig Hn. cbn zeta.
  pose proof (inject_nat_le 1 n Hn) as Hm. change (inject_Z (Z.of_nat 1)) with 1%Q in Hm.
  set (m := inject_Z (Z.of_nat n)) in *.
  pose proof pow2_1002 as P. set (big := (2 ^ 1023)%Q) in *. set (b := (2 ^ 1000)%Q) in *.
  assert (0 < d / m)%Q as Hq by (apply Qlt_shift_div_l; lra).
  assert (d / m * m == d)%Q as Hqm by (field; lra).
  assert (d / m <= d)%Q as Hqd.
  { pose proof (Qmult_le_nonneg_l (d / m) 1 m ltac:(lra) Hm). lra. }
  destruct (round53_bounds (d / m)) as [Bp _]. destruct (Bp ltac:(lra)) as [L U].
  set (q := (d / m)%Q) in *. set (s := roundTo 53 q) in *.
  assert (s * m <= q * (1 + (1 # 9007199254740992)) * m)%Q as Hsm
    by (apply Qmult_le_compat_r; lra).
  assert (q * (1 + (1 # 9007199254740992)) * m
          == (1 + (1 # 9007199254740992)) * (q * m))%Q as E by ring.
  assert (s * (2 * m + 1) == 2 * (s * m) + s)%Q as E' by ring.
  split; [| split; [lra | split; [lra | split; [lra | rewrite E'; lra]]]].
  cbn [div]. destruct (Qeq_bool m 0) eqn:E0; [apply Qeq_bool_eq in E0; lra |].
  apply round64_finite. fold q. rewrite Qabs_pos by lra. fold big. lra.
Qed.

Lemma accumulated_start (s : Q) : accumulated s 0 0.
Proof.
  unfold accumulated. cbn zeta. change (inject_Z (Z.of_nat 0)) with 0%Q.
  assert (s * (0 - 0 * 0 * (1 # 9007199254740992)) == 0)%Q as -> by ring.
  assert (s * (0 + 0 * 0 * (1 # 9007199254740992)) == 0)%Q as -> by ring.
  repeat split; lra.
Qed.

Lemma setUpRendering_rounded (p : Platform) (text voice : string) (rate sr d : Q) :
  audioContext p = Ok sr ->
  calculateDuration text rate = Num d ->
  (literal 0.05 <= d)%Q -> (d <= 2 ^ 1000)%Q ->
  (20 <= sr)%Q -> (10 * sr <= 2147483648)%Q ->
  (Z.of_nat (length (sentencesOf text)) <= 67108864)%Z ->
  exists offlineCtx,
    setUpRendering p text voice rate = Ok (sr, offlineCtx) /\
    ctxNumberOfChannels offlineCtx = 1 /\
    ctxSampleRate offlineCtx = sr /\
    Z.of_nat (ctxLength offlineCtx)
    = Z.min (Qceiling (roundTo 53 (d * sr))) (Qfloor (roundTo 53 (10 * sr))) /\
    1 <= ctxLength offlineCtx /\
    oscillatorType offlineCtx = "sine" /\
    value (oscillatorFrequency offlineCtx) = baseFrequency (getVoiceCharacteristics voice) /\
    length (events (oscillatorFrequency offlineCtx)) = length (sentencesOf text) /\
    gainNodeGain offlineCtx
    = {| value := 0.5;
         events := [SetValueAtTime 0 0; LinearRampToValueAtTime 0.5 (literal 0.02);
                    SetValueAtTime 0.5 (roundTo 53 (d - literal 0.05));
                    LinearRampToValueAtTime 0 d] |} /\
    (0 <= roundTo 53 (d - literal 0.05))%Q /\
    forall i, i < length (sentencesOf text) ->
      exists v t,
        events (oscillatorFrequency offlineCtx) !! i = Some (SetValueAtTime v t) /\
        toFloat (mul (Num (baseFrequency (getVoiceCharacteristics voice)))
                   (add (Num 1)
                      (Num (literal (if (i mod 2 =? 0)%nat then 0.05 else - 0.03)))))
        = Ok v /\
        accumulated (roundTo 53 (d / inject_Z (Z.of_nat (length (sentencesOf text))))) i t.
Proof.
  intros Hctx Hd Hlong Hbig Hlo Hhi Hcount. pose proof literal_005 as Hlit.
  unfold setUpRendering.
  rewrite Hctx, Hd. cbn [mbind result_bind]. cbn zeta.
  unfold new_OfflineAudioContext. cbn zeta.
  destruct (safeFrameCount_rounded d sr Hlong Hlo Hhi) as [-> [T1 T2]].
  set (frames := Z.min (Qceiling (roundTo 53 (d * sr))) (Qfloor (roundTo 53 (10 * sr)))) in *.
  destruct (Z.eqb_spec frames 0) as [| _]; [lia |].
  destruct (Qle_bool sr 0) eqn:Esr; [apply Qle_bool_iff in Esr; lra |].
  cbn [orb Nat.eqb mbind result_bind gainNodeGain oscillatorFrequency events].
  rewrite (setValueAtTime_at _ 0 0) by done. cbn [mbind result_bind].
  rewrite (linearRampToValueAtTime_at _ _ (literal 0.02)) by exact literal_002.
  cbn [mbind result_bind]. unfold sub. cbn [neg].
  pose proof (pow2_le 1000 1023 ltac:(lia)) as P.
  destruct (round53_bounds (d + - literal 0.05)) as [Bp _].
  destruct (Bp ltac:(lra)) as [Lt2 _].
  assert (0 <= roundTo 53 (d + - literal 0.05))%Q as Ht2.
  { set (lit := literal 0.05) in *. set (r := roundTo 53 (d + - lit)) in *. lra. }
  rewrite add_finite by (rewrite Qabs_pos by lra; lra).
  rewrite setValueAtTime_at by (by apply Qle_bool_iff).
  cbn [mbind result_bind].
  rewrite linearRampToValueAtTime_at by (apply Qle_bool_iff; lra).
  cbn [mbind result_bind value events app].
  set (base := baseFrequency (getVoiceCharacteristics voice)).
  assert (1 <= base <= 1000)%Q as Hbase
    by (pose proof (baseFrequency_range voice) as [? ?]; unfold base; split; lra).
  set (m := length (sentencesOf text)) in *.
  destruct (sentenceDuration_value d (Nat.max m 1) ltac:(lra) Hbig ltac:(lia))
    as (-> & Hs0 & HsL & HsU & Hsbig).
  set (s := roundTo 53 (d / inject_Z (Z.of_nat (Nat.max m 1)))) in *.
  assert (inject_Z (Z.of_nat (Nat.max m 1)) * (1 # 9007199254740992) <= 1)%Q as Hu.
  { assert (inject_Z (Z.of_nat (Nat.max m 1)) <= inject_Z 67108864)%Q as B
      by (rewrite <- Zle_Qle; lia).
    change (inject_Z 67108864) with 67108864%Q in B. lra. }
  match goal with
  | |- context [for_loop ?k ?c ?body (?f, Num ?t)] =>
      destruct (schedule_rounded base s k c (Nat.max m 1) f t Hbase ltac:(lra)
                  ltac:(lia) Hu Hsbig (accumulated_start s))
        as (f' & t' & new & E & V & Ev & Ln & Hnew);
      replace (for_loop k c body (f, Num t)) with (Ok (f', Num t'))
        by (symmetry; exact E)
  end.
  cbn [mbind result_bind]. eexists. split; [reflexivity |].
  cbn [ctxNumberOfChannels ctxSampleRate ctxLength oscillatorType oscillatorFrequency
       gainNodeGain value events] in *.
  cbn [app] in Ev.
  split; [done |]. split; [done |]. split; [apply Z2Nat.id; lia |].
  split; [lia |]. split; [done |]. split; [exact V |].
  split; [by rewrite Ev |]. split; [done |]. split; [exact Ht2 |].
  intros i Hi. destruct (Hnew i Hi) as (v & t & H1 & H2 & H3).
  exists v, t. rewrite Ev. split; [exact H1 |]. split; [exact H2 |].
  replace m with (Nat.max m 1) by lia. exact H3.
Qed.

(** What the rounded accumulation means for sentence [i] of [m]: the
    time is within [(i + 2) * 2^-53], relatively, of [i * (d / m)], and
    before the end of the clip. *)
Lemma accumulated_bounds (d s : Q) (i m : nat) (t : Q) :
  (0 < d)%Q -> i < m -> (Z.of_nat m <= 67108864)%Z ->
  (d / inject_Z (Z.of_nat m) * (1 - (1 # 9007199254740992)) <= s)%Q ->
  (s <= d / inject_Z (Z.of_nat m) * (1 + (1 # 9007199254740992)))%Q ->
  accumulated s i t ->
  (Qabs (t - inject_Z (Z.of_nat i) * (d / inject_Z (Z.of_nat m)))
   <= inject_Z (Z.of_nat i) * (d / inject_Z (Z.of_nat m))
      * (inject_Z (Z.of_nat i) + 2) * (1 # 9007199254740992))%Q /\
  (0 <= t)%Q /\ (t < d)%Q.
Proof.
  intros Hd Him Hm HsL HsU (H0 & L & U). cbn zeta in L, U.
  pose proof (inject_nat_nonneg i) as Hn.
  pose proof (inject_nat_le (S i) m Him) as Hle. rewrite inject_nat_succ in Hle.
  assert (inject_Z (Z.of_nat m) <= inject_Z 67108864)%Q as Hmax by (by rewrite <- Zle_Qle).
  change (inject_Z 67108864) with 67108864%Q in Hmax.
  set (n := inject_Z (Z.of_nat i)) in *. set (k := inject_Z (Z.of_nat m)) in *.
  assert (0 < d / k)%Q as Hq by (apply Qlt_shift_div_l; lra).
  assert (d / k * k == d)%Q as Hqk by (field; lra).
  set (q := (d / k)%Q) in *.
  set (w := (n * n * (1 # 9007199254740992))%Q) in *.
  assert (0 <= w)%Q as Hw0.
  { assert (0 <= n * n)%Q by (by apply Qmult_le_0_compat). unfold w. lra. }
  assert (w <= n * (1 # 134217728))%Q as Hw.
  { pose proof (Qmult_le_nonneg_l n (n * (1 # 9007199254740992)) (1 # 134217728) Hn
                  ltac:(lra)) as H.
    unfold w. lra. }
  assert (0 <= q * n)%Q as HA by (apply Qmult_le_0_compat; lra).
  assert (0 <= q * w)%Q as HB0 by (apply Qmult_le_0_compat; lra).
  assert (q * w <= (1 # 134217728) * (q * n))%Q as HB.
  { pose proof (Qmult_le_nonneg_l q w (n * (1 # 134217728)) ltac:(lra) Hw) as H.
    assert (q * (n * (1 # 134217728)) == (1 # 134217728) * (q * n))%Q as E by ring.
    lra. }
  assert (q * n <= d - q)%Q as HAd.
  { pose proof (Qmult_le_nonneg_l q n (k - 1) ltac:(lra) ltac:(lra)) as H.
    assert (q * (k - 1) == q * k - q)%Q as E by ring. lra. }
  assert (d <= 67108864 * q)%Q as Hdq.
  { pose proof (Qmult_le_nonneg_l q k 67108864 ltac:(lra) Hmax) as H. lra. }
  assert (s * (n + w) <= (1 + (1 # 9007199254740992)) * (q * n + q * w))%Q as HU.
  { pose proof (Qmult_le_compat_r s (q * (1 + (1 # 9007199254740992))) (n + w) HsU
                  ltac:(lra)) as H.
    assert (q * (1 + (1 # 9007199254740992)) * (n + w)
            == (1 + (1 # 9007199254740992)) * (q * n + q * w))%Q as E by ring.
    lra. }
  assert ((1 - (1 # 9007199254740992)) * (q * n - q * w) <= s * (n - w))%Q as HL.
  { pose proof (Qmult_le_compat_r (q * (1 - (1 # 9007199254740992))) s (n - w) HsL
                  ltac:(lra)) as H.
    assert (q * (1 - (1 # 9007199254740992)) * (n - w)
            == (1 - (1 # 9007199254740992)) * (q * n - q * w))%Q as E by ring.
    lra. }
  assert (n * q * (n + 2) * (1 # 9007199254740992)
          == q * w + (2 # 9007199254740992) * (q * n))%Q as -> by (unfold w; ring).
  assert (n * q == q * n)%Q as -> by ring.
  set (A := (q * n)%Q) in *. set (B := (q * w)%Q) in *.
  set (lo := (s * (n - w))%Q) in *. set (hi := (s * (n + w))%Q) in *.
  split; [apply Qabs_Qle_condition; split; lra |]. split; lra.
Qed.

Lemma round64_Num (x y : Q) : round64 x = Num y -> y = roundTo 53 x.
Proof. destruct (round64_cases x) as [-> | [-> _]]; congruence. Qed.

(** A division with a finite result had a finite dividend. *)
Lemma div_Num (x : number) (b y : Q) :
  div x (Num b) = Num y ->
  exists a, x = Num a /\ ~ (b == 0)%Q /\ y = roundTo 53 (a / b).
Proof.
  destruct x as [| s | a]; cbn [div]; [discriminate | discriminate |].
  destruct (Qeq_bool b 0) eqn:E; [by destruct (Qeq_bool a 0) |].
  apply Qeq_bool_neq in E. intros H. exists a. by apply round64_Num in H.
Qed.

Lemma mul_Num (x : number) (b y : Q) :
  mul x (Num b) = Num y -> exists a, x = Num a /\ y = roundTo 53 (a * b).
Proof.
  destruct x as [| s | a]; cbn [mul]; [discriminate | by destruct (Qeq_bool b 0) |].
  intros H. exists a. by apply round64_Num in H.
Qed.

(** The duration in doubles against the formula in exact arithmetic:
    four roundings, each within 2^-53. *)
Lemma calculateDuration_error (text : string) (rate d : Q) :
  (0 < rate)%Q ->
  calculateDuration text rate = Num d ->
  let exact := (inject_Z (Z.of_nat (String.length text)) / 5 / 150 * 60 / rate)%Q in
  (exact * (1 - (1 # 1125899906842624)) <= d /\
   d <= exact * (1 + (1 # 1125899906842624)))%Q.
Proof.
  intros Hrate. unfold calculateDuration. cbn zeta. intros H.
  apply div_Num in H as (m & H & _ & ->).
  apply mul_Num in H as (x & H & ->).
  apply div_Num in H as (w & H & _ & ->).
  apply div_Num in H as (c & H & _ & ->). injection H as <-.
  pose proof (inject_nat_nonneg (String.length text)) as Hc.
  set (c := inject_Z (Z.of_nat (String.length text))) in *.
  unfold Qdiv. change (/ 5)%Q with (1 # 5)%Q. change (/ 150)%Q with (1 # 150)%Q.
  destruct (round53_bounds (c * (1 # 5))) as [B1 _]. destruct (B1 ltac:(lra)) as [L1 U1].
  set (w := roundTo 53 (c * (1 # 5))) in *.
  destruct (round53_bounds (w * (1 # 150))) as [B2 _]. destruct (B2 ltac:(lra)) as [L2 U2].
  set (x := roundTo 53 (w * (1 # 150))) in *.
  destruct (round53_bounds (x * 60)) as [B3 _]. destruct (B3 ltac:(lra)) as [L3 U3].
  set (m := roundTo 53 (x * 60)) in *.
  assert (0 < / rate)%Q as Hinv by (by apply Qinv_lt_0_compat).
  assert (0 <= m)%Q as Hm by lra.
  assert (0 <= m * / rate)%Q as Hq by (apply Qmult_le_0_compat; lra).
  destruct (round53_bounds (m * / rate)) as [B4 _]. destruct (B4 Hq) as [L4 U4].
  set (d := roundTo 53 (m * / rate)) in *.
  set (e := (c * (1 # 5) * (1 # 150) * 60)%Q) in *.
  assert (e * ((1 - (1 # 9007199254740992)) * (1 - (1 # 9007199254740992))
               * (1 - (1 # 9007199254740992))) <= m)%Q as Lm by (unfold e; lra).
  assert (m <= e * ((1 + (1 # 9007199254740992)) * (1 + (1 # 9007199254740992))
                    * (1 + (1 # 9007199254740992))))%Q as Um by (unfold e; lra).
  assert (0 <= e)%Q as He by (unfold e; lra).
  pose proof (Qmult_le_compat_r _ _ (/ rate) Lm ltac:(lra)) as Lq.
  pose proof (Qmult_le_compat_r _ _ (/ rate) Um ltac:(lra)) as Uq.
  assert (0 <= e * / rate)%Q as Hex by (apply Qmult_le_0_compat; lra).
  set (k3 := ((1 + (1 # 9007199254740992)) * (1 + (1 # 9007199254740992))
              * (1 + (1 # 9007199254740992)))%Q) in *.
  set (j3 := ((1 - (1 # 9007199254740992)) * (1 - (1 # 9007199254740992))
              * (1 - (1 # 9007199254740992)))%Q) in *.
  assert (e * k3 * / rate == k3 * (e * / rate))%Q as Ek by ring.
  assert (e * j3 * / rate == j3 * (e * / rate))%Q as Ej by ring.
  rewrite Ek in Uq. rewrite Ej in Lq.
  set (q := (m * / rate)%Q) in *. set (ex := (e * / rate)%Q) in *.
  unfold k3, j3 in *. split; lra.
Qed.

(** A text whose duration by the formula is below 0.05 s by more than the
    rounding is below the double 0.05 in the code as well. *)
Lemma calculateDuration_short (text : string) (rate : Q) :
  (0 < rate)%Q ->
  (inject_Z (Z.of_nat (String.length text)) / 5 / 150 * 60 / rate
   <= 0.05 * (1 - (1 # 1125899906842624)))%Q ->
  forall d, calculateDuration text rate = Num d -> (d < literal 0.05)%Q.
Proof.
  intros Hrate Hshort d Hd.
  destruct (calculateDuration_error text rate d Hrate Hd) as [_ U].
  assert (literal 0.05 == 3602879701896397 # 72057594037927936)%Q as -> by (by vm_compute).
  set (e := (inject_Z (Z.of_nat (String.length text)) / 5 / 150 * 60 / rate)%Q) in *.
  assert (0 <= e \/ e < 0)%Q as [He | He] by (destruct (Qlt_le_dec e 0); auto).
  - assert (e * (1 + (1 # 1125899906842624))
            <= 0.05 * (1 - (1 # 1125899906842624)) * (1 + (1 # 1125899906842624)))%Q
      by (apply Qmult_le_compat_r; lra).
    lra.
  - lra.
Qed.

End DoubleFacts.

(** X13.  The synthesizer falls silent on short texts and on rates that
    are not positive.  When the rate is zero or negative, or the duration
    the code computes in doubles is below the double 0.05 of the
    fade-out (or is no finite number), the envelope asks for a time that
    is negative or not finite, the scheduling call throws, and
    [synthesizeTextToAudio] returns 44 zero bytes, on every platform. *)
Theorem synthesize_silent (p : Platform) (text voice : string) (rate : Q) :
  (rate <= 0)%Q \/
  (0 < rate /\
   inject_Z (Z.of_nat (String.length text)) / 5 / 150 * 60 / rate
   <= 0.05 * (1 - (1 # 1125899906842624)))%Q \/
  (forall d, Double.calculateDuration text rate = Num d -> (d < Double.literal 0.05)%Q) ->
  Double.synthesizeTextToAudio p text voice rate = Ok (replicate 44 0%Z).
Proof.
  intros H. rewrite DoubleFacts.synthesizeTextToAudio_outcomes.
  assert (forall d, Double.calculateDuration text rate = Num d ->
                    (d < Double.literal 0.05)%Q) as Hshort.
  { destruct H as [Hrate | [[Hrate Hexact] | H]]; [| | exact H].
    - intros d Hd.
      pose proof (DoubleFacts.calculateDuration_rate text rate d Hrate Hd).
      pose proof DoubleFacts.literal_005. lra.
    - by apply DoubleFacts.calculateDuration_short. }
  by destruct (DoubleFacts.setUpRendering_fade_out p text voice rate Hshort) as [e ->].
Qed.

Lemma synthesize_silent_witness :
  Double.calculateDuration "Fifteen letters" 24
  = Num (7205759403792793 # 144115188075855872) /\
  Double.literal 0.05 = (3602879701896397 # 72057594037927936)%Q /\
  Double.synthesizeTextToAudio silentPlatform "Fifteen letters" "nova" 24
  = Ok (replicate 44 0%Z) /\
  Double.synthesizeTextToAudio silentPlatform "Hi" "nova" 4 = Ok (replicate 44 0%Z) /\
  Double.synthesizeTextToAudio silentPlatform longText "nova" 0 = Ok (replicate 44 0%Z).
Proof.
  split; [by vm_compute |]. split; [by vm_compute |]. split; [| split].
  - apply synthesize_silent. right. right. intros d Hd. vm_compute in Hd.
    injection Hd as <-. by vm_compute.
  - apply synthesize_silent. right. left. split; [reflexivity | discriminate].
  - apply synthesize_silent. left. discriminate.
Defined.

(** X14.  When the synthesizer renders.  On a platform whose audio
    context runs at [sr] Hz (20 <= sr, 10 * sr <= 2^31), a text of at
    most 2^26 sentences whose duration [d], as the code computes it in
    doubles, is at least the double 0.05 (and at most 2^1000) is set up
    for rendering without an exception: one channel at [sr] Hz of
    min(ceil(d * sr), floor(10 * sr)) frames, both products rounded to
    doubles; a sine oscillator at the base frequency of the voice with
    one pitch event per sentence; and the gain envelope 0 at 0, ramp to
    0.5 at the double 0.02, 0.5 at the rounded difference d - 0.05, ramp
    to 0 at d.  If the renderer then resolves with at least one channel,
    the synthesizer returns the WAV file of its first channel: the
    44-byte mono header and two bytes per frame. *)
Theorem synthesize_renders (p : Platform) (text voice : string) (rate sr d : Q) :
  audioContext p = Ok sr ->
  Double.calculateDuration text rate = Num d ->
  (Double.literal 0.05 <= d)%Q -> (d <= 2 ^ 1000)%Q ->
  (20 <= sr)%Q -> (10 * sr <= 2147483648)%Q ->
  (Z.of_nat (length (sentencesOf text)) <= 67108864)%Z ->
  exists offlineCtx,
    Double.setUpRendering p text voice rate = Ok (sr, offlineCtx) /\
    ctxNumberOfChannels offlineCtx = 1 /\
    ctxSampleRate offlineCtx = sr /\
    Z.of_nat (ctxLength offlineCtx)
    = Z.min (Qceiling (Double.roundTo 53 (d * sr)))
        (Qfloor (Double.roundTo 53 (10 * sr))) /\
    1 <= ctxLength offlineCtx /\
    oscillatorType offlineCtx = "sine" /\
    value (oscillatorFrequency offlineCtx) = baseFrequency (getVoiceCharacteristics voice) /\
    length (events (oscillatorFrequency offlineCtx)) = length (sentencesOf text) /\
    gainNodeGain offlineCtx
    = {| value := 0.5;
         events := [SetValueAtTime 0 0;
                    LinearRampToValueAtTime 0.5 (Double.literal 0.02);
                    SetValueAtTime 0.5 (Double.roundTo 53 (d - Double.literal 0.05));
                    LinearRampToValueAtTime 0 d] |} /\
    (0 <= Double.roundTo 53 (d - Double.literal 0.05))%Q /\
    forall data rest,
      render p offlineCtx = Ok (data :: rest) ->
      exists audioData,
        Double.synthesizeTextToAudio p text voice rate = Ok audioData /\
        audioData
        = wavHeader (Z.of_nat (36 + ctxLength offlineCtx * 1 * 2)) 1 (Qtrunc sr)
            (Qtrunc (sr * 1 * 2)) 2 (Z.of_nat (ctxLength offlineCtx * 1 * 2))
          ++ pcmData [data] 1 (ctxLength offlineCtx) /\
        length audioData = 44 + 2 * ctxLength offlineCtx /\
        forall i, i < ctxLength offlineCtx ->
          getInt16 audioData (44 + 2 * i) = Some (wrapInt16 (quantize (index data i))).
Proof.
  intros Hctx Hd Hlong Hbig Hlo Hhi Hcount.
  destruct (DoubleFacts.setUpRendering_rounded p text voice rate sr d Hctx Hd Hlong Hbig
              Hlo Hhi Hcount)
    as (ctx & Hset & Hn & Hsr & Hlen & Hpos & Hty & Hval & Hev & Hgain & Ht2 & _).
  exists ctx. do 10 (split; [assumption |]).
  intros data rest Hren. rewrite DoubleFacts.synthesizeTextToAudio_outcomes, Hset.
  unfold startRendering. rewrite Hren. cbn [mbind result_bind].
  rewrite exportToWavArrayBuffer_enough by (cbn; lia).
  unfold wavHeaderOf. cbn [AudioBuffer.numberOfChannels AudioBuffer.length
                           AudioBuffer.sampleRate AudioBuffer.channelData].
  rewrite Hn, Hsr. cbn zeta.
  rewrite (pcmData_take (data :: rest) 1). cbn [take].
  eexists. split; [reflexivity |].
  split; [reflexivity |].
  split.
  - rewrite length_app, length_pcmData. change (length (wavHeader _ _ _ _ _ _)) with 44. lia.
  - intros i Hi.
    pose proof (getInt16_pcmData
                  (wavHeader (Z.of_nat (36 + ctxLength ctx * 1 * 2)) (Z.of_nat 1) (Qtrunc sr)
                     (Qtrunc (sr * inject_Z (Z.of_nat 1) * 2)) (Z.of_nat (1 * 2))
                     (Z.of_nat (ctxLength ctx * 1 * 2)))
                  [data] 1 (ctxLength ctx) i 0 Hi ltac:(lia)) as G.
    change (length (wavHeader _ _ _ _ _ _)) with 44 in G.
    replace (44 + 2 * (i * 1 + 0)) with (44 + 2 * i) in G by lia.
    exact G.
Qed.

Lemma synthesize_renders_witness :
  audioContext silentPlatform = Ok 8000%Q /\
  Double.calculateDuration "a" 1 = Num (1441151880758559 # 18014398509481984) /\
  (exists offlineCtx audioData,
     Double.setUpRendering silentPlatform "a" "onyx" 1 = Ok (8000%Q, offlineCtx) /\
     ctxLength offlineCtx = 641 /\
     value (oscillatorFrequency offlineCtx) = 110%Q /\
     length (events (oscillatorFrequency offlineCtx)) = 1 /\
     Double.synthesizeTextToAudio silentPlatform "a" "onyx" 1 = Ok audioData /\
     length audioData = 1326) /\
  Double.calculateDuration "a" (Double.literal 1.6)
  = Num (7205759403792795 # 144115188075855872) /\
  (exists offlineCtx,
     Double.setUpRendering silentPlatform "a" "onyx" (Double.literal 1.6)
     = Ok (8000%Q, offlineCtx) /\
     ctxLength offlineCtx = 401).
Proof.
  split; [reflexivity |]. split; [by vm_compute |]. split; [| split; [by vm_compute |]].
  - destruct (synthesize_renders silentPlatform "a" "onyx" 1 8000
                (1441151880758559 # 18014398509481984) eq_refl)
      as (ctx & Hset & _ & _ & Hlen & _ & _ & Hval & Hev & _ & _ & Hwav);
      [by vm_compute | by vm_compute | by vm_compute | discriminate | discriminate
      | by vm_compute |].
    assert (ctxLength ctx = 641) as Hframes
      by (apply Nat2Z.inj; rewrite Hlen; by vm_compute).
    destruct (Hwav (replicate (ctxLength ctx) (Num 0%Q)) [] eq_refl)
      as (audioData & Hsyn & _ & Hsize & _).
    exists ctx, audioData. split; [exact Hset |]. split; [exact Hframes |].
    split; [exact Hval |]. split; [exact Hev |]. split; [exact Hsyn |].
    rewrite Hsize, Hframes. reflexivity.
  - destruct (synthesize_renders silentPlatform "a" "onyx" (Double.literal 1.6) 8000
                (7205759403792795 # 144115188075855872) eq_refl)
      as (ctx & Hset & _ & _ & Hlen & _);
      [by vm_compute | by vm_compute | by vm_compute | discriminate | discriminate
      | by vm_compute |].
    exists ctx. split; [exact Hset |].
    apply Nat2Z.inj. rewrite Hlen. by vm_compute.
Defined.

(** ** Voice profiles *)

Lemma toLowerCaseChar_idem (c : ascii) :
  toLowerCaseChar (toLowerCaseChar c) = toLowerCaseChar c.
Proof. by destruct c as [[] [] [] [] [] [] [] []]; vm_compute. Qed.

Lemma toLowerCase_idem (s : string) : toLowerCase (toLowerCase s) = toLowerCase s.
Proof. induction s as [| c s IH]; [done |]. cbn. by rewrite toLowerCaseChar_idem, IH. Qed.

(** X15.  Every voice profile, the default included, has the same
    shape: a base frequency between 110 and 220 Hz, three sine formants
    with rising frequencies and falling gains that start at 1, and
    emphasis, breathiness and syllable rate within fixed bounds; the
    lookup does not depend on the case of the id.  The six built-in
    voices sort by gender: the male ones have a base frequency of at most
    140 Hz, the female ones of at least 175 Hz. *)
Theorem voice_profiles (voiceId : string) :
  let c := getVoiceCharacteristics voiceId in
  (110 <= baseFrequency c <= 220)%Q /\
  (exists f1 f2 f3 g1 g2 g3,
     formants c = [sine f1 g1; sine f2 g2; sine f3 g3] /\
     (f1 < f2 < f3)%Q /\ (0 < g3 < g2)%Q /\ (g2 < g1)%Q /\ (g1 == 1)%Q) /\
  (1.1 <= emphasis c <= 1.6)%Q /\
  (0.05 <= breathiness c <= 0.25)%Q /\
  (3.5 <= syllableRate c <= 4.4)%Q /\
  getVoiceCharacteristics (toLowerCase voiceId) = c /\
  Forall (fun v =>
            let b := baseFrequency (getVoiceCharacteristics (id v)) in
            (gender v = "male" -> (b <= 140)%Q) /\
            (gender v = "female" -> (175 <= b)%Q) /\
            (gender v = "male" \/ gender v = "female"))
         HIGH_QUALITY_VOICES.
Proof.
  cbn zeta. split; [| split; [| split; [| split; [| split; [| split]]]]].
  6: { unfold getVoiceCharacteristics. cbn zeta. by rewrite toLowerCase_idem. }
  6: { unfold HIGH_QUALITY_VOICES.
       repeat (constructor;
               [cbn [id gender]; split; [| split];
                [intros G; try discriminate G; by vm_compute ..
                | (by left) || (by right)] |]).
       constructor. }
  all: unfold getVoiceCharacteristics; cbn zeta;
    repeat (destruct (_ =? _)%string; [cbn; try (split; by vm_compute) |]);
    cbn; try (split; by vm_compute).
  all: do 6 eexists; (split; [reflexivity |]); repeat split; by vm_compute.
Qed.

(** ** The choice of a native voice *)

Lemma find_all_false {A} (f : A -> bool) (l : list A) :
  (forall x, In x l -> f x = false) -> find f l = None.
Proof.
  induction l as [| x l IH]; [done |]. intros H. cbn.
  rewrite (H x) by (by left). apply IH. intros y Hy. apply H. by right.
Qed.

Lemma find_first {A} (f : A -> bool) (before after : list A) (v : A) :
  (forall x, In x before -> f x = false) -> f v = true ->
  find f (before ++ v :: after) = Some v.
Proof.
  induction before as [| x before IH]; intros H Hv; cbn.
  - by rewrite Hv.
  - rewrite (H x) by (by left). apply IH; [| done]. intros y Hy. apply H. by right.
Qed.

Lemma find_Some_In {A} (f : A -> bool) (l : list A) (v : A) :
  find f l = Some v -> In v l /\ f v = true.
Proof. apply find_some. Qed.

Lemma find_None_all {A} (f : A -> bool) (l : list A) :
  find f l = None -> forall x, In x l -> f x = false.
Proof. apply find_none. Qed.

(** X16.  The voice [useBrowserTTS] gives an utterance is one of the
    engine's voices, and either its lower-cased name contains the
    lower-cased voice id or its language tag starts with "en".  No voice
    is chosen exactly when the voice id is empty or no voice of the
    engine is of either kind.  The first voice whose name contains the id
    is chosen whatever its language. *)
Theorem selectVoice_choice (voice : string) (voices : list SpeechSynthesisVoice.t) :
  (forall v, selectVoice voice voices = Some v ->
     In v voices /\
     (nameMatch voice v = true \/ startsWith (SpeechSynthesisVoice.lang v) "en" = true)) /\
  (selectVoice voice voices = None <->
   voice = "" \/
   forall v, In v voices ->
     nameMatch voice v = false /\ startsWith (SpeechSynthesisVoice.lang v) "en" = false) /\
  (forall before v after,
     voice <> "" -> voices = before ++ v :: after ->
     (forall u, In u before -> nameMatch voice u = false) ->
     nameMatch voice v = true ->
     selectVoice voice voices = Some v).
Proof.
  unfold selectVoice. cbn zeta. split; [| split].
  - intros v. destruct (negb _ && _); [| done].
    destruct (find (nameMatch voice) voices) as [v1 |] eqn:F1.
    { intros [= <-]. apply find_Some_In in F1 as [? ?]. auto. }
    destruct (find (genderMatch (getVoiceGender voice)) voices) as [v2 |] eqn:F2.
    { intros [= <-]. apply find_Some_In in F2 as [? G]. unfold genderMatch in G.
      apply andb_prop in G as [? _]. auto. }
    intros F3. apply find_Some_In in F3 as [? ?]. auto.
  - destruct (String.eqb_spec voice "") as [-> | Hv]; cbn [negb andb]; [by split; auto |].
    destruct voices as [| v0 voices]; [cbn; split; [right; intros v [] | done] |].
    change (0 <? length (v0 :: voices)) with true. cbv iota.
    destruct (find (nameMatch voice) (v0 :: voices)) as [v1 |] eqn:F1.
    { split; [done |]. intros [? | H]; [done |]. apply find_Some_In in F1 as [I M].
      destruct (H v1 I). congruence. }
    destruct (find (genderMatch (getVoiceGender voice)) (v0 :: voices)) as [v2 |] eqn:F2.
    { split; [done |]. intros [? | H]; [done |]. apply find_Some_In in F2 as [I G].
      unfold genderMatch in G. apply andb_prop in G as [G _].
      destruct (H v2 I). congruence. }
    split.
    + intros F3. right. intros v I. split.
      * exact (find_None_all _ _ F1 v I).
      * exact (find_None_all _ _ F3 v I).
    + intros [? | H]; [done |]. apply find_all_false. intros v I. by destruct (H v I).
  - intros before v after Hv -> Hb Hm.
    destruct (String.eqb_spec voice ""); [done |]. cbn [negb andb].
    rewrite length_app. cbn [length].
    destruct (Nat.ltb_spec 0 (length before + S (length after))); [| lia].
    by rewrite (find_first _ before after v Hb Hm).
Qed.

Lemma selectVoice_choice_witness :
  selectVoice "nova" nativeVoices
  = Some (SpeechSynthesisVoice.mk "Google UK English Female" "en-GB") /\
  selectVoice "male" nativeVoices
  = Some (SpeechSynthesisVoice.mk "Google UK English Female" "en-GB") /\
  selectVoice "" nativeVoices = None.
Proof.
  split; [reflexivity |]. split.
  - apply (proj2 (proj2 (selectVoice_choice "male" nativeVoices))
             [SpeechSynthesisVoice.mk "Karen" "en-AU"] _
             [SpeechSynthesisVoice.mk "Google UK English Male" "en-GB"]);
      [discriminate | reflexivity | | reflexivity].
    intros u [<- | []]. reflexivity.
  - apply (proj1 (proj2 (selectVoice_choice "" nativeVoices))). by left.
Defined.

Lemma search_app (r : regex) (pre t : list ascii) :
  search r t = true -> search r (pre ++ t) = true.
Proof.
  intros H. induction pre as [| c pre IH]; [done |].
  cbn [app search]. rewrite IH. apply orb_true_r.
Qed.

Lemma search_inv (r : regex) (s : list ascii) :
  search r s = true -> exists pre t, s = pre ++ t /\ accept r t = true.
Proof.
  induction s as [| c s IH]; cbn [search]; intros H; apply orb_prop in H as [H | H].
  - by exists [], [].
  - done.
  - by exists [], (c :: s).
  - destruct (IH H) as (pre & t & -> & Ht). by exists (c :: pre), t.
Qed.

Lemma accept_search (r : regex) (s : list ascii) : accept r s = true -> search r s = true.
Proof. intros H. destruct s; cbn [search]; by rewrite H. Qed.

Lemma femaleWord_maleName (t : list ascii) :
  accept femaleWord t = true -> accept maleName (drop 2 t) = true.
Proof.
  unfold accept, femaleWord, maleName, strI. intros H.
  do 6 (destruct t as [| ? t]; [cbn in *; repeat case_match; done |]).
  cbn in *. repeat case_match; done.
Qed.

(** Every name the female pattern matches through "female" or "woman"
    is matched by the male pattern too. *)
Lemma femaleWord_matches_maleName (s : string) :
  matches s femaleWord = true -> matches s maleName = true.
Proof.
  unfold matches. intros H. apply search_inv in H as (pre & t & -> & Ht).
  apply femaleWord_maleName in Ht.
  assert (t = take 2 t ++ drop 2 t) as -> by (symmetry; apply take_drop).
  rewrite app_assoc. by apply search_app, accept_search.
Qed.

Lemma getVoiceGender_cases (voiceId : string) :
  getVoiceGender voiceId =
  if (voiceId =? "echo")%string || (voiceId =? "fable")%string || (voiceId =? "onyx")%string
  then "male" else "female".
Proof.
  unfold getVoiceGender, HIGH_QUALITY_VOICES. cbn [find id gender].
  destruct (String.eqb_spec "alloy" voiceId) as [<- | _]; [done |].
  destruct (String.eqb_spec "echo" voiceId) as [<- | N1]; [done |].
  destruct (String.eqb_spec "fable" voiceId) as [<- | N2]; [done |].
  destruct (String.eqb_spec "onyx" voiceId) as [<- | N3]; [done |].
  assert ((voiceId =? "echo")%string = false) as -> by (apply String.eqb_neq; congruence).
  assert ((voiceId =? "fable")%string = false) as -> by (apply String.eqb_neq; congruence).
  assert ((voiceId =? "onyx")%string = false) as -> by (apply String.eqb_neq; congruence).
  destruct (String.eqb_spec "nova" voiceId) as [<- | _]; [done |].
  by destruct (String.eqb_spec "shimmer" voiceId) as [<- | _].
Qed.

(** X17.  The male pattern [/male|man|boy/i] also matches the names the
    female pattern matches through "female" and "woman".  So for a male
    voice id that no voice name contains, the first English voice whose
    name says "female" or "woman" is chosen, when no English voice before
    it matches the male pattern, even if a voice named male follows. *)
Theorem male_voice_takes_female_name (voice : string)
    (before after : list SpeechSynthesisVoice.t) (v : SpeechSynthesisVoice.t) :
  getVoiceGender voice = "male" ->
  (forall u, In u (before ++ v :: after) -> nameMatch voice u = false) ->
  (forall u, In u before ->
     startsWith (SpeechSynthesisVoice.lang u) "en" = false \/
     matches (SpeechSynthesisVoice.name u) maleName = false) ->
  startsWith (SpeechSynthesisVoice.lang v) "en" = true ->
  matches (SpeechSynthesisVoice.name v) femaleWord = true ->
  selectVoice voice (before ++ v :: after) = Some v.
Proof.
  intros Hg Hn Hb Hen Hf. unfold selectVoice. cbn zeta.
  assert (voice <> "") as Hv by (intros ->; discriminate Hg).
  destruct (String.eqb_spec voice ""); [done |]. cbn [negb andb].
  rewrite length_app. cbn [length].
  destruct (Nat.ltb_spec 0 (length before + S (length after))); [| lia].
  rewrite (find_all_false _ _ Hn), Hg.
  rewrite (find_first _ before after v); [done | |].
  - intros u Hu. unfold genderMatch. cbn [String.eqb Ascii.eqb Bool.eqb andb orb].
    destruct (Hb u Hu) as [-> | ->]; [done | apply andb_false_r].
  - unfold genderMatch. rewrite Hen, (femaleWord_matches_maleName _ Hf). done.
Qed.

Lemma male_voice_takes_female_name_witness :
  getVoiceGender "onyx" = "male" /\
  selectVoice "onyx" nativeVoices
  = Some (SpeechSynthesisVoice.mk "Google UK English Female" "en-GB").
Proof.
  split; [reflexivity |].
  apply (male_voice_takes_female_name "onyx" [SpeechSynthesisVoice.mk "Karen" "en-AU"]
           [SpeechSynthesisVoice.mk "Google UK English Male" "en-GB"]
           (SpeechSynthesisVoice.mk "Google UK English Female" "en-GB")).
  - reflexivity.
  - intros u [<- | [<- | [<- | []]]]; reflexivity.
  - intros u [<- | []]. right. reflexivity.
  - reflexivity.
  - reflexivity.
Defined.

(** X18.  [getVoiceGender] compares ids exactly, [getVoiceCharacteristics]
    after lower-casing: the gender is "male" exactly for the ids echo,
    fable and onyx as written, and "female" for every other string.  An
    id that names one of these three in another case therefore gets the
    low-pitched profile of the male voice and the gender "female". *)
Theorem voice_gender_case (voiceId : string) :
  (getVoiceGender voiceId = "male" <-> In voiceId ["echo"; "fable"; "onyx"]) /\
  (getVoiceGender voiceId = "male" \/ getVoiceGender voiceId = "female") /\
  (In (toLowerCase voiceId) ["echo"; "fable"; "onyx"] ->
   voiceId <> toLowerCase voiceId ->
   getVoiceGender voiceId = "female" /\
   (baseFrequency (getVoiceCharacteristics voiceId) <= 140)%Q).
Proof.
  rewrite getVoiceGender_cases. split; [| split].
  - destruct (String.eqb_spec voiceId "echo") as [-> | N1];
      [split; [intros _; cbn; auto | done] |].
    destruct (String.eqb_spec voiceId "fable") as [-> | N2];
      [split; [intros _; cbn; auto | done] |].
    destruct (String.eqb_spec voiceId "onyx") as [-> | N3];
      [split; [intros _; cbn; auto | done] |].
    cbn. split; [done |]. intros [? | [? | [? | []]]]; congruence.
  - destruct (_ || _); auto.
  - intros Hin Hne. split.
    + destruct (String.eqb_spec voiceId "echo") as [-> | N1]; [done |].
      destruct (String.eqb_spec voiceId "fable") as [-> | N2]; [done |].
      by destruct (String.eqb_spec voiceId "onyx") as [-> | N3].
    + unfold getVoiceCharacteristics. cbn zeta.
      destruct Hin as [<- | [<- | [<- | []]]]; by vm_compute.
Qed.

Lemma voice_gender_case_witness :
  getVoiceGender "Echo" = "female" /\
  (baseFrequency (getVoiceCharacteristics "Echo") <= 140)%Q.
Proof.
  apply (proj2 (proj2 (voice_gender_case "Echo"))); [| discriminate].
  left. reflexivity.
Defined.

(** ** The markdown clean-up *)

(** A match consumes a prefix of the input: what the continuation gets
    is a suffix of what the expression was given. *)
Lemma rmatch_suffix (r : regex) :
  forall R (s cap : list ascii) (k : list ascii -> list ascii -> option R) (x : R),
    rmatch r s cap k = Some x ->
    exists s' cap', s' `suffix_of` s /\ k s' cap' = Some x.
Proof.
  induction r as [| class | r1 IH1 r2 IH2 | r1 IH1 r2 IH2 | greedy r1 IH1 | r1 IH1];
    intros R s cap k x H; cbn [rmatch] in H.
  - by exists s, cap.
  - destruct s as [| c s]; [done |]. destruct (class c); [| done].
    exists s, cap. split; [by apply suffix_cons_r | done].
  - apply IH1 in H as (s1 & cap1 & S1 & H). apply IH2 in H as (s2 & cap2 & S2 & H).
    exists s2, cap2. split; [by etrans | done].
  - destruct (rmatch r1 s cap k) as [y |] eqn:E.
    + injection H as ->. by apply IH1 in E.
    + by apply IH2 in H.
  - revert H. generalize (length s) at 1. intros fuel. revert s cap.
    induction fuel as [| fuel IHf]; intros s cap H; [by exists s, cap |].
    cbv zeta in H.
    match type of H with
    | (if greedy then match ?again with _ => _ end else _) = _ =>
        destruct again as [y |] eqn:A
    end.
    + assert (y = x \/ k s cap = Some x) as [-> | K].
      { destruct greedy; [injection H as ->; by left |].
        destruct (k s cap); [by right | injection H as ->; by left]. }
      * apply IH1 in A as (s1 & cap1 & S1 & A).
        destruct (length s1 <? length s); [| done].
        apply IHf in A as (s2 & cap2 & S2 & A).
        exists s2, cap2. split; [by etrans | done].
      * by exists s, cap.
    + assert (k s cap = Some x) as K by (destruct greedy; [done | by destruct (k s cap)]).
      by exists s, cap.
  - apply IH1 in H as (s1 & cap1 & S1 & H). by exists s1, (take (length s - length s1) s).
Qed.

Lemma replaceFrom_Forall (P : ascii -> Prop) (r : regex)
    (replacement : list ascii -> list ascii) (fuel : nat) (s : list ascii) :
  (forall cap, Forall P (replacement cap)) ->
  Forall P s -> Forall P (replaceFrom fuel r replacement s).
Proof.
  intros Hrep. revert s. induction fuel as [| fuel IH]; intros s Hs; [by destruct s |].
  destruct s as [| c s]; [done |]. cbn [replaceFrom].
  apply Forall_cons in Hs as [Hc Hs].
  destruct (rmatch r (c :: s) [] _) as [[rest cap] |] eqn:E.
  - apply rmatch_suffix in E as (s' & cap' & [pre Hpre] & Hk).
    cbn beta in Hk. simplify_eq.
    destruct (length rest <? length (c :: s)).
    + apply Forall_app. split; [apply Hrep |]. apply IH.
      assert (Forall P (c :: s)) as Hcs by (by constructor).
      rewrite Hpre in Hcs. by apply Forall_app in Hcs as [_ ?].
    + constructor; [done | by apply IH].
  - constructor; [done | by apply IH].
Qed.

Lemma emphasisMarks_consumes (c : ascii) (s rest cap : list ascii) :
  rmatch emphasisMarks (c :: s) [] (fun rest cap => Some (rest, cap)) = Some (rest, cap) ->
  length rest < length (c :: s).
Proof.
  unfold emphasisMarks, str. cbn. destruct s as [| c' s]; cbn.
  all: repeat case_match; intros Hm; simplify_eq; cbn; lia.
Qed.

Lemma emphasisMarks_rejects (c : ascii) (s : list ascii) :
  rmatch emphasisMarks (c :: s) [] (fun rest cap => Some (rest, cap)) = None ->
  isEmphasisMark c = false.
Proof.
  unfold emphasisMarks, str, isEmphasisMark. cbn.
  destruct (Ascii.eqb c "*") eqn:E1; [destruct s; cbn; repeat case_match; done |].
  destruct (Ascii.eqb c "_") eqn:E2; [destruct s; cbn; repeat case_match; done |].
  destruct (Ascii.eqb c "`") eqn:E3; [destruct s; cbn; repeat case_match; done |].
  done.
Qed.

Lemma emphasisMarks_removed (fuel : nat) (s : list ascii) :
  length s <= fuel ->
  Forall (fun c => isEmphasisMark c = false) (replaceFrom fuel emphasisMarks (fun _ => []) s).
Proof.
  revert s. induction fuel as [| fuel IH]; intros s Hs.
  { destruct s; [constructor | cbn in Hs; lia]. }
  destruct s as [| c s]; [constructor |]. cbn [replaceFrom]. cbn [length] in Hs.
  destruct (rmatch emphasisMarks (c :: s) [] _) as [[rest cap] |] eqn:E.
  - pose proof (emphasisMarks_consumes _ _ _ _ E) as L.
    destruct (Nat.ltb_spec (length rest) (length (c :: s))); [| lia].
    cbn [app]. apply IH. cbn [length] in L. lia.
  - apply emphasisMarks_rejects in E. constructor; [done |]. apply IH. lia.
Qed.

Lemma Forall_dropWhile {A} (P : A -> Prop) (f : A -> bool) (l : list A) :
  Forall P l -> Forall P (dropWhile f l).
Proof.
  induction 1 as [| x l Hx Hl IH]; [constructor |]. cbn.
  destruct (f x); [done | by constructor].
Qed.

Lemma dropWhile_head {A} (f : A -> bool) (l : list A) (x : A) :
  head (dropWhile f l) = Some x -> f x = false.
Proof.
  induction l as [| y l IH]; [done |]. cbn. destruct (f y) eqn:E; [done |].
  cbn. by intros [= <-].
Qed.

Lemma dropWhile_suffix {A} (f : A -> bool) (l : list A) : dropWhile f l `suffix_of` l.
Proof.
  induction l as [| y l IH]; [done |]. cbn.
  destruct (f y); [by apply suffix_cons_r | done].
Qed.

Lemma head_rev_last {A} (l : list A) : head (rev l) = last l.
Proof.
  induction l as [| x l IH] using rev_ind; [done |].
  by rewrite rev_app_distr, last_snoc.
Qed.

Lemma trimChars_ends (cs : list ascii) :
  (forall c, head (trimChars cs) = Some c -> isWhiteSpace c = false) /\
  (forall c, last (trimChars cs) = Some c -> isWhiteSpace c = false).
Proof.
  unfold trimChars.
  set (m := dropWhile isWhiteSpace cs).
  set (n := dropWhile isWhiteSpace (rev m)). split; intros c Hc.
  - rewrite head_rev_last in Hc.
    destruct (dropWhile_suffix isWhiteSpace (rev m)) as [pre Hpre]. fold n in Hpre.
    assert (last (rev m) = Some c) as Hl.
    { rewrite Hpre. destruct n as [| y n] using rev_ind; [done |].
      rewrite last_snoc in Hc. by rewrite app_assoc, last_snoc. }
    rewrite <- head_rev_last, rev_involutive in Hl.
    by apply dropWhile_head in Hl.
  - rewrite <- head_rev_last, rev_involutive in Hc. by apply dropWhile_head in Hc.
Qed.

(** X19.  What [speak] hands on after the clean-up has no emphasis
    mark left in it (no asterisk, underscore or backtick, wherever it
    stood in the text), and neither starts nor ends with a white-space
    character. *)
Theorem cleanText_marks_removed (text : string) :
  let clean := list_ascii_of_string (cleanText text) in
  Forall (fun c => isEmphasisMark c = false) clean /\
  (forall c, head clean = Some c -> isWhiteSpace c = false) /\
  (forall c, last clean = Some c -> isWhiteSpace c = false).
Proof.
  cbn zeta. unfold cleanText. rewrite list_ascii_of_string_of_list_ascii.
  unfold cleanTextChars. cbn zeta. split; [| apply trimChars_ends].
  unfold trimChars. apply List.Forall_rev, Forall_dropWhile, List.Forall_rev, Forall_dropWhile.
  unfold replaceAll.
  apply replaceFrom_Forall; [intros _; by repeat constructor |].
  apply replaceFrom_Forall; [intros _; by repeat constructor |].
  apply replaceFrom_Forall; [intros _; by repeat constructor |].
  by apply emphasisMarks_removed.
Qed.

(** The greedy [\s*] takes the whole run of white space. *)
Lemma star_whiteSpace (s cap : list ascii) :
  rmatch (Star true whiteSpace) s cap (fun rest cap => Some (rest, cap))
  = Some (dropWhile isWhiteSpace s, cap).
Proof.
  induction s as [| a s IH]; [reflexivity |].
  change (rmatch (Star true whiteSpace) (a :: s) cap (fun rest cap => Some (rest, cap)))
    with (match (if isWhiteSpace a
                 then (if length s <? length (a :: s)
                       then rmatch (Star true whiteSpace) s cap
                              (fun rest cap => Some (rest, cap))
                       else None)
                 else None) with
          | Some x => Some x
          | None => Some (a :: s, cap)
          end).
  cbn [dropWhile]. destruct (isWhiteSpace a); [| done].
  cbn [length]. destruct (Nat.ltb_spec (length s) (S (length s))); [| lia].
  by rewrite IH.
Qed.

Lemma whiteSpaceRun_match (s : list ascii) :
  rmatch whiteSpaceRun s [] (fun rest cap => Some (rest, cap)) =
  match s with
  | c :: c' :: s' =>
      if isWhiteSpace c && isWhiteSpace c'
      then Some (dropWhile isWhiteSpace s', [])
      else None
  | _ => None
  end.
Proof.
  unfold whiteSpaceRun, plus.
  destruct s as [| c [| c' s]]; cbn [rmatch whiteSpace]; [done | by destruct (isWhiteSpace c) |].
  destruct (isWhiteSpace c); [| done]. destruct (isWhiteSpace c'); [| done].
  apply star_whiteSpace.
Qed.

Lemma length_dropWhile {A} (f : A -> bool) (l : list A) : length (dropWhile f l) <= length l.
Proof. induction l as [| x l IH]; [done |]. cbn. destruct (f x); cbn; lia. Qed.

Lemma whiteSpaceRun_replaced (fuel : nat) (s : list ascii) :
  length s <= fuel ->
  let out := replaceFrom fuel whiteSpaceRun (fun _ => list_ascii_of_string " ") s in
  noWhiteSpaceRun out = true /\
  (forall c, head out = Some c -> isWhiteSpace c = true ->
     exists c', head s = Some c' /\ isWhiteSpace c' = true).
Proof.
  revert s. induction fuel as [| fuel IH]; intros s Hs out.
  { destruct s; [split; [done | intros c [=]] | cbn in Hs; lia]. }
  destruct s as [| c s]; [split; [done | intros c [=]] |].
  subst out. cbn [replaceFrom]. rewrite whiteSpaceRun_match. cbn [length] in Hs.
  assert (forall t : list ascii,
            length t <= fuel ->
            (forall x, head t = Some x -> isWhiteSpace x = false) ->
            forall x, head (replaceFrom fuel whiteSpaceRun
                              (fun _ => list_ascii_of_string " ") t) = Some x ->
                      isWhiteSpace x = false) as Hhead.
  { intros t Ht Hx x Hout. destruct (isWhiteSpace x) eqn:Ex; [| done].
    destruct (IH t Ht) as [_ Hh]. destruct (Hh x Hout Ex) as (x' & Hx' & Ex').
    rewrite (Hx x' Hx') in Ex'. done. }
  assert (forall (a : ascii) (t : list ascii),
            length t <= fuel ->
            (isWhiteSpace a = true -> forall x, head t = Some x -> isWhiteSpace x = false) ->
            noWhiteSpaceRun (a :: replaceFrom fuel whiteSpaceRun
                                    (fun _ => list_ascii_of_string " ") t) = true) as Hcons.
  { intros a t Ht Ha. cbn [noWhiteSpaceRun]. destruct (IH t Ht) as [-> _].
    rewrite andb_true_r. apply negb_true_iff.
    destruct (isWhiteSpace a) eqn:Ea; [| done]. cbn [andb].
    destruct (replaceFrom fuel _ _ t) as [| x out] eqn:Eout; [done |].
    apply (Hhead t Ht (Ha eq_refl)). by rewrite Eout. }
  destruct s as [| c' s].
  { split; [apply Hcons; [cbn; lia | intros _ x [=]] |].
    intros x [= <-] Ex. by exists c. }
  destruct (isWhiteSpace c) eqn:Ec; cbn [andb].
  - destruct (isWhiteSpace c') eqn:Ec'.
    + pose proof (length_dropWhile isWhiteSpace s) as L.
      destruct (Nat.ltb_spec (length (dropWhile isWhiteSpace s)) (length (c :: c' :: s)));
        [| cbn [length] in *; lia].
      cbn [list_ascii_of_string app]. split.
      * apply Hcons; [cbn [length] in Hs; lia |].
        intros _ x Hx. by apply dropWhile_head in Hx.
      * intros x _ _. by exists c.
    + split; [apply Hcons; [lia | intros _ x [= <-]; done] |].
      intros x _ _. by exists c.
  - split; [apply Hcons; [lia | intros E; congruence] |].
    intros x [= <-] Ex. congruence.
Qed.

Lemma noWhiteSpaceRun_app (pre post : list ascii) (c c' : ascii) :
  noWhiteSpaceRun (pre ++ c :: c' :: post) = true ->
  isWhiteSpace c = false \/ isWhiteSpace c' = false.
Proof.
  induction pre as [| x pre IH]; cbn [app noWhiteSpaceRun]; intros H;
    apply andb_prop in H as [H1 H2].
  - apply negb_true_iff, andb_false_iff in H1. exact H1.
  - by apply IH.
Qed.

Lemma noWhiteSpaceRun_suffix (l l' : list ascii) :
  l' `suffix_of` l -> noWhiteSpaceRun l = true -> noWhiteSpaceRun l' = true.
Proof.
  intros [pre ->]. induction pre as [| x pre IH]; [done |].
  cbn [app noWhiteSpaceRun]. intros H. apply andb_prop in H as [_ H]. by apply IH.
Qed.

Lemma noWhiteSpaceRun_snoc (l : list ascii) (c : ascii) :
  noWhiteSpaceRun (l ++ [c]) =
  noWhiteSpaceRun l &&
  negb (match last l with Some x => isWhiteSpace x | None => false end && isWhiteSpace c).
Proof.
  induction l as [| x l IH]; [cbn; by rewrite andb_false_r |].
  cbn [app noWhiteSpaceRun]. rewrite IH.
  destruct l as [| y l]; cbn [app last].
  - by destruct (isWhiteSpace x), (isWhiteSpace c).
  - by rewrite andb_assoc.
Qed.

Lemma noWhiteSpaceRun_rev (l : list ascii) : noWhiteSpaceRun (rev l) = noWhiteSpaceRun l.
Proof.
  induction l as [| x l IH]; [done |].
  cbn [rev noWhiteSpaceRun]. rewrite noWhiteSpaceRun_snoc, IH, <- head_rev_last, rev_involutive.
  destruct l as [| y l]; cbn [head].
  - by rewrite andb_false_r.
  - rewrite andb_comm. f_equal. f_equal. apply andb_comm.
Qed.

(** X20.  After the clean-up no two white-space characters stand next
    to each other: every run of white space in the text has become one
    space, or is a single white-space character of the text. *)
Theorem cleanText_single_spaces (text : string) (pre post : list ascii) (c c' : ascii) :
  list_ascii_of_string (cleanText text) = pre ++ c :: c' :: post ->
  isWhiteSpace c = false \/ isWhiteSpace c' = false.
Proof.
  unfold cleanText. rewrite list_ascii_of_string_of_list_ascii.
  unfold cleanTextChars. cbn zeta. intros H.
  apply (noWhiteSpaceRun_app pre post). rewrite <- H. unfold trimChars.
  rewrite noWhiteSpaceRun_rev.
  apply (noWhiteSpaceRun_suffix _ _ (dropWhile_suffix _ _)).
  rewrite noWhiteSpaceRun_rev.
  apply (noWhiteSpaceRun_suffix _ _ (dropWhile_suffix _ _)).
  unfold replaceAll. by apply whiteSpaceRun_replaced.
Qed.

Lemma cleanText_single_spaces_witness :
  cleanText "a  **b**   c " = "a b c" /\
  (isWhiteSpace " " = false \/ isWhiteSpace "b" = false).
Proof.
  split; [reflexivity |].
  apply (cleanText_single_spaces "a  **b**   c " (list_ascii_of_string "a")
           (list_ascii_of_string " c")).
  reflexivity.
Defined.

(** ** The hook from its first render *)

(** X21.  Initialisation never throws and leaves the hook idle: an
    audio element that is paused at 0 with rate 1, the native engine of
    the page if it has one, the cache database if it could be opened.
    The hook is [available] exactly when the AudioContext constructor
    succeeded.  When it threw, [error] says so and every later [speak]
    returns without doing anything, native engine or not. *)
Theorem hook_initialisation (p : Platform) (window : Window) :
  exists w,
    initialize p window initialState = (Ok tt, w) /\
    isSpeaking w = false /\ isLoading w = false /\ calls w = [] /\
    audioRef w = Some {| src := None; paused := true; currentTime := 0; playbackRate := 1 |} /\
    synthesisRef w = speechSynthesis window /\
    cacheDBRef w = (match openDatabase window with Ok db => Some db | Throw _ => None end) /\
    (available w = true <-> exists sampleRate, audioContext p = Ok sampleRate) /\
    (available w = true -> error w = None) /\
    (available w = false ->
     error w = Some "Advanced audio features not supported in this browser" /\
     forall options p' text, speak options p' text w = (Ok tt, w)).
Proof.
  unfold initialize, initializeAudioCache, initialState, setAvailable. run_M.
  destruct (speechSynthesis window) as [s |], (audioContext p) as [sr | e],
    (openDatabase window) as [db | e']; cbn.
  all: eexists; (split; [reflexivity |]); cbn.
  all: do 6 (split; [reflexivity |]).
  all: split; [split; [intros; by eauto | intros [? ?]; done] |].
  all: split; [done |].
  all: intros Ha; try discriminate Ha; (split; [done |]).
  all: intros options p' text; unfold speak; run_M; cbn; by rewrite orb_true_r.
Qed.

Lemma getFromCache_calls (p : Platform) (cacheKey : string) (w : TTS) :
  exists r l,
    getFromCache p cacheKey w = (Ok r, logged l w) /\ speaksOnly apology l.
Proof.
  unfold getFromCache. run_M. unfold logged.
  destruct w as [sp av er lo au sy [db |] cs]; cbn.
  2: { exists None, []. rewrite app_nil_r. split; [done |]. by intros t []. }
  assert (speaksOnly apology [CacheGet cacheKey]) as S by (by intros t [[=] | []]).
  destruct (cacheReadError p); [by exists None, [CacheGet cacheKey] |].
  destruct (audioCache db !! cacheKey) as [item |]; [| by exists None, [CacheGet cacheKey]].
  destruct (_ <? _)%Z; by eexists _, [CacheGet cacheKey].
Qed.

Lemma saveToCache_calls (p : Platform) (cacheKey : string) (audioData : ArrayBuffer)
    (text voice : string) (w : TTS) :
  exists w' l,
    saveToCache p cacheKey audioData text voice w = (Ok tt, w') /\
    calls w' = calls w ++ l /\ speaksOnly apology l.
Proof.
  unfold saveToCache. run_M.
  destruct (cacheDBRef w) as [db |]; [destruct (cacheWriteError p) |].
  2: { eexists. exists [CachePut cacheKey audioData]. split; [reflexivity |].
       split; [reflexivity |]. by intros t [[=] | []]. }
  all: exists w, []; rewrite app_nil_r; split; [done |]; split; [done |]; by intros t [].
Qed.

Lemma playAudioBuffer_calls (options : TTSOptions.t) (p : Platform) (audioData : ArrayBuffer)
    (w : TTS) :
  exists w' l,
    playAudioBuffer options p audioData w = (Ok tt, w') /\
    calls w' = calls w ++ l /\ speaksOnly apology l.
Proof.
  unfold playAudioBuffer, useBrowserTTS, speaksOnly. run_M.
  destruct (createObjectURLThrows p), (playRejects p);
    destruct w as [sp av er lo [[sr pa ct pr] |] [[sk us] |] db cs]; cbn.
  all: eexists; eexists; (split; [reflexivity |]); cbn.
  all: split; [rewrite <- ?app_assoc; reflexivity || (symmetry; apply app_nil_r) |].
  all: intros text Ht; cbn in Ht;
    repeat (destruct Ht as [Ht | Ht]; [by inversion Ht |]); destruct Ht.
Qed.

Lemma speaksOnly_app (text : string) (l1 l2 : list Call) :
  speaksOnly text l1 -> speaksOnly text l2 -> speaksOnly text (l1 ++ l2).
Proof. intros H1 H2 t Ht. apply in_app_or in Ht as [Ht | Ht]; auto. Qed.

(** X22.  [speak] never hands its text to the native engine.  The
    synthesizer, the cache and the player all catch what they throw, so
    the two handlers of [speak] that would read the text with the
    browser's voice are never entered: whatever the platform does, the
    only thing the native engine is ever asked to say is the apology for
    a failed playback. *)
Theorem speak_native_engine (options : TTSOptions.t) (p : Platform) (text : string)
    (w : TTS) :
  exists w' l,
    speak options p text w = (Ok tt, w') /\
    calls w' = calls w ++ l /\
    forall t, In (SynthesisSpeak t) l -> t = apology.
Proof.
  fold (speaksOnly apology).
  destruct (stop_spec w) as (w1 & Hstop & _ & _ & _ & _ & _ & _ & _ & Hcalls1 & _).
  assert (exists l1, calls w1 = calls w ++ l1 /\ speaksOnly apology l1) as (l1 & C1 & S1).
  { eexists. split; [exact Hcalls1 |].
    destruct (audioRef w), (synthesisRef w) as [[[] ?] |]; intros t Ht; cbn in Ht;
      repeat (destruct Ht as [Ht | Ht]; [by inversion Ht |]); destruct Ht. }
  unfold speak. unfold mbind at 1, M_bind at 1, gets at 1.
  destruct (negb (TTSOptions.enabled options) || negb (available w)).
  { exists w, []. rewrite app_nil_r. split; [done |]. split; [done |]. by intros t []. }
  unfold mbind at 1, M_bind at 1. rewrite Hstop.
  destruct (cleanText text =? "")%string; [by exists w1, l1 |].
  rewrite synthesizeTextToAudio_cases.
  set (audioData := match setUpRendering _ _ _ _ with Ok _ => _ | Throw _ => _ end).
  set (key := generateCacheKey (cleanText text) (TTSOptions.voice options)).
  clearbody audioData key. generalize (cleanText text). intros clean.
  run_M.
  set (w2 := {| isSpeaking := isSpeaking w1; available := available w1; error := None;
                isLoading := true; audioRef := audioRef w1;
                synthesisRef := synthesisRef w1; cacheDBRef := cacheDBRef w1;
                calls := calls w1 |}).
  destruct (getFromCache_calls p key w2) as (r & lg & Hget & Sg).
  change (getFromCache p key (@Build_TTS _ _ _ _ _ _ _ _)) with (getFromCache p key w2).
  rewrite Hget. destruct r as [cachedAudio |].
  - destruct (playAudioBuffer_calls options p cachedAudio (logged lg w2))
      as (w4 & lp & Hplay & Cp & Sp).
    rewrite Hplay. eexists. exists (l1 ++ lg ++ lp). split; [reflexivity |]. cbn.
    split; [rewrite Cp; cbn; by rewrite C1, <- !app_assoc |].
    apply speaksOnly_app; [done |]. by apply speaksOnly_app.
  - set (w3 := {| isSpeaking := _; calls := _ ++ [Synthesize _ _ _] |}).
    destruct (saveToCache_calls p key audioData clean (TTSOptions.voice options) w3)
      as (w4 & ls & Hsave & Cs & Ss).
    rewrite Hsave.
    destruct (playAudioBuffer_calls options p audioData w4) as (w5 & lp & Hplay & Cp & Sp).
    rewrite Hplay. eexists.
    exists (l1 ++ lg ++ [Synthesize clean (TTSOptions.voice options) (TTSOptions.rate options)]
            ++ ls ++ lp).
    split; [reflexivity |]. cbn.
    split; [rewrite Cp, Cs; cbn; by rewrite C1, <- !app_assoc |].
    apply speaksOnly_app; [done |]. apply speaksOnly_app; [done |].
    intros t [Ht | Ht]; [discriminate Ht | exact (speaksOnly_app _ _ _ Ss Sp t Ht)].
Qed.

(** X23.  Without a cache database [speak] synthesizes every time: it
    makes no cache call, hands the synthesized clip to the audio element
    and leaves the hook without a database. *)
Theorem speak_without_cache (options : TTSOptions.t) (p : Platform) (text : string)
    (w : TTS) (audio : HTMLAudioElement) :
  TTSOptions.enabled options = true -> available w = true ->
  cleanText text <> "" ->
  audioRef w = Some audio -> cacheDBRef w = None ->
  createObjectURLThrows p = false -> playRejects p = false ->
  exists audioData w',
    synthesizeTextToAudio p (cleanText text) (TTSOptions.voice options)
      (TTSOptions.rate options) = Ok audioData /\
    speak options p text w = (Ok tt, w') /\
    calls w' =
      calls w ++ [AudioPause; AudioSeek 0]
      ++ (match synthesisRef w with
          | Some s => if speaking s then [SynthesisCancel] else []
          | None => []
          end)
      ++ [Synthesize (cleanText text) (TTSOptions.voice options) (TTSOptions.rate options);
          AudioPlay audioData] /\
    audioRef w' = Some {| src := Some audioData; paused := false; currentTime := 0;
                          playbackRate := TTSOptions.rate options |} /\
    isSpeaking w' = true /\ isLoading w' = false /\ error w' = None /\
    cacheDBRef w' = None.
Proof.
  intros Hen Hav Hclean Haudio Hdb Hurl Hplay.
  destruct (stop_spec w)
    as (w1 & Hstop & _ & _ & _ & _ & Hdb1 & _ & _ & Hcalls1 & Haudio1 & _).
  rewrite Haudio in Hcalls1, Haudio1. rewrite Hdb in Hdb1. cbn in Haudio1.
  unfold speak. unfold mbind at 1, M_bind at 1, gets at 1.
  rewrite Hen, Hav. cbn [negb orb]. unfold mbind at 1, M_bind at 1. rewrite Hstop.
  destruct (String.eqb_spec (cleanText text) ""); [done |].
  rewrite synthesizeTextToAudio_cases.
  set (audioData := match setUpRendering _ _ _ _ with Ok _ => _ | Throw _ => _ end).
  set (key := generateCacheKey (cleanText text) (TTSOptions.voice options)) in *.
  clearbody audioData key. revert Hclean n. generalize (cleanText text). intros clean _ _.
  unfold playAudioBuffer, saveToCache, getFromCache. run_M. rewrite Hurl, Hplay.
  destruct w1 as [sp1 av1 er1 lo1 au1 sy1 db1 cs1]. cbn in Hdb1, Haudio1, Hcalls1.
  subst au1 db1 cs1. cbn.
  exists audioData. eexists. split; [reflexivity |]. split; [reflexivity |]. cbn.
  rewrite <- !app_assoc. repeat split.
Qed.

Lemma speak_without_cache_witness :
  cleanText "Hello world." <> "" /\
  exists audioData w',
    speak defaultOptions silentPlatform "Hello world."
      {| isSpeaking := false; available := true; error := None; isLoading := false;
         audioRef := Some idleAudio; synthesisRef := None; cacheDBRef := None;
         calls := [] |} = (Ok tt, w') /\
    isSpeaking w' = true /\ cacheDBRef w' = None /\
    audioRef w' = Some {| src := Some audioData; paused := false; currentTime := 0;
                          playbackRate := 1 |}.
Proof.
  assert (cleanText "Hello world." <> "") as Hclean by (vm_compute; discriminate).
  split; [exact Hclean |].
  destruct (speak_without_cache defaultOptions silentPlatform "Hello world."
              {| isSpeaking := false; available := true; error := None; isLoading := false;
                 audioRef := Some idleAudio; synthesisRef := None; cacheDBRef := None;
                 calls := [] |} idleAudio
              eq_refl eq_refl Hclean eq_refl eq_refl eq_refl eq_refl)
    as (audioData & w' & _ & Hspeak & _ & Ha & Hsp & _ & _ & Hdb).
  exists audioData, w'. exact (conj Hspeak (conj Hsp (conj Hdb Ha))).
Defined.

Lemma replaceFrom_no_match (r : regex) (replacement : list ascii -> list ascii)
    (fuel : nat) (s : list ascii) :
  (forall c t, (c :: t) `suffix_of` s ->
     rmatch r (c :: t) [] (fun rest cap => Some (rest, cap)) = None) ->
  replaceFrom fuel r replacement s = s.
Proof.
  revert s. induction fuel as [| fuel IH]; intros s H; [by destruct s |].
  destruct s as [| c s]; [done |]. cbn [replaceFrom].
  rewrite (H c s) by done. f_equal. apply IH.
  intros c' t Ht. apply H. by apply suffix_cons_r.
Qed.

Lemma markdown_no_match (r : regex) (c : ascii) (t : list ascii) :
  In r [codeBlocks; inlineCode; images; links; headings; emphasisMarks; listItems;
        numberedItems] ->
  isMarkdownChar c = false ->
  Forall (fun x => isMarkdownChar x = false) t ->
  rmatch r (c :: t) [] (fun rest cap => Some (rest, cap)) = None.
Proof.
  intros Hr Hc Ht. unfold isMarkdownChar in Hc. cbn [existsb] in Hc.
  repeat (apply orb_false_elim in Hc as [? Hc]).
  assert (match t with
          | c' :: _ => Ascii.eqb c' "[" = false
          | [] => True
          end) as Hnext.
  { destruct Ht as [| c' t Hc' _]; [done |].
    unfold isMarkdownChar in Hc'. cbn [existsb] in Hc'.
    repeat (apply orb_false_elim in Hc' as [? Hc']). done. }
  cbn [In] in Hr.
  repeat (destruct Hr as [<- | Hr]); [.. | destruct Hr].
  all: unfold codeBlocks, inlineCode, images, links, headings, emphasisMarks, listItems,
         numberedItems, str, plus, opt, chr, notChr; cbn [list_ascii_of_string lit rmatch chr].
  all: repeat match goal with
              | H : Ascii.eqb _ _ = false |- _ => try rewrite H; clear H
              end; try done.
  destruct (Ascii.eqb c "!"); [| done].
  destruct t as [| c' t]; [done |]. by rewrite Hnext.
Qed.

Lemma Forall_suffix_cons {A} (P : A -> Prop) (l t : list A) (c : A) :
  Forall P l -> (c :: t) `suffix_of` l -> P c /\ Forall P t.
Proof.
  intros H [pre ->]. apply Forall_app in H as [_ H]. by apply Forall_cons in H.
Qed.

(** X24.  Plain text passes the clean-up untouched but for the trim: a
    text without backtick, opening bracket, hash, asterisk, underscore,
    tilde or line feed, and without two white-space characters in a row,
    comes out as [text.trim()]. *)
Theorem cleanText_plain_text (text : string) :
  Forall (fun c => isMarkdownChar c = false) (list_ascii_of_string text) ->
  noWhiteSpaceRun (list_ascii_of_string text) = true ->
  cleanText text = string_of_list_ascii (trimChars (list_ascii_of_string text)).
Proof.
  intros Hplain Hruns. unfold cleanText, cleanTextChars, replaceAll. cbn zeta.
  assert (forall r replacement fuel,
            In r [codeBlocks; inlineCode; images; links; headings; emphasisMarks; listItems;
                  numberedItems] ->
            replaceFrom fuel r replacement (list_ascii_of_string text)
            = list_ascii_of_string text) as Hid.
  { intros r replacement fuel Hr. apply replaceFrom_no_match. intros c t Hsuf.
    destruct (Forall_suffix_cons _ _ _ _ Hplain Hsuf). by apply markdown_no_match. }
  rewrite !Hid by (cbn; tauto).
  rewrite replaceFrom_no_match; [done |].
  intros c t Hsuf. rewrite whiteSpaceRun_match.
  destruct t as [| c' t]; [done |].
  apply (noWhiteSpaceRun_suffix _ _ Hsuf) in Hruns.
  cbn [noWhiteSpaceRun] in Hruns. apply andb_prop in Hruns as [Hruns _].
  apply negb_true_iff in Hruns. by rewrite Hruns.
Qed.

Lemma cleanText_plain_text_witness :
  cleanText " How are you today? Fine, thanks! " = "How are you today? Fine, thanks!".
Proof.
  apply (cleanText_plain_text " How are you today? Fine, thanks! ").
  - repeat constructor.
  - reflexivity.
Defined.

(** ** Sentences and their pitch *)

Lemma splitRuns_pieces (isSep : ascii -> bool) (cs cur : list ascii) (afterSep : bool) :
  Forall (fun c => isSep c = false) cur ->
  Forall (Forall (fun c => isSep c = false)) (splitRuns isSep cs cur afterSep) /\
  list_sum (map length (splitRuns isSep cs cur afterSep)) <= length cs + length cur.
Proof.
  revert cur afterSep. induction cs as [| c cs IH]; intros cur afterSep Hcur.
  - cbn. split; [repeat constructor; by apply List.Forall_rev |].
    rewrite length_rev. lia.
  - cbn [splitRuns]. destruct (isSep c) eqn:Ec.
    + destruct (IH [] true ltac:(constructor)) as [F L]. cbn [length] in *.
      destruct afterSep.
      * split; [done | lia].
      * split; [constructor; [by apply List.Forall_rev | done] |].
        unfold list_sum in *. cbn [map fold_right]. rewrite length_rev. lia.
    + destruct (IH (c :: cur) false ltac:(by constructor)) as [F L].
      cbn [length] in *. split; [done | lia].
Qed.

Lemma length_filter_nonempty {A} (P : list A -> Prop) `{!forall s, Decision (P s)}
    (l : list (list A)) :
  (forall s, P s -> 0 < length s) ->
  length (filter P l) <= list_sum (map length l).
Proof.
  intros Hlen. induction l as [| s l IH]; [done |].
  rewrite filter_cons. unfold list_sum in *. cbn [map fold_right].
  destruct (decide (P s)) as [E | E]; cbn [length]; [apply Hlen in E |]; lia.
Qed.

Lemma length_trimChars (cs : list ascii) : length (trimChars cs) <= length cs.
Proof.
  unfold trimChars. rewrite length_rev.
  etrans; [apply length_dropWhile |]. rewrite length_rev. apply length_dropWhile.
Qed.

Lemma splitRuns_no_separator (isSep : ascii -> bool) (cs cur : list ascii) (afterSep : bool) :
  Forall (fun c => isSep c = false) cs ->
  splitRuns isSep cs cur afterSep = [rev cur ++ cs].
Proof.
  revert cur afterSep. induction cs as [| c cs IH]; intros cur afterSep H.
  - cbn. by rewrite app_nil_r.
  - apply Forall_cons in H as [Hc H]. cbn [splitRuns]. rewrite Hc, IH by done.
    cbn [rev]. by rewrite <- app_assoc.
Qed.

(** X25.  The sentences the synthesizer counts: the text is cut at
    every run of '.', '!' and '?', so no sentence contains one of them,
    and blank pieces are dropped, so every sentence has a character that
    is not white space; there are at most as many sentences as
    characters; and a text without any of the three marks that is not
    blank is one sentence, itself. *)
Theorem sentencesOf_pieces (text : string) :
  Forall (fun s => Forall (fun c => isSentenceEnd c = false) s /\ 0 < length (trimChars s))
         (sentencesOf text) /\
  length (sentencesOf text) <= String.length text /\
  (Forall (fun c => isSentenceEnd c = false) (list_ascii_of_string text) ->
   0 < length (trimChars (list_ascii_of_string text)) ->
   sentencesOf text = [list_ascii_of_string text]).
Proof.
  unfold sentencesOf.
  destruct (splitRuns_pieces isSentenceEnd (list_ascii_of_string text) [] false
              ltac:(constructor)) as [F L].
  split; [| split].
  - apply Forall_forall. intros s Hs. apply list_elem_of_filter in Hs as [Hs Hin].
    split; [| done]. rewrite Forall_forall in F. by apply F.
  - etrans; [apply length_filter_nonempty |].
    + intros s Hs. pose proof (length_trimChars s). lia.
    + cbn [length] in L. rewrite Nat.add_0_r in L.
      assert (length (list_ascii_of_string text) = String.length text) as <-; [| done].
      clear. induction text as [| c text IH]; [done |]. cbn. by rewrite IH.
  - intros Hplain Hblank. rewrite splitRuns_no_separator by done. cbn [rev app].
    rewrite filter_cons. by destruct (decide _).
Qed.

(** X26.  The pitch of the sentences.  Under the conditions of the
    rendering, sentence [i] of the text gets one pitch event.  Its value
    is the base frequency of the voice times [1 + 0.05] for an even [i]
    and [1 + -0.03] for an odd one, computed in doubles and stored as a
    single-precision number: within 2^-23, relatively, of the base
    frequency raised by 5% or lowered by 3%.  Its time is the sum of [i]
    rounded additions of the rounded [d / n], where [n] is the number of
    sentences: within [i * (d / n) * (i + 2) * 2^-53] of [i * (d / n)],
    and inside the clip, from 0 up to but not including [d]. *)
Theorem pitch_schedule (p : Platform) (text voice : string) (rate sr d : Q) :
  audioContext p = Ok sr ->
  Double.calculateDuration text rate = Num d ->
  (Double.literal 0.05 <= d)%Q -> (d <= 2 ^ 1000)%Q ->
  (20 <= sr)%Q -> (10 * sr <= 2147483648)%Q ->
  (Z.of_nat (length (sentencesOf text)) <= 67108864)%Z ->
  exists offlineCtx,
    Double.setUpRendering p text voice rate = Ok (sr, offlineCtx) /\
    forall i, i < length (sentencesOf text) ->
      exists v t,
        events (oscillatorFrequency offlineCtx) !! i = Some (SetValueAtTime v t) /\
        Double.toFloat
          (Double.mul (Num (baseFrequency (getVoiceCharacteristics voice)))
             (Double.add (Num 1)
                (Num (Double.literal (if (i mod 2 =? 0)%nat then 0.05 else - 0.03)))))
        = Ok v /\
        (Qabs (v - baseFrequency (getVoiceCharacteristics voice)
                   * (1 + (if (i mod 2 =? 0)%nat then 0.05 else - 0.03)))
         <= baseFrequency (getVoiceCharacteristics voice) * (1 # 8388608))%Q /\
        (Qabs (t - inject_Z (Z.of_nat i)
                   * (d / inject_Z (Z.of_nat (length (sentencesOf text)))))
         <= inject_Z (Z.of_nat i) * (d / inject_Z (Z.of_nat (length (sentencesOf text))))
            * (inject_Z (Z.of_nat i) + 2) * (1 # 9007199254740992))%Q /\
        (0 <= t)%Q /\ (t < d)%Q.
Proof.
  intros Hctx Hd Hlong Hbig Hlo Hhi Hcount.
  destruct (DoubleFacts.setUpRendering_rounded p text voice rate sr d Hctx Hd Hlong Hbig
              Hlo Hhi Hcount)
    as (ctx & Hset & _ & _ & _ & _ & _ & _ & _ & _ & _ & Hev).
  exists ctx. split; [exact Hset |]. intros i Hi.
  destruct (Hev i Hi) as (v & t & Hnth & Hv & Hacc). exists v, t.
  split; [exact Hnth |]. split; [exact Hv |].
  pose proof DoubleFacts.literal_005 as Hlit.
  assert (1 <= baseFrequency (getVoiceCharacteristics voice) <= 1000)%Q as Hbase
    by (pose proof (DoubleFacts.baseFrequency_range voice) as [? ?]; split; lra).
  destruct (DoubleFacts.pitch_value _ i Hbase) as (v' & Hv' & Hnear).
  rewrite Hv in Hv'. injection Hv' as <-. split; [exact Hnear |].
  destruct (DoubleFacts.sentenceDuration_value d (length (sentencesOf text)) ltac:(lra)
              Hbig ltac:(lia)) as (_ & _ & HsL & HsU & _).
  exact (DoubleFacts.accumulated_bounds d _ i (length (sentencesOf text)) t ltac:(lra) Hi
           Hcount HsL HsU Hacc).
Qed.

Lemma pitch_schedule_witness :
  audioContext silentPlatform = Ok 8000%Q /\
  exists offlineCtx,
    Double.setUpRendering silentPlatform "One. Two! Three?" "echo" 1
    = Ok (8000%Q, offlineCtx) /\
    length (sentencesOf "One. Two! Three?") = 3 /\
    exists v t,
      events (oscillatorFrequency offlineCtx) !! 1 = Some (SetValueAtTime v t) /\
      (Qabs (v - 120 * (1 + - 0.03)) <= 120 * (1 # 8388608))%Q /\
      (0 <= t)%Q /\ (t < 1441151880758559 # 1125899906842624)%Q.
Proof.
  split; [reflexivity |].
  destruct (pitch_schedule silentPlatform "One. Two! Three?" "echo" 1 8000
              (1441151880758559 # 1125899906842624) eq_refl)
    as (ctx & Hset & Hev);
    [by vm_compute | by vm_compute | by vm_compute | discriminate | discriminate
    | by vm_compute |].
  exists ctx. split; [exact Hset |]. split; [reflexivity |].
  destruct (Hev 1) as (v & t & Hnth & _ & Hv & _ & H0 & Hd).
  - apply Nat.ltb_lt. reflexivity.
  - exists v, t. exact (conj Hnth (conj Hv (conj H0 Hd))).
Defined.
